(** * EDGAR filing cards: reference index, autocomplete ranking and filing
      enrichment

    A shallow embedding of the route handlers of the repository
    ([app/api/lookup/[symbol]/route.ts], [app/api/suggest/route.ts] and
    [app/api/filings/[cik]/route.ts]) together with the properties the
    design document states about them.

    Conventions of the embedding.
    - A JavaScript string is a list of code units, [str := list ascii].  The
      model covers the ASCII alphabet: case conversion acts on the letters
      [a-z]/[A-Z] only, and the white space class is the ASCII part of the
      ECMAScript one.
    - [Array.from(new Set(xs))] is [SetFrom]: first occurrences, in order.
    - A [Map] is an association list in insertion order, which is the order
      [Map.prototype.values] iterates in.
    - [Array.prototype.sort] with a consistent comparator is the stable
      insertion sort [sortBy].
    - Network and clock are explicit: a [Network] oracle answers the n-th
      [fetch] of the process, the clock reading is an argument of the call.
    - A JavaScript number that holds an amount is an IEEE 754 binary64 value,
      [spec_float] with precision 53 and maximal exponent 1024: numerals are
      rounded to the nearest double, products are rounded, and a value too
      large for a double is [Infinity].
*)

From Stdlib Require Import Ascii String.
From Stdlib Require Import List ZArith Lia Bool Arith PeanoNat.
From Stdlib Require Import Sorting.Permutation Sorting.Sorted.
From Stdlib Require Import Floats.SpecFloat.
Import ListNotations.

Set Implicit Arguments.
Unset Strict Implicit.

Local Open Scope nat_scope.
Local Open Scope list_scope.

(* ================================================================== *)
(** * Part I: the program *)
(* ================================================================== *)

(** ** JavaScript strings and arrays *)

Module Js.

Definition str := list ascii.

(** String literals of the source are written [lit "..."]. *)
Definition lit (s : string) : str := list_ascii_of_string s.

Definition code (c : ascii) : nat := nat_of_ascii c.

Definition between (lo hi : nat) (c : ascii) : bool :=
  (lo <=? code c) && (code c <=? hi).

(** [\d] *)
Definition isDigit (c : ascii) : bool := between 48 57 c.

(** [\s], and the characters [String.prototype.trim] removes, within the
    ASCII alphabet of the model: TAB, LF, VT, FF, CR and SPACE.  The no-break
    space U+00A0 and the other Unicode spaces are not characters of the
    model. *)
Definition isSpace (c : ascii) : bool := between 9 13 c || (code c =? 32).

Definition isLower (c : ascii) : bool := between 97 122 c.
Definition isUpper (c : ascii) : bool := between 65 90 c.

Definition toUpper (c : ascii) : ascii :=
  if isLower c then ascii_of_nat (code c - 32) else c.
Definition toLower (c : ascii) : ascii :=
  if isUpper c then ascii_of_nat (code c + 32) else c.

Definition toUpperCase (s : str) : str := map toUpper s.
Definition toLowerCase (s : str) : str := map toLower s.

Fixpoint str_eqb (a b : str) : bool :=
  match a, b with
  | [], [] => true
  | x :: a', y :: b' => Ascii.eqb x y && str_eqb a' b'
  | _, _ => false
  end.

Fixpoint dropWhile (p : ascii -> bool) (s : str) : str :=
  match s with
  | [] => []
  | c :: s' => if p c then dropWhile p s' else s
  end.

Definition trimStart (s : str) : str := dropWhile isSpace s.
Definition trimEnd (s : str) : str := rev (dropWhile isSpace (rev s)).
Definition trim (s : str) : str := trimEnd (trimStart s).

(** [s.replace(/\D/g, "")] *)
Definition stripNonDigits (s : str) : str := filter isDigit s.

Definition isDot (c : ascii) : bool := Ascii.eqb c "."%char.
Definition isDash (c : ascii) : bool := Ascii.eqb c "-"%char.

(** [s.replace(/\./g, "")] *)
Definition removeDots (s : str) : str := filter (fun c => negb (isDot c)) s.
(** [s.replace(/\./g, "-")] *)
Definition dotsToDashes (s : str) : str :=
  map (fun c => if isDot c then "-"%char else c) s.
(** [s.replace(/[-.]/g, "")] *)
Definition stripDotDash (s : str) : str :=
  filter (fun c => negb (isDot c || isDash c)) s.
(** [s.replace(/-/g, "")] *)
Definition removeDashes (s : str) : str := filter (fun c => negb (isDash c)) s.
(** [s.replace(/,/g, "")] *)
Definition removeCommas (s : str) : str :=
  filter (fun c => negb (Ascii.eqb c ","%char)) s.

(** [s.padStart(n, "0")] *)
Definition padStart0 (n : nat) (s : str) : str :=
  repeat "0"%char (n - length s) ++ s.

(** [s.startsWith(p)] *)
Fixpoint startsWith (p s : str) : bool :=
  match p, s with
  | [], _ => true
  | x :: p', y :: s' => Ascii.eqb x y && startsWith p' s'
  | _ :: _, [] => false
  end.

(** [s.includes(p)] *)
Fixpoint includes (p s : str) : bool :=
  startsWith p s ||
  match s with
  | [] => false
  | _ :: s' => includes p s'
  end.

(** [s.endsWith(p)] *)
Definition endsWith (p s : str) : bool := startsWith (rev p) (rev s).

(** [xs.includes(x)] and [set.has(x)] on strings *)
Definition mem (x : str) (xs : list str) : bool := existsb (str_eqb x) xs.

(** [Array.from(new Set(xs))] on strings: a set remembers insertion order
    and ignores a value it already holds. *)
Definition SetFrom (xs : list str) : list str :=
  fold_left (fun seen x => if mem x seen then seen else seen ++ [x]) xs [].

(** [xs.slice(0, n)] for a non-negative integer [n] *)
Definition slice0 {A} (n : nat) (xs : list A) : list A := firstn n xs.

(** [Array.prototype.sort(cmp)]: the sort is stable, and [a] goes behind [b]
    when [cmp a b > 0].  Elements are inserted from the right, each in front
    of the first element it need not go behind, so equal elements keep their
    input order. *)
Fixpoint insertBy {A} (cmp : A -> A -> Z) (x : A) (l : list A) : list A :=
  match l with
  | [] => [x]
  | y :: l' => if (cmp x y <=? 0)%Z then x :: l else y :: insertBy cmp x l'
  end.

Definition sortBy {A} (cmp : A -> A -> Z) (l : list A) : list A :=
  fold_right (insertBy cmp) [] l.

End Js.
Import Js.

(** ** Canonical ids *)

(** [pad10] of the lookup and suggest routes.  The argument is the text
    [String(cik)] of the upstream id. *)
Definition pad10 (x : str) : str :=
  let s := stripNonDigits x in
  padStart0 10 s.

(** [zeroPadCIK] of the filings route. *)
Definition zeroPadCIK (cik : str) : str := padStart0 10 cik.

(** ** Rows, upstream documents and the process state *)

(** [type Row = { ticker: string; cik: string; name: string }] *)
Record Row := mkRow { ticker : str; cik : str; name : str }.

Module Upstream.

(** One entry of a registry document.  The ids are read through
    [String(field)]: [e_cik_str] and [e_cik] hold that text, and [None] when
    the entry has no such field.  Symbol and title are read through
    [String(field || "")]: [e_ticker] and [e_title] are [None] when the
    field is missing or falsy ([null], [0], [false], the empty string) and
    hold the text [String(field)] otherwise. *)
Record RawEntry := mkRaw {
  e_cik_str : option str;
  e_cik : option str;
  e_ticker : option str;
  e_title : option str
}.

(** What the external key-value store holds under [KV_KEY], as
    [JSON.parse(j.result)] sees it. *)
Inductive KvResult :=
| KvNotAString
| KvUnparsable
| KvParsed (rows : list Row).

(** [data.filings.recent] of a submissions document: parallel columns. *)
Record Recent := mkRecent {
  accessionNumber : list str;
  form : list str;
  filingDate : list str;
  primaryDocument : list str
}.

(** [data.filings.recent] of a submissions document that may lack columns:
    [None] is a column the object does not have.  A missing
    [accessionNumber] column reads as the empty list
    ([recent?.accessionNumber ?? []]). *)
Record SparseRecent := mkSparse {
  s_accessionNumber : list str;
  s_form : option (list str);
  s_filingDate : option (list str);
  s_primaryDocument : option (list str)
}.

(** Parsed bodies: the primary registry document is an object of entries
    (listed in [Object.keys] order), the secondary one an array of entries;
    [JKv] is the reply of the key-value store, [JSubmissions] the filing
    index of one registrant with all its columns, [JSparse] a filing index
    whose columns may be missing.  The cells of a column are strings. *)
Inductive Json :=
| JObject (entries : list (str * RawEntry))
| JArray (items : list RawEntry)
| JKv (result : KvResult)
| JSubmissions (name entityType : option str) (recent : option Recent)
| JSparse (name entityType : option str) (recent : SparseRecent).

Inductive result (A : Type) :=
| Ok (a : A)
| Throw (msg : str).
Arguments Ok {A} a.
Arguments Throw {A} msg.

(** The outcome of one [fetch]: the promise rejects, or a response arrives
    with its [ok] flag, its status code and status text, and what [r.json()]
    and [r.text()] settle to. *)
Inductive Response :=
| NetworkError (msg : str)
| Http (ok : bool) (status statusText : str)
       (json : result Json) (text : result str).

(** The network answers the [n]-th [fetch] of the process. *)
Definition Network := nat -> str -> Response.

Inductive Event :=
| EvFetch (url : str)
| EvSleep (ms : Z).

(** Module-level variables of the route ([CACHE], [LAST]) and the effects
    performed so far, most recent first. *)
Record Proc := mkProc {
  CACHE : option (list Row);
  LAST : Z;
  trace : list Event
}.

Definition initial : Proc := mkProc None 0%Z [].

Definition isFetch (e : Event) : bool :=
  match e with EvFetch _ => true | EvSleep _ => false end.

Definition fetchCount (s : Proc) : nat := length (filter isFetch (trace s)).

Definition M (A : Type) : Type := Proc -> result A * Proc.

Definition ret {A} (a : A) : M A := fun s => (Ok a, s).
Definition throw {A} (msg : str) : M A := fun s => (Throw msg, s).
Definition bind {A B} (m : M A) (k : A -> M B) : M B :=
  fun s =>
    match m s with
    | (Ok a, s') => k a s'
    | (Throw e, s') => (Throw e, s')
    end.
(** [try { m } catch (e) { h(e) }] *)
Definition tryCatch {A} (m : M A) (h : str -> M A) : M A :=
  fun s =>
    match m s with
    | (Ok a, s') => (Ok a, s')
    | (Throw e, s') => h e s'
    end.

Definition emit (e : Event) : M unit :=
  fun s => (Ok tt, mkProc (CACHE s) (LAST s) (e :: trace s)).

(** [await fetch(url, ...)] *)
Definition fetch (net : Network) (url : str) : M Response :=
  fun s => (Ok (net (fetchCount s) url),
            mkProc (CACHE s) (LAST s) (EvFetch url :: trace s)).

(** [await sleep(ms)] *)
Definition sleep (ms : Z) : M unit := emit (EvSleep ms).

Definition setCache (rows : list Row) (now : Z) : M unit :=
  fun s => (Ok tt, mkProc (Some rows) now (trace s)).

End Upstream.
Import Upstream.

Notation "x <- c1 ;; c2" := (bind c1 (fun x => c2))
  (at level 61, c1 at next level, right associativity).

(** [String(v)] of an optional field *)
Definition jsString (v : option str) : str :=
  match v with Some s => s | None => lit "undefined" end.

(** [e?.message || fallback] *)
Definition orDefault (msg fallback : str) : str :=
  match msg with [] => fallback | _ => msg end.

(** [String(v || "")] *)
Definition jsStringOrEmpty (v : option str) : str :=
  match v with Some s => s | None => [] end.

(** ** The insertion-ordered map [byPlain] *)

Definition RowMap := list (str * Row).

Definition MapHas (m : RowMap) (key : str) : bool :=
  existsb (fun e => str_eqb key (fst e)) m.

Fixpoint MapGet (m : RowMap) (key : str) : option Row :=
  match m with
  | [] => None
  | (k, r) :: m' => if str_eqb key k then Some r else MapGet m' key
  end.

Fixpoint MapSet (m : RowMap) (key : str) (r : Row) : RowMap :=
  match m with
  | [] => [(key, r)]
  | (k, r0) :: m' =>
      if str_eqb key k then (k, r) :: m' else (k, r0) :: MapSet m' key r
  end.

Definition MapValues (m : RowMap) : list Row := map snd m.

Definition SEC_TICKERS : str :=
  lit "https://www.sec.gov/files/company_tickers.json".
Definition SEC_TICKERS_EXCHANGE : str :=
  lit "https://www.sec.gov/files/company_tickers_exchange.json".

(** ** The lookup route, in-memory cache revision *)

Module Lookup.

Definition norms (sym : str) : list str :=
  let u := trim (toUpperCase sym) in
  let noDots := removeDots u in
  let dash := dotsToDashes u in
  let plain := stripDotDash u in
  SetFrom [u; dash; noDots; plain; plain].

Definition TTL_MS : Z := 60 * 60 * 1000.

(** One pass of the [try] block of [fetchJSON] on a response. *)
Definition attempt (r : Response) : result Json :=
  match r with
  | NetworkError e => Throw e
  | Http false status statusText _ _ => Throw (status ++ lit " " ++ statusText)
  | Http true _ _ body _ => body
  end.

(** The [for] loop of [fetchJSON] with [n] iterations left. *)
Fixpoint fetchLoop (net : Network) (url : str) (n : nat) (delay : Z)
    (err : option str) : M Json :=
  match n with
  | O => throw (match err with Some e => e | None => lit "fetch_failed" end)
  | S n' =>
      r <- fetch net url ;;
      match attempt r with
      | Ok j => ret j
      | Throw e =>
          _ <- sleep delay ;;
          fetchLoop net url n' (delay * 2) (Some e)
      end
  end.

Definition fetchJSON (net : Network) (url : str) : M Json :=
  fetchLoop net url 4 200%Z None.

(** [Object.keys(j1).map((k) => ({ ... j1[k] ... }))] *)
Definition primaryRows (j1 : Json) : list Row :=
  let entries :=
    match j1 with
    | JObject es => map snd es
    | JArray items => items
    | _ => []
    end in
  map (fun e => mkRow (toUpperCase (jsStringOrEmpty (e_ticker e)))
                      (pad10 (jsString (e_cik_str e)))
                      (jsStringOrEmpty (e_title e))) entries.

(** [if (Array.isArray(j2)) arr2 = j2.map(...)] *)
Definition secondaryRows (j2 : Json) : list Row :=
  match j2 with
  | JArray items =>
      map (fun row => mkRow (toUpperCase (jsStringOrEmpty (e_ticker row)))
                            (pad10 (jsString (e_cik row)))
                            (jsStringOrEmpty (e_title row))) items
  | _ => []
  end.

(** [const push = (r) => { for (const n of norms(r.ticker)) ... }] *)
Definition push (byPlain : RowMap) (r : Row) : RowMap :=
  fold_left
    (fun m n =>
       let key := stripDotDash n in
       if MapHas m key then m else MapSet m key r)
    (norms (ticker r)) byPlain.

(** [arr2.forEach(push); arr1.forEach(push);] on a fresh map *)
Definition mergeRows (arr1 arr2 : list Row) : RowMap :=
  fold_left push arr1 (fold_left push arr2 []).

(** The part of [loadAll] after the freshness test: the Builder. *)
Definition build (net : Network) : M (list Row) :=
  j1 <- fetchJSON net SEC_TICKERS ;;
  let arr1 := primaryRows j1 in
  arr2 <- tryCatch
            (j2 <- fetchJSON net SEC_TICKERS_EXCHANGE ;;
             ret (secondaryRows j2))
            (fun _ => ret []) ;;
  ret (MapValues (mergeRows arr1 arr2)).

Definition loadAll (net : Network) (now : Z) : M (list Row) :=
  fun s =>
    match CACHE s with
    | Some rows =>
        if (now - LAST s <? TTL_MS)%Z then (Ok rows, s)
        else (rows' <- build net ;; _ <- setCache rows' now ;; ret rows') s
    | None => (rows' <- build net ;; _ <- setCache rows' now ;; ret rows') s
    end.

Inductive Reply :=
| Found (hit : Row)
| Failed (status : nat) (error : str).

(** [/^\d{1,10}$/.test(q)] *)
Definition isNumericQuery (q : str) : bool :=
  negb (length q =? 0) && (length q <=? 10) && forallb isDigit q.

(** [xs.some((v) => qPlainSet.has(v))] for the variants [xs] of a row *)
Definition tickerMatches (qPlainSet : list str) (x : Row) : bool :=
  let xs := map stripDotDash (norms (ticker x)) in
  existsb (fun v => mem v qPlainSet) xs.

(** The body of [GET] once [loadAll] has delivered [list]: the resolver. *)
Definition resolve (list : list Row) (symbol : str) : Reply :=
  let q := trim symbol in
  if length q =? 0 then Failed 400 (lit "empty_query")
  else
    let numericHit :=
      if isNumericQuery q
      then find (fun r => str_eqb (cik r) (pad10 q)) list
      else None in
    match numericHit with
    | Some hit => Found hit
    | None =>
        let variants := norms q in
        let qPlainSet := SetFrom (map stripDotDash variants) in
        let Q := toUpperCase q in
        match find (tickerMatches qPlainSet) list with
        | Some hit => Found hit
        | None =>
            match find (fun x => startsWith Q (toUpperCase (name x))) list with
            | Some hit => Found hit
            | None =>
                match find (fun x => includes Q (toUpperCase (name x))) list with
                | Some hit => Found hit
                | None => Failed 404 (lit "not_found")
                end
            end
        end
    end.

Definition GET (net : Network) (now : Z) (symbol : str) : M Reply :=
  tryCatch
    (list <- loadAll net now ;; ret (resolve list symbol))
    (fun e => ret (Failed 500 (orDefault e (lit "lookup_failed")))).

End Lookup.

(** ** The key-value revision of the lookup and suggest routes *)

Module KvRoutes.

(** [process.env.UPSTASH_REDIS_REST_URL || ""] and the token *)
Record KvEnv := mkKvEnv { KV_URL : str; KV_TOKEN : str }.

Definition TTL_SEC : Z := 60 * 60.

Definition norms (sym : str) : list str :=
  let u := trim (toUpperCase sym) in
  let nodots := removeDots u in
  let dash := dotsToDashes u in
  let plain := stripDotDash u in
  SetFrom [u; nodots; dash; plain].

Definition configured (env : KvEnv) : bool :=
  negb (length (KV_URL env) =? 0) && negb (length (KV_TOKEN env) =? 0).

Definition kvGetUrl (env : KvEnv) : str :=
  KV_URL env ++ lit "/get/sec%3AtickerIndex%3Av1".
Definition kvSetUrl (env : KvEnv) : str :=
  KV_URL env ++ lit "/set/sec%3AtickerIndex%3Av1".

Definition kvGet (env : KvEnv) (net : Network) : M (option (list Row)) :=
  if negb (configured env) then ret None
  else
    r <- fetch net (kvGetUrl env) ;;
    match r with
    | NetworkError e => throw e
    | Http false _ _ _ _ => ret None
    | Http true _ _ (Throw e) _ => throw e
    | Http true _ _ (Ok (JKv (KvParsed rows))) _ => ret (Some rows)
    | Http true _ _ (Ok _) _ => ret None
    end.

(** The reply of the store to the POST is not looked at, and a rejection is
    caught. *)
Definition kvSet (env : KvEnv) (net : Network) (rows : list Row) : M unit :=
  if negb (configured env) then ret tt
  else _ <- fetch net (kvSetUrl env) ;; ret tt.

Definition attempt (r : Response) : result Json :=
  match r with
  | NetworkError e => Throw e
  | Http false status statusText _ _ => Throw (status ++ lit " " ++ statusText)
  | Http true _ _ body _ => body
  end.

Fixpoint fetchLoop (net : Network) (url : str) (n : nat) (delay : Z) : M Json :=
  match n with
  | O => throw (lit "fetch_failed")
  | S n' =>
      r <- fetch net url ;;
      match attempt r with
      | Ok j => ret j
      | Throw _ =>
          _ <- sleep delay ;;
          fetchLoop net url n' (delay * 2)
      end
  end.

Definition fetchJSON (net : Network) (url : str) : M Json :=
  fetchLoop net url 4 200%Z.

Definition push (byPlain : RowMap) (r : Row) : RowMap :=
  fold_left
    (fun m n =>
       let key := stripDotDash n in
       if MapHas m key then m else MapSet m key r)
    (norms (ticker r)) byPlain.

Definition mergeRows (arr1 arr2 : list Row) : RowMap :=
  fold_left push arr1 (fold_left push arr2 []).

Definition build (net : Network) : M (list Row) :=
  j1 <- fetchJSON net SEC_TICKERS ;;
  let arr1 := Lookup.primaryRows j1 in
  arr2 <- tryCatch
            (j2 <- fetchJSON net SEC_TICKERS_EXCHANGE ;;
             ret (Lookup.secondaryRows j2))
            (fun _ => ret []) ;;
  ret (MapValues (mergeRows arr1 arr2)).

Definition loadIndex (env : KvEnv) (net : Network) : M (list Row) :=
  cached <- kvGet env net ;;
  match cached with
  | Some (r :: rows) => ret (r :: rows)
  | _ =>
      rows <- build net ;;
      _ <- kvSet env net rows ;;
      ret rows
  end.

End KvRoutes.

(** ** The suggest route *)

Module Suggest.

(** A JavaScript number as far as the [limit] parameter needs it. *)
Inductive JsNumber :=
| NaN
| Int (z : Z).

Record Scored := mkScored { row : Row; s : Z }.

Definition scoreRow (q : str) (r : Row) : Z :=
  let Q := trim (toUpperCase q) in
  let qPlain := stripDotDash Q in
  let tickerVars := map stripDotDash (KvRoutes.norms (ticker r)) in
  if mem qPlain tickerVars then 100
  else if existsb (fun t => startsWith qPlain t) tickerVars then 90
  else if existsb (fun t => includes qPlain t) tickerVars then 75
  else
    let nameU := toUpperCase (name r) in
    if startsWith Q nameU then 65
    else if includes Q nameU then 50
    else 0.

(** [Math.min(300, Math.max(10, limitParam))], then [slice(0, limit)]:
    a [NaN] bound selects nothing. *)
Definition clampLimit (limitParam : JsNumber) : JsNumber :=
  match limitParam with
  | NaN => NaN
  | Int z => Int (Z.min 300 (Z.max 10 z))
  end.

Definition sliceTo {A} (limit : JsNumber) (xs : list A) : list A :=
  match limit with
  | NaN => []
  | Int z => slice0 (Z.to_nat z) xs
  end.

(** [Number(url.searchParams.get("limit") || 200)]: [None] is an absent or
    empty parameter, [Some n] the number its text converts to. *)
Definition limitParamOf (limit : option JsNumber) : JsNumber :=
  match limit with
  | None => Int 200
  | Some n => n
  end.

(** The single-letter branch of [GET]. *)
Definition startsBranch (localeCompare : str -> str -> Z)
    (list : list Row) (Q : str) (limit : JsNumber) : Datatypes.list Row :=
  sliceTo limit
    (sortBy (fun a b => localeCompare (ticker a) (ticker b))
       (filter (fun r => startsWith Q (ticker r)
                         || startsWith Q (toUpperCase (name r))) list)).

(** The ranked branch of [GET]. *)
Definition rankedBranch (list : list Row) (q : str) (limit : JsNumber)
    : Datatypes.list Row :=
  map row
    (sliceTo limit
       (sortBy (fun a b => (s b - s a)%Z)
          (filter (fun x => (0 <? s x)%Z)
             (map (fun r => mkScored r (scoreRow q r)) list)))).

(** The body of [GET] once [loadIndex] has delivered [list]; [q] is the
    trimmed query. *)
Definition suggest (localeCompare : str -> str -> Z)
    (list : list Row) (q : str) (limit : JsNumber) : Datatypes.list Row :=
  let Q := toUpperCase q in
  if length Q =? 1 then startsBranch localeCompare list Q limit
  else rankedBranch list q limit.

Record Reply := mkReply { results : list Row; error : option str }.

Definition GET (localeCompare : str -> str -> Z) (env : KvRoutes.KvEnv)
    (net : Network) (qParam : option str) (limitParam : option JsNumber)
    : M Reply :=
  tryCatch
    (let q := trim (jsStringOrEmpty qParam) in
     let limit := clampLimit (limitParamOf limitParam) in
     if length q =? 0 then ret (mkReply [] None)
     else
       list <- KvRoutes.loadIndex env net ;;
       ret (mkReply (suggest localeCompare list q limit) None))
    (fun e => ret (mkReply [] (Some (orDefault e (lit "suggest_failed"))))).

(** Code-unit order, the order [localeCompare] yields on symbols made of
    upper-case letters and digits. *)
Fixpoint codeUnitCompare (a b : str) : Z :=
  match a, b with
  | [], [] => 0
  | [], _ :: _ => -1
  | _ :: _, [] => 1
  | x :: a', y :: b' =>
      if code x <? code y then -1
      else if code y <? code x then 1
      else codeUnitCompare a' b'
  end.

End Suggest.

(** ** JavaScript numbers *)

Module Num.

(** A [number] is a double. *)
Definition Number := spec_float.

Definition prec : Z := 53.
Definition emax : Z := 1024.

Definition NaN : Number := S754_nan.

(** The double of an integer literal such as [1_000_000_000]. *)
Definition ofInteger (z : Z) : Number := binary_normalize prec emax z 0 false.

(** The double nearest to [digits / 10^scale], ties to even: the value of
    a decimal numeral with [scale] digits behind the point. *)
Definition ofDecimal (digits : Z) (scale : nat) : Number :=
  match digits with
  | Zpos n =>
      SFdiv prec emax (S754_finite false n 0)
        (S754_finite false (Z.to_pos (10 ^ Z.of_nat scale)) 0)
  | _ => S754_zero false
  end.

(** [x * y] *)
Definition mul (x y : Number) : Number := SFmul prec emax x y.

(** [x > y] *)
Definition gt (x y : Number) : bool := SFltb y x.

(** [Number.isFinite(x)] *)
Definition isFinite (x : Number) : bool :=
  match x with
  | S754_zero _ | S754_finite _ _ _ => true
  | S754_infinity _ | S754_nan => false
  end.

End Num.

(** ** The filings route *)

Module Filings.

Fixpoint takeWhile (p : ascii -> bool) (s : str) : str :=
  match s with
  | [] => []
  | c :: s' => if p c then c :: takeWhile p s' else []
  end.

(** Scanning with a global regular expression ([text.match(re)] and the
    [re.exec] loop): [matchAt] tries the expression at the current
    position and yields what the match delivers and how many code units it
    spans; the scan resumes behind the match, or one position further when
    there is none. *)
Fixpoint scan {A} (matchAt : str -> option (A * nat)) (skip : nat)
    (text : str) : list A :=
  match text with
  | [] => []
  | _ :: text' =>
      match skip with
      | S k => scan matchAt k text'
      | O =>
          match matchAt text with
          | Some (a, n) => a :: scan matchAt (n - 1) text'
          | None => scan matchAt 0 text'
          end
      end
  end.

(** [text.replace(re, by)] for a global [re] *)
Fixpoint replaceAll (matchAt : str -> option nat) (by_ : str) (skip : nat)
    (text : str) : str :=
  match text with
  | [] => []
  | c :: text' =>
      match skip with
      | S k => replaceAll matchAt by_ k text'
      | O =>
          match matchAt text with
          | Some n => by_ ++ replaceAll matchAt by_ (n - 1) text'
          | None => c :: replaceAll matchAt by_ 0 text'
          end
      end
  end.

(** A literal under the [i] flag; yields the rest of the input. *)
Fixpoint litCI (p s : str) : option str :=
  match p, s with
  | [], _ => Some s
  | x :: p', y :: s' =>
      if Ascii.eqb (toUpper x) (toUpper y) then litCI p' s' else None
  | _ :: _, [] => None
  end.

(** [\d{k}\.\d{2}] at the start of [s] *)
Definition majorMinor (k : nat) (s : str) : bool :=
  let major := firstn k s in
  (length major =? k) && forallb isDigit major &&
  match skipn k s with
  | dot :: m1 :: m2 :: _ => isDot dot && isDigit m1 && isDigit m2
  | _ => false
  end.

(** [/Item\s+\d{1,2}\.\d{2}/i] at the start of [text] *)
Definition itemAt (text : str) : option (str * nat) :=
  match litCI (lit "Item") text with
  | None => None
  | Some s1 =>
      let ws := takeWhile isSpace s1 in
      let s2 := dropWhile isSpace s1 in
      if length ws =? 0 then None
      else
        let span k := 4 + length ws + k + 3 in
        if majorMinor 2 s2 then Some (firstn (span 2) text, span 2)
        else if majorMinor 1 s2 then Some (firstn (span 1) text, span 1)
        else None
  end.

Definition detectItems (text : str) : list str * list str :=
  let found := scan itemAt 0 text in
  let items := SetFrom found in
  let lower := SetFrom (map toLowerCase items) in
  let badges :=
    (if mem (lit "item 1.01") lower
     then [lit "Material Agreement (Item 1.01)"] else [])
    ++ (if mem (lit "item 5.02") lower
        then [lit "Executive Change (Item 5.02)"] else []) in
  (items, badges).

(** [(?:,[0-9]{3})*] at the start of [s]: the text it spans *)
Fixpoint thousands (s : str) : str :=
  match s with
  | comma :: d1 :: d2 :: d3 :: s' =>
      if Ascii.eqb comma ","%char && isDigit d1 && isDigit d2 && isDigit d3
      then comma :: d1 :: d2 :: d3 :: thousands s'
      else []
  | _ => []
  end.

(** [(?:\.[0-9]+)?] at the start of [s]: the text it spans *)
Definition fraction (s : str) : str :=
  match s with
  | dot :: s' =>
      if isDot dot then
        match takeWhile isDigit s' with
        | [] => []
        | ds => dot :: ds
        end
      else []
  | [] => []
  end.

(** [(million|billion|m|bn)?] under the [i] flag: the first alternative
    that matches, as it stands in the text *)
Definition unitWord (s : str) : option str :=
  let try w :=
    match litCI w s with
    | Some _ => Some (firstn (length w) s)
    | None => None
    end in
  match try (lit "million") with
  | Some u => Some u
  | None =>
      match try (lit "billion") with
      | Some u => Some u
      | None =>
          match try (lit "m") with
          | Some u => Some u
          | None => try (lit "bn")
          end
      end
  end.

(** The groups [m[1]] and [m[2]] of a match *)
Record Amount := mkAmount { number : str; unit_ : option str }.

(** [/\$?\s?([0-9]{1,3}(?:,[0-9]{3})*(?:\.[0-9]+)?)\s*(million|billion|m|bn)?/i]
    at the start of [text].  Everything behind the first digits may match
    empty, so each quantifier keeps its greedy choice. *)
Definition amountAt (text : str) : option (Amount * nat) :=
  let s0 :=
    match text with
    | c :: s' => if Ascii.eqb c "$"%char then s' else text
    | [] => text
    end in
  let s1 :=
    match s0 with
    | c :: s' => if isSpace c then s' else s0
    | [] => s0
    end in
  let lead := firstn 3 (takeWhile isDigit s1) in
  if length lead =? 0 then None
  else
    let s2 := skipn (length lead) s1 in
    let groups := thousands s2 in
    let s3 := skipn (length groups) s2 in
    let frac := fraction s3 in
    let s4 := skipn (length frac) s3 in
    let ws := takeWhile isSpace s4 in
    let s5 := dropWhile isSpace s4 in
    let u := unitWord s5 in
    let num := lead ++ groups ++ frac in
    Some (mkAmount num u,
          (length text - length s1) + length num + length ws
          + match u with Some w => length w | None => 0 end).

Definition digitsValue (ds : str) : Z :=
  fold_left (fun acc c => (acc * 10 + Z.of_nat (code c - 48))%Z) ds 0%Z.

(** [parseFloat(s)] on a decimal numeral: the double nearest to the numeral,
    [NaN] when [s] does not start with one. *)
Definition parseFloat (s : str) : Num.Number :=
  let whole := takeWhile isDigit s in
  let frac :=
    match skipn (length whole) s with
    | dot :: s' => if isDot dot then takeWhile isDigit s' else []
    | [] => []
    end in
  if length (whole ++ frac) =? 0 then Num.NaN
  else Num.ofDecimal (digitsValue (whole ++ frac)) (length frac).

(** The body of the [while] loop of [extractLargestAmount] *)
Definition amountStep (max : option Num.Number) (m : Amount)
    : option Num.Number :=
  let num0 := parseFloat (removeCommas (number m)) in
  let unit := toLowerCase (match unit_ m with Some u => u | None => [] end) in
  let num1 :=
    if str_eqb unit (lit "billion") || str_eqb unit (lit "bn")
    then Num.mul num0 (Num.ofInteger 1000000000) else num0 in
  let num :=
    if str_eqb unit (lit "million") || str_eqb unit (lit "m")
    then Num.mul num1 (Num.ofInteger 1000000) else num1 in
  if negb (Num.isFinite num) then max
  else
    match max with
    | None => Some num
    | Some mx => if Num.gt num mx then Some num else max
    end.

Definition extractLargestAmount (text : str) : option Num.Number :=
  fold_left amountStep (scan amountAt 0 text) None.

Definition isHtmlLike (url : str) : bool :=
  let u := toLowerCase url in
  endsWith (lit ".htm") u || endsWith (lit ".html") u
  || endsWith (lit ".txt") u.

(** [/<[^>]+>/] at the start of [text] *)
Definition tagAt (text : str) : option nat :=
  match text with
  | c :: s' =>
      if Ascii.eqb c "<"%char then
        let body := takeWhile (fun d => negb (Ascii.eqb d ">"%char)) s' in
        match body, skipn (length body) s' with
        | _ :: _, _ :: _ => Some (length body + 2)
        | _, _ => None
        end
      else None
  | [] => None
  end.

(** [raw.replace(/<[^>]+>/g, " ")] *)
Definition stripTags (raw : str) : str := replaceAll tagAt (lit " ") 0 raw.

(** The text of [parseInt(s, 10)] inside a template string, for values a
    double holds exactly. *)
Definition parseIntText (s : str) : str :=
  let t := trimStart s in
  let (neg, t1) :=
    match t with
    | c :: t' =>
        if Ascii.eqb c "-"%char then (true, t')
        else if Ascii.eqb c "+"%char then (false, t')
        else (false, t)
    | [] => (false, t)
    end in
  let ds := takeWhile isDigit t1 in
  match ds with
  | [] => lit "NaN"
  | _ =>
      match dropWhile (fun c => Ascii.eqb c "0"%char) ds with
      | [] => lit "0"
      | sig => if neg then "-"%char :: sig else sig
      end
  end.

Record Filing := mkFiling {
  f_cik : str;
  f_company : str;
  f_form : str;
  f_filed_at : option str;
  f_title : str;
  f_source_url : str;
  f_primary_doc_url : option str;
  f_items : list str;
  f_badges : list str;
  f_amount_usd : option Num.Number
}.

Definition OFFERING_FORMS : list str :=
  [lit "S-1"; lit "424B1"; lit "424B2"; lit "424B3"; lit "424B4"].

(** What the [try] block of the loop body assigns to [items], [badges] and
    [amount_usd] from the response [t] to the document fetch. *)
Definition mine (formCode : str) (t : Response)
    : M (list str * list str * option Num.Number) :=
  match t with
  | NetworkError e => throw e
  | Http false _ _ _ _ => ret ([], [], None)
  | Http true _ _ _ (Throw e) => throw e
  | Http true _ _ _ (Ok raw) =>
      let text := stripTags raw in
      let found :=
        if startsWith (lit "8-K") (toUpperCase formCode)
        then detectItems text else ([], []) in
      let amount :=
        if mem (toUpperCase formCode) OFFERING_FORMS
        then extractLargestAmount text else None in
      ret (fst found, snd found, amount)
  end.

Definition baseUrl (cikParam : str) (recent : Recent) (i : nat) : str :=
  let acc := option_map removeDashes (nth_error (accessionNumber recent) i) in
  lit "https://www.sec.gov/Archives/edgar/data/" ++ parseIntText cikParam
  ++ lit "/" ++ jsString acc.

Definition primaryUrl (cikParam : str) (recent : Recent) (i : nat)
    : option str :=
  match nth_error (primaryDocument recent) i with
  | Some (c :: primary) =>
      Some (baseUrl cikParam recent i ++ lit "/" ++ c :: primary)
  | _ => None
  end.

(** The record the loop body pushes for filing [i]. *)
Definition record (cikParam name : str) (recent : Recent) (i : nat)
    (mined : list str * list str * option Num.Number) : Filing :=
  let formCode := jsStringOrEmpty (nth_error (form recent) i) in
  let filed_at := nth_error (filingDate recent) i in
  mkFiling (zeroPadCIK cikParam) name formCode filed_at
    (name ++ lit " • " ++ formCode ++ lit " • " ++ jsString filed_at)
    (baseUrl cikParam recent i)
    (primaryUrl cikParam recent i)
    (fst (fst mined)) (snd (fst mined)) (snd mined).

(** One iteration of the [for] loop of [GET]. *)
Definition enrichOne (net : Network) (cikParam name : str) (recent : Recent)
    (i : nat) : M Filing :=
  let formCode := jsStringOrEmpty (nth_error (form recent) i) in
  mined <-
    match primaryUrl cikParam recent i with
    | Some url =>
        if isHtmlLike url
        then tryCatch (t <- fetch net url ;; mine formCode t)
                      (fun _ => ret ([], [], None))
        else ret ([], [], None)
    | None => ret ([], [], None)
    end ;;
  ret (record cikParam name recent i mined).

Fixpoint enrichLoop (net : Network) (cikParam name : str) (recent : Recent)
    (indices : list nat) : M (list Filing) :=
  match indices with
  | [] => ret []
  | i :: rest =>
      f <- enrichOne net cikParam name recent i ;;
      out <- enrichLoop net cikParam name recent rest ;;
      ret (f :: out)
  end.

Inductive Reply :=
| Listing (out : list Filing)
| Failed (status : nat) (error : str).

(** [data?.name || data?.entityType || "Company"] *)
Definition companyName (data : Json) : str :=
  match data with
  | JSubmissions (Some (c :: n)) _ _ => c :: n
  | JSubmissions _ (Some (c :: t)) _ => c :: t
  | JSparse (Some (c :: n)) _ _ => c :: n
  | JSparse _ (Some (c :: t)) _ => c :: t
  | _ => lit "Company"
  end.

Definition columnOr (column : option (list str)) : list str :=
  match column with Some cells => cells | None => [] end.

(** [data?.filings?.recent ?? {}] *)
Definition recentOf (data : Json) : Recent :=
  match data with
  | JSubmissions _ _ (Some recent) => recent
  | JSparse _ _ sparse =>
      mkRecent (s_accessionNumber sparse) (columnOr (s_form sparse))
        (columnOr (s_filingDate sparse)) (columnOr (s_primaryDocument sparse))
  | _ => mkRecent [] [] [] []
  end.

(** Whether [recent] lacks one of the columns [form], [filingDate] and
    [primaryDocument], which every pass of the loop indexes before it
    fetches anything. *)
Definition lacksColumn (data : Json) : bool :=
  match data with
  | JSparse _ _ sparse =>
      match s_form sparse, s_filingDate sparse, s_primaryDocument sparse with
      | Some _, Some _, Some _ => false
      | _, _, _ => true
      end
  | _ => false
  end.

(** The message of the [TypeError] that indexing a missing column raises
    (as V8 words it). *)
Definition TYPE_ERROR : str :=
  lit "Cannot read properties of undefined (reading '0')".

(** [GET].  With a column missing, the first pass of the loop throws where
    it reads [recent.form[i]], [recent.filingDate[i]] or
    [recent.primaryDocument[i]], before any document is fetched; without
    filings the loop is not entered. *)
Definition GET (net : Network) (cikParam : str) : M Reply :=
  tryCatch
    (let cik10 := zeroPadCIK cikParam in
     r <- fetch net (lit "https://data.sec.gov/submissions/CIK" ++ cik10
                     ++ lit ".json") ;;
     match r with
     | NetworkError e => throw e
     | Http false status _ _ _ =>
         ret (Failed 502 (lit "SEC fetch failed (" ++ status ++ lit ")"))
     | Http true _ _ (Throw e) _ => throw e
     | Http true _ _ (Ok data) _ =>
         let name := companyName data in
         let recent := recentOf data in
         let n := Nat.min 12 (length (accessionNumber recent)) in
         if lacksColumn data && (0 <? n) then throw TYPE_ERROR
         else
           out <- enrichLoop net cikParam name recent (seq 0 n) ;;
           ret (Listing out)
     end)
    (fun e => ret (Failed 500 (orDefault e (lit "Unexpected error")))).

End Filings.

(** ** The lookup route, key-value revision *)

Module KvLookup.

Definition tickerMatches (qPlainSet : list str) (x : Row) : bool :=
  let xs := map stripDotDash (KvRoutes.norms (ticker x)) in
  existsb (fun v => mem v qPlainSet) xs.

(** The body of [GET] once [loadIndex] has delivered [list]. *)
Definition resolve (list : list Row) (symbol : str) : Lookup.Reply :=
  let q := trim symbol in
  if length q =? 0 then Lookup.Failed 400 (lit "empty_query")
  else
    let numericHit :=
      if Lookup.isNumericQuery q
      then find (fun r => str_eqb (cik r) (pad10 q)) list
      else None in
    match numericHit with
    | Some hit => Lookup.Found hit
    | None =>
        let Q := toUpperCase q in
        let qPlainSet := SetFrom (map stripDotDash (KvRoutes.norms Q)) in
        match find (tickerMatches qPlainSet) list with
        | Some hit => Lookup.Found hit
        | None =>
            match find (fun x => startsWith Q (toUpperCase (name x))) list with
            | Some hit => Lookup.Found hit
            | None =>
                match find (fun x => includes Q (toUpperCase (name x))) list with
                | Some hit => Lookup.Found hit
                | None => Lookup.Failed 404 (lit "not_found")
                end
            end
        end
    end.

Definition GET (env : KvRoutes.KvEnv) (net : Network) (symbol : str)
    : M Lookup.Reply :=
  tryCatch
    (list <- KvRoutes.loadIndex env net ;; ret (resolve list symbol))
    (fun e => ret (Lookup.Failed 500 (orDefault e (lit "lookup_failed")))).

End KvLookup.

(** ** The first lookup route: one registry document, exact ticker or name *)

Module TickerList.

(** [loadTickerList]: one fetch without retry, cached for an hour. *)
Definition loadTickerList (net : Network) (now : Z) : M (list Row) :=
  fun s =>
    let load :=
      r <- fetch net SEC_TICKERS ;;
      match r with
      | NetworkError e => throw e
      | Http false status _ _ _ =>
          throw (lit "SEC ticker list failed (" ++ status ++ lit ")")
      | Http true _ _ (Throw e) _ => throw e
      | Http true _ _ (Ok j) _ =>
          let out := Lookup.primaryRows j in
          _ <- setCache out now ;;
          ret out
      end in
    match CACHE s with
    | Some rows =>
        if (now - LAST s <? 1000 * 60 * 60)%Z then (Ok rows, s) else load s
    | None => load s
    end.

(** The body of [GET] once [loadTickerList] has delivered [list]. *)
Definition lookup (list : list Row) (symbol : str) : Lookup.Reply :=
  let q := toUpperCase (trim symbol) in
  match find (fun x => str_eqb (ticker x) q) list with
  | Some hit => Lookup.Found hit
  | None =>
      match find (fun x => includes q (toUpperCase (name x))) list with
      | Some hit => Lookup.Found hit
      | None => Lookup.Failed 404 (lit "not_found")
      end
  end.

Definition GET (net : Network) (now : Z) (symbol : str) : M Lookup.Reply :=
  tryCatch
    (list <- loadTickerList net now ;; ret (lookup list symbol))
    (fun e => ret (Lookup.Failed 500 (orDefault e (lit "lookup_failed")))).

End TickerList.

(** ** The page *)

Module Page.

(** [/^\d{10}$/.test(v)] and [/^\d{1,9}$/.test(v)] *)
Definition isTenDigits (v : str) : bool :=
  (length v =? 10) && forallb isDigit v.
Definition isShortNumeric (v : str) : bool :=
  negb (length v =? 0) && (length v <=? 9) && forallb isDigit v.

(** [resolveCIKLocalOrNumeric]; [tickerMap] is the imported JSON file, a
    parameter here: [tickerMap v] is the string under the key [v]. *)
Definition resolveCIKLocalOrNumeric (tickerMap : str -> option str)
    (value : str) : option str :=
  let v := toUpperCase (trim value) in
  if length v =? 0 then None
  else if isTenDigits v then Some v
  else if isShortNumeric v then Some (padStart0 10 v)
  else
    match tickerMap v with
    | Some (c :: cik) => Some (c :: cik)
    | _ => None
    end.

(** The predicate of [filings.filter] in [filtered]. *)
Definition shown (show8K show10Q show10K showS1 : bool) (formCode : str)
    : bool :=
  let form := toUpperCase formCode in
  if startsWith (lit "8-K") form then show8K
  else if str_eqb form (lit "10-Q") then show10Q
  else if str_eqb form (lit "10-K") then show10K
  else if startsWith (lit "S-1") form || startsWith (lit "424B") form
  then showS1
  else true.

(** The updates of [activeIndex] in [onKeyDown]; [n] is
    [suggestions.length]. *)
Definition arrowDown (n : nat) (prev : Z) : Z :=
  let max := (Z.of_nat n - 1)%Z in
  if (max <? 0)%Z then (-1)%Z
  else if (prev <? max)%Z then (prev + 1)%Z else 0%Z.

Definition arrowUp (n : nat) (prev : Z) : Z :=
  let max := (Z.of_nat n - 1)%Z in
  if (max <? 0)%Z then (-1)%Z
  else if (prev <=? 0)%Z then max else (prev - 1)%Z.

End Page.

(* ================================================================== *)
(** * Part II: properties *)
(* ================================================================== *)

(** ** Canonical-id padding *)

Lemma padStart0_length n s : length (padStart0 n s) = Nat.max n (length s).
Proof.
  unfold padStart0. rewrite length_app, repeat_length. lia.
Qed.



Example pad10_short : pad10 (lit "320193") = lit "0000320193".
Proof. reflexivity. Qed.

Example pad10_long : pad10 (lit "CIK 12345678901") = lit "12345678901".
Proof. reflexivity. Qed.

Example zeroPadCIK_raw : zeroPadCIK (lit "12ab") = lit "00000012ab".
Proof. reflexivity. Qed.

(** ** Strings and sets *)

Lemma str_eqb_eq (a b : str) : str_eqb a b = true <-> a = b.
Proof.
  revert b. induction a as [|x a IH]; intros [|y b]; simpl; split; intro H;
    try reflexivity; try discriminate.
  - apply andb_true_iff in H. destruct H as [H1 H2].
    apply Ascii.eqb_eq in H1. apply IH in H2. now subst.
  - injection H as -> ->. apply andb_true_iff. split.
    + apply Ascii.eqb_refl.
    + now apply IH.
Qed.

Lemma str_eqb_refl (a : str) : str_eqb a a = true.
Proof. now apply str_eqb_eq. Qed.

Lemma str_eqb_neq (a b : str) : str_eqb a b = false <-> a <> b.
Proof.
  split.
  - intros H E. apply str_eqb_eq in E. congruence.
  - intro H. destruct (str_eqb a b) eqn:E; [|reflexivity].
    apply str_eqb_eq in E. contradiction.
Qed.

Lemma str_eqb_sym (a b : str) : str_eqb a b = str_eqb b a.
Proof.
  destruct (str_eqb a b) eqn:E.
  - apply str_eqb_eq in E. subst. symmetry. apply str_eqb_refl.
  - apply str_eqb_neq in E. symmetry. apply str_eqb_neq. congruence.
Qed.

Lemma mem_In (x : str) (xs : list str) : mem x xs = true <-> In x xs.
Proof.
  unfold mem. rewrite existsb_exists. split.
  - intros [y [Hy E]]. apply str_eqb_eq in E. now subst.
  - intro H. exists x. split; [assumption | apply str_eqb_refl].
Qed.

Section SetFromFacts.

Let add (seen : list str) (x : str) : list str :=
  if mem x seen then seen else seen ++ [x].

Lemma SetFrom_fold_In (xs seen : list str) (y : str) :
  In y (fold_left add xs seen) <-> In y seen \/ In y xs.
Proof.
  revert seen. induction xs as [|x xs IH]; intro seen; simpl.
  - tauto.
  - rewrite IH. unfold add. destruct (mem x seen) eqn:E.
    + apply mem_In in E. split; [tauto|].
      intros [H|[H|H]]; subst; tauto.
    + rewrite in_app_iff. simpl. tauto.
Qed.

Lemma SetFrom_fold_NoDup (xs seen : list str) :
  NoDup seen -> NoDup (fold_left add xs seen).
Proof.
  revert seen. induction xs as [|x xs IH]; intros seen H; simpl.
  - assumption.
  - apply IH. unfold add. destruct (mem x seen) eqn:E; [assumption|].
    apply NoDup_app; [assumption | repeat constructor; intros [] |].
    intros a Ha [<-|[]].
    apply mem_In in Ha. congruence.
Qed.

End SetFromFacts.

Lemma SetFrom_In (xs : list str) (y : str) : In y (SetFrom xs) <-> In y xs.
Proof.
  unfold SetFrom. rewrite SetFrom_fold_In. simpl. tauto.
Qed.

Lemma SetFrom_NoDup (xs : list str) : NoDup (SetFrom xs).
Proof. unfold SetFrom. apply SetFrom_fold_NoDup. constructor. Qed.

Lemma mem_SetFrom (x : str) (xs : list str) : mem x (SetFrom xs) = mem x xs.
Proof.
  apply eq_true_iff_eq. rewrite !mem_In. apply SetFrom_In.
Qed.

(** ** Plain keys *)

(** The plain key of a symbol: upper-cased, trimmed, dots and dashes
    removed. *)
Definition plainKey (sym : str) : str := stripDotDash (trim (toUpperCase sym)).

Lemma stripDotDash_idem (u : str) : stripDotDash (stripDotDash u) = stripDotDash u.
Proof.
  unfold stripDotDash. induction u as [|c u IH]; simpl; [reflexivity|].
  destruct (negb (isDot c || isDash c)) eqn:E; simpl; rewrite ?E, IH; reflexivity.
Qed.

Lemma stripDotDash_removeDots (u : str) :
  stripDotDash (removeDots u) = stripDotDash u.
Proof.
  unfold stripDotDash, removeDots. induction u as [|c u IH]; simpl; [reflexivity|].
  destruct (isDot c) eqn:E; simpl; rewrite ?E; simpl; rewrite IH; reflexivity.
Qed.

Lemma stripDotDash_dotsToDashes (u : str) :
  stripDotDash (dotsToDashes u) = stripDotDash u.
Proof.
  unfold stripDotDash, dotsToDashes. induction u as [|c u IH]; simpl; [reflexivity|].
  destruct (isDot c) eqn:E; simpl; rewrite ?E; simpl; rewrite IH; reflexivity.
Qed.

(** Every variant of a symbol has the plain key of the symbol, whichever
    revision of [norms] lists them. *)
Lemma variant_plain (u v : str) :
  In v [u; removeDots u; dotsToDashes u; stripDotDash u] ->
  stripDotDash v = stripDotDash u.
Proof.
  simpl. intros [<-|[<-|[<-|[<-|[]]]]].
  - reflexivity.
  - apply stripDotDash_removeDots.
  - apply stripDotDash_dotsToDashes.
  - apply stripDotDash_idem.
Qed.

Lemma Lookup_norms_spec (sym v : str) :
  In v (Lookup.norms sym) <->
  In v (let u := trim (toUpperCase sym) in
        [u; removeDots u; dotsToDashes u; stripDotDash u]).
Proof.
  unfold Lookup.norms. rewrite SetFrom_In. simpl. tauto.
Qed.

Lemma KvRoutes_norms_spec (sym v : str) :
  In v (KvRoutes.norms sym) <->
  In v (let u := trim (toUpperCase sym) in
        [u; removeDots u; dotsToDashes u; stripDotDash u]).
Proof.
  unfold KvRoutes.norms. rewrite SetFrom_In. simpl. tauto.
Qed.

Lemma Lookup_norms_plain (sym v : str) :
  In v (Lookup.norms sym) -> stripDotDash v = plainKey sym.
Proof. intro H. apply Lookup_norms_spec in H. now apply variant_plain. Qed.

Lemma KvRoutes_norms_plain (sym v : str) :
  In v (KvRoutes.norms sym) -> stripDotDash v = plainKey sym.
Proof. intro H. apply KvRoutes_norms_spec in H. now apply variant_plain. Qed.

Lemma Lookup_norms_upper (sym : str) :
  In (trim (toUpperCase sym)) (Lookup.norms sym).
Proof. apply Lookup_norms_spec. simpl. now left. Qed.

Lemma KvRoutes_norms_upper (sym : str) :
  In (trim (toUpperCase sym)) (KvRoutes.norms sym).
Proof. apply KvRoutes_norms_spec. simpl. now left. Qed.

(** ** The insertion-ordered map *)

Lemma MapHas_MapGet (m : RowMap) (k : str) :
  MapHas m k = true <-> MapGet m k <> None.
Proof.
  induction m as [|[k0 r0] m IH]; simpl.
  - split; [discriminate | congruence].
  - destruct (str_eqb k k0); simpl.
    + split; [discriminate | reflexivity].
    + exact IH.
Qed.

Lemma MapGet_MapSet (m : RowMap) (k k' : str) (r : Row) :
  MapGet (MapSet m k r) k' = if str_eqb k' k then Some r else MapGet m k'.
Proof.
  induction m as [|[k0 r0] m IH]; simpl.
  - reflexivity.
  - destruct (str_eqb k k0) eqn:E; simpl.
    + apply str_eqb_eq in E. subst k0. destruct (str_eqb k' k); reflexivity.
    + rewrite IH. destruct (str_eqb k' k0) eqn:E0; [|reflexivity].
      apply str_eqb_eq in E0. subst k0.
      rewrite str_eqb_sym, E. reflexivity.
Qed.

Lemma MapSet_fresh (m : RowMap) (k : str) (r : Row) :
  MapHas m k = false -> MapSet m k r = m ++ [(k, r)].
Proof.
  induction m as [|[k0 r0] m IH]; simpl; [reflexivity|].
  destruct (str_eqb k k0); simpl; [discriminate|].
  intro H. now rewrite IH.
Qed.

(** A map is well keyed when every entry sits under the plain key of its
    row's symbol and no key occurs twice. *)
Definition wellKeyed (m : RowMap) : Prop :=
  NoDup (map fst m) /\ forall k r, In (k, r) m -> k = plainKey (ticker r).

Lemma MapGet_In (m : RowMap) (k : str) (r : Row) :
  MapGet m k = Some r -> In (k, r) m.
Proof.
  induction m as [|[k0 r0] m IH]; simpl; [discriminate|].
  destruct (str_eqb k k0) eqn:E.
  - apply str_eqb_eq in E. intros [= ->]. subst. now left.
  - intro H. right. now apply IH.
Qed.

Lemma In_MapGet (m : RowMap) (k : str) (r : Row) :
  NoDup (map fst m) -> In (k, r) m -> MapGet m k = Some r.
Proof.
  induction m as [|[k0 r0] m IH]; simpl; [intros _ []|].
  intros ND [E|H].
  - injection E as -> ->. now rewrite str_eqb_refl.
  - inversion ND as [|? ? Hn ND']; subst.
    destruct (str_eqb k k0) eqn:E.
    + apply str_eqb_eq in E. subst k0. exfalso. apply Hn.
      apply in_map_iff. now exists (k, r).
    + now apply IH.
Qed.

(** *** One [push] *)

Section Push.

(** The two revisions of [norms] differ in the order of the variants
    only; what [push] needs is shared. *)
Variable norms : str -> list str.
Hypothesis norms_plain :
  forall sym v, In v (norms sym) -> stripDotDash v = plainKey sym.
Hypothesis norms_upper :
  forall sym, In (trim (toUpperCase sym)) (norms sym).

Definition pushWith (byPlain : RowMap) (r : Row) : RowMap :=
  fold_left
    (fun m n =>
       let key := stripDotDash n in
       if MapHas m key then m else MapSet m key r)
    (norms (ticker r)) byPlain.

Definition claim (m : RowMap) (k : str) (r : Row) : RowMap :=
  if MapHas m k then m else m ++ [(k, r)].

Lemma step_claim (m : RowMap) (k : str) (r : Row) :
  (if MapHas m k then m else MapSet m k r) = claim m k r.
Proof.
  unfold claim. destruct (MapHas m k) eqn:E;
    [reflexivity | now apply MapSet_fresh].
Qed.

Lemma claim_twice (m : RowMap) (k : str) (r : Row) :
  claim (claim m k r) k r = claim m k r.
Proof.
  unfold claim. destruct (MapHas m k) eqn:E.
  - now rewrite E.
  - assert (H : MapHas (m ++ [(k, r)]) k = true).
    { unfold MapHas. rewrite existsb_app. simpl.
      rewrite str_eqb_refl. apply orb_true_iff. right. reflexivity. }
    now rewrite H.
Qed.

Lemma push_fold_claim (vs : list str) (m : RowMap) (k : str) (r : Row) :
  (forall v, In v vs -> stripDotDash v = k) ->
  fold_left
    (fun m n =>
       let key := stripDotDash n in
       if MapHas m key then m else MapSet m key r) vs (claim m k r)
  = claim m k r.
Proof.
  revert m. induction vs as [|v vs IH]; intros m H; simpl; [reflexivity|].
  rewrite (H v (or_introl eq_refl)).
  rewrite step_claim, claim_twice. apply IH. intros w Hw. apply H. now right.
Qed.

(** All variants of a row share one key, so a push claims at most that
    key, and only when nobody holds it. *)
Lemma pushWith_claim (m : RowMap) (r : Row) :
  pushWith m r = claim m (plainKey (ticker r)) r.
Proof.
  unfold pushWith.
  pose proof (norms_upper (ticker r)) as Hin.
  pose proof (norms_plain (sym := ticker r)) as Hp.
  destruct (norms (ticker r)) as [|v vs]; [destruct Hin|]. simpl.
  rewrite (Hp v (or_introl eq_refl)).
  rewrite step_claim. apply push_fold_claim. intros w Hw. apply Hp. now right.
Qed.

Definition claims (k : str) (r : Row) : bool :=
  str_eqb (plainKey (ticker r)) k.

Lemma MapGet_claim (m : RowMap) (k k' : str) (r : Row) :
  MapGet (claim m k r) k' =
  match MapGet m k' with
  | Some r0 => Some r0
  | None => if str_eqb k k' then Some r else None
  end.
Proof.
  unfold claim. destruct (MapHas m k) eqn:E.
  - destruct (MapGet m k') eqn:G; [reflexivity|].
    destruct (str_eqb k k') eqn:E'; [|reflexivity].
    apply str_eqb_eq in E'. subst k'.
    apply MapHas_MapGet in E. contradiction.
  - rewrite <- MapSet_fresh by assumption. rewrite MapGet_MapSet.
    rewrite (str_eqb_sym k' k).
    destruct (str_eqb k k') eqn:E'; [|now destruct (MapGet m k')].
    apply str_eqb_eq in E'. subst k'.
    destruct (MapGet m k) eqn:G; [|reflexivity].
    exfalso. assert (X : MapHas m k = true) by (apply MapHas_MapGet; congruence).
    congruence.
Qed.

(** The entry of a key after a run of pushes: whoever held it before,
    else the first pushed row that claims it. *)
Lemma MapGet_pushes (rows : list Row) (m : RowMap) (k : str) :
  MapGet (fold_left pushWith rows m) k =
  match MapGet m k with
  | Some r0 => Some r0
  | None => find (claims k) rows
  end.
Proof.
  revert m. induction rows as [|r rows IH]; intro m; simpl.
  - now destruct (MapGet m k).
  - rewrite IH, pushWith_claim, MapGet_claim. unfold claims at 2.
    destruct (MapGet m k); [reflexivity|].
    now destruct (str_eqb (plainKey (ticker r)) k).
Qed.

Lemma wellKeyed_claim (m : RowMap) (r : Row) :
  wellKeyed m -> wellKeyed (claim m (plainKey (ticker r)) r).
Proof.
  intros [ND K]. unfold claim.
  destruct (MapHas m (plainKey (ticker r))) eqn:E; [now split|].
  split.
  - rewrite map_app. simpl. apply NoDup_app; [assumption| |].
    + repeat constructor. intros [].
    + intros a Ha [<-|[]].
      apply in_map_iff in Ha. destruct Ha as [[k0 r0] [E0 Hin]].
      simpl in E0. subst k0.
      assert (X : MapHas m (plainKey (ticker r)) = true).
      { apply MapHas_MapGet. rewrite (In_MapGet ND Hin). discriminate. }
      congruence.
  - intros k r0 Hin. apply in_app_iff in Hin. destruct Hin as [Hin|[Hin|[]]].
    + now apply K.
    + now injection Hin as <- <-.
Qed.

Lemma wellKeyed_pushes (rows : list Row) (m : RowMap) :
  wellKeyed m -> wellKeyed (fold_left pushWith rows m).
Proof.
  revert m. induction rows as [|r rows IH]; intros m H; simpl; [assumption|].
  apply IH. rewrite pushWith_claim. now apply wellKeyed_claim.
Qed.

Definition mergeWith (arr1 arr2 : list Row) : RowMap :=
  fold_left pushWith arr1 (fold_left pushWith arr2 []).

Lemma wellKeyed_merge (arr1 arr2 : list Row) : wellKeyed (mergeWith arr1 arr2).
Proof.
  unfold mergeWith. apply wellKeyed_pushes, wellKeyed_pushes.
  split; [constructor | intros k r []].
Qed.

(** The entry of a key in the merged map is the first secondary row that
    claims it, and a primary row only when no secondary row does. *)
Lemma MapGet_merge (arr1 arr2 : list Row) (k : str) :
  MapGet (mergeWith arr1 arr2) k =
  match find (claims k) arr2 with
  | Some r => Some r
  | None => find (claims k) arr1
  end.
Proof.
  unfold mergeWith. rewrite !MapGet_pushes. simpl. reflexivity.
Qed.

Lemma merge_secondary (arr1 arr2 : list Row) (r2 : Row) (k : str) :
  In r2 arr2 -> plainKey (ticker r2) = k ->
  exists r,
    MapGet (mergeWith arr1 arr2) k = Some r
    /\ find (claims k) arr2 = Some r
    /\ In r arr2
    /\ plainKey (ticker r) = k
    /\ In r (MapValues (mergeWith arr1 arr2))
    /\ (forall x, In x (MapValues (mergeWith arr1 arr2)) ->
                  plainKey (ticker x) = k -> x = r)
    /\ ((forall x, In x arr2 -> plainKey (ticker x) = k -> x = r2) -> r = r2).
Proof.
  intros Hin Hk.
  destruct (find (claims k) arr2) as [r|] eqn:F.
  - destruct (find_some _ _ F) as [Hr Hc]. unfold claims in Hc.
    apply str_eqb_eq in Hc.
    assert (G : MapGet (mergeWith arr1 arr2) k = Some r)
      by (rewrite MapGet_merge, F; reflexivity).
    destruct (wellKeyed_merge arr1 arr2) as [ND K].
    exists r. repeat split; try assumption.
    + unfold MapValues. apply in_map_iff. exists (k, r). split; [reflexivity|].
      now apply MapGet_In.
    + intros x Hx Hxk. unfold MapValues in Hx. apply in_map_iff in Hx.
      destruct Hx as [[k0 x0] [E Hx]]. simpl in E. subst x0.
      pose proof (K _ _ Hx) as Ek. rewrite Hxk in Ek. subst k0.
      pose proof (In_MapGet ND Hx) as G'. congruence.
    + intro U. now apply U.
  - exfalso. apply (find_none _ _ F) in Hin. unfold claims in Hin.
    rewrite Hk, str_eqb_refl in Hin. discriminate.
Qed.

End Push.

Lemma Lookup_mergeRows_eq (arr1 arr2 : list Row) :
  Lookup.mergeRows arr1 arr2 = mergeWith Lookup.norms arr1 arr2.
Proof. reflexivity. Qed.

Lemma KvRoutes_mergeRows_eq (arr1 arr2 : list Row) :
  KvRoutes.mergeRows arr1 arr2 = mergeWith KvRoutes.norms arr1 arr2.
Proof. reflexivity. Qed.

(** ** Merge precedence *)

(** C1.  When a primary row [r1] and a secondary row [r2] have the same plain
    key [k] and different canonical ids, the entry of [k] in the merged map
    (of both revisions of the builder) is a row of the secondary source: the
    first secondary row with that key.  It is the only row of the built list
    with key [k]; and when [r2] is the one secondary row with key [k], the
    entry is [r2] and the primary row [r1] is not in the built list. *)
Theorem merge_precedence_secondary_wins :
  forall (arr1 arr2 : list Row) (r1 r2 : Row) (k : str),
    In r1 arr1 -> In r2 arr2 ->
    plainKey (ticker r1) = k -> plainKey (ticker r2) = k ->
    cik r1 <> cik r2 ->
    exists r,
      MapGet (Lookup.mergeRows arr1 arr2) k = Some r
      /\ MapGet (KvRoutes.mergeRows arr1 arr2) k = Some r
      /\ In r arr2
      /\ plainKey (ticker r) = k
      /\ find (fun x => str_eqb (plainKey (ticker x)) k) arr2 = Some r
      /\ In r (MapValues (Lookup.mergeRows arr1 arr2))
      /\ (forall x, In x (MapValues (Lookup.mergeRows arr1 arr2)) ->
                    plainKey (ticker x) = k -> x = r)
      /\ ((forall x, In x arr2 -> plainKey (ticker x) = k -> x = r2) ->
          r = r2 /\ ~ In r1 (MapValues (Lookup.mergeRows arr1 arr2))).
Proof.
  intros arr1 arr2 r1 r2 k H1 H2 K1 K2 D.
  rewrite Lookup_mergeRows_eq, KvRoutes_mergeRows_eq.
  destruct (merge_secondary Lookup_norms_plain Lookup_norms_upper arr1 H2 K2)
    as [r [G [F [Hin [Hk [Hv [Hu Hone]]]]]]].
  destruct (merge_secondary KvRoutes_norms_plain KvRoutes_norms_upper arr1 H2 K2)
    as [r' [G' [F' _]]].
  assert (r' = r) by (unfold claims in F, F'; congruence). subst r'.
  exists r. repeat split; try assumption.
  - now apply Hone.
  - intro Hr1. assert (E : r = r2) by now apply Hone.
    apply (Hu r1 Hr1) in K1. subst. contradiction.
Qed.

Definition brk_primary : Row :=
  mkRow (lit "BRK.B") (lit "0000000001") (lit "Berkshire (primary)").
Definition brk_secondary : Row :=
  mkRow (lit "BRK-B") (lit "0001067983") (lit "Berkshire (secondary)").

Lemma merge_precedence_witness :
  exists r,
    MapGet (Lookup.mergeRows [brk_primary] [brk_secondary]) (lit "BRKB") = Some r
    /\ r = brk_secondary.
Proof.
  destruct (@merge_precedence_secondary_wins
              [brk_primary] [brk_secondary] brk_primary brk_secondary (lit "BRKB"))
    as [r [G [_ [_ [_ [_ [_ [_ U]]]]]]]].
  - simpl. left. reflexivity.
  - simpl. left. reflexivity.
  - reflexivity.
  - reflexivity.
  - discriminate.
  - exists r. split; [exact G|].
    apply U. intros x [<-|[]] _. reflexivity.
Defined.

(** ** The resilient fetcher *)

(** The process state after one more effect. *)
Definition after (e : Event) (s : Proc) : Proc :=
  mkProc (CACHE s) (LAST s) (e :: trace s).

(** A computation only adds effects: it leaves [CACHE] and [LAST] alone and
    extends the trace. *)
Definition extends (s s' : Proc) : Prop :=
  CACHE s' = CACHE s /\ LAST s' = LAST s
  /\ exists evs, trace s' = evs ++ trace s.

Lemma extends_refl (s : Proc) : extends s s.
Proof. repeat split. now exists []. Qed.

Lemma extends_trans (s1 s2 s3 : Proc) :
  extends s1 s2 -> extends s2 s3 -> extends s1 s3.
Proof.
  intros [C1 [L1 [e1 T1]]] [C2 [L2 [e2 T2]]]. repeat split; try congruence.
  exists (e2 ++ e1). rewrite T2, T1. now rewrite app_assoc.
Qed.

Lemma extends_after (e : Event) (s : Proc) : extends s (after e s).
Proof. repeat split. now exists [e]. Qed.

Lemma extends_length (s s' : Proc) :
  extends s s' -> length (trace s) <= length (trace s').
Proof. intros [_ [_ [evs ->]]]. rewrite length_app. lia. Qed.

Lemma fetch_run (net : Network) (url : str) (s : Proc) :
  fetch net url s = (Ok (net (fetchCount s) url), after (EvFetch url) s).
Proof. reflexivity. Qed.

Lemma fetchCount_after_fetch (url : str) (s : Proc) :
  fetchCount (after (EvFetch url) s) = S (fetchCount s).
Proof. reflexivity. Qed.

Lemma fetchCount_after_sleep (ms : Z) (s : Proc) :
  fetchCount (after (EvSleep ms) s) = fetchCount s.
Proof. reflexivity. Qed.

(** One iteration of the loop of [fetchJSON], in both revisions: a
    successful attempt returns, a failed one sleeps, doubles the delay and
    goes on with one attempt less. *)
Lemma Lookup_fetchLoop_step (net : Network) (url : str) (n : nat) (delay : Z)
    (err : option str) (s : Proc) :
  Lookup.fetchLoop net url (S n) delay err s =
  match Lookup.attempt (net (fetchCount s) url) with
  | Ok j => (Ok j, after (EvFetch url) s)
  | Throw e =>
      Lookup.fetchLoop net url n (delay * 2) (Some e)
        (after (EvSleep delay) (after (EvFetch url) s))
  end.
Proof.
  simpl. unfold bind. rewrite fetch_run.
  destruct (Lookup.attempt (net (fetchCount s) url)); reflexivity.
Qed.

Lemma KvRoutes_fetchLoop_step (net : Network) (url : str) (n : nat) (delay : Z)
    (s : Proc) :
  KvRoutes.fetchLoop net url (S n) delay s =
  match KvRoutes.attempt (net (fetchCount s) url) with
  | Ok j => (Ok j, after (EvFetch url) s)
  | Throw e =>
      KvRoutes.fetchLoop net url n (delay * 2)
        (after (EvSleep delay) (after (EvFetch url) s))
  end.
Proof.
  simpl. unfold bind. rewrite fetch_run.
  destruct (KvRoutes.attempt (net (fetchCount s) url)); reflexivity.
Qed.

Lemma Lookup_fetchLoop_extends (net : Network) (url : str) (n : nat)
    (delay : Z) (err : option str) (s : Proc) :
  extends s (snd (Lookup.fetchLoop net url n delay err s))
  /\ (0 < n ->
      length (trace s) < length (trace (snd (Lookup.fetchLoop net url n delay err s)))).
Proof.
  revert delay err s. induction n as [|n IH]; intros delay err s.
  - split; [apply extends_refl | lia].
  - rewrite Lookup_fetchLoop_step.
    destruct (Lookup.attempt (net (fetchCount s) url)) as [j|e].
    + split; [apply extends_after | simpl; lia].
    + destruct (IH (delay * 2)%Z (Some e)
                   (after (EvSleep delay) (after (EvFetch url) s))) as [E _].
      split.
      * eapply extends_trans; [|exact E].
        eapply extends_trans; apply extends_after.
      * intros _. apply extends_length in E. simpl in E. lia.
Qed.

Lemma KvRoutes_fetchLoop_extends (net : Network) (url : str) (n : nat)
    (delay : Z) (s : Proc) :
  extends s (snd (KvRoutes.fetchLoop net url n delay s)).
Proof.
  revert delay s. induction n as [|n IH]; intros delay s.
  - apply extends_refl.
  - rewrite KvRoutes_fetchLoop_step.
    destruct (KvRoutes.attempt (net (fetchCount s) url)) as [j|e].
    + apply extends_after.
    + eapply extends_trans; [|apply IH].
      eapply extends_trans; apply extends_after.
Qed.

(** The statement that a parse failure of a successful response ends the
    call at once. *)
Definition parse_failure_is_terminal : Prop :=
  forall (net : Network) (url : str) (s : Proc) status statusText msg text,
    net (fetchCount s) url = Http true status statusText (Throw msg) text ->
    exists e,
      Lookup.fetchJSON net url s = (Throw e, after (EvFetch url) s).

(** A registry that answers its first request with a body that is not
    JSON and every later one with an empty array. *)
Definition garbled_once : Network :=
  fun n _ =>
    match n with
    | O => Http true (lit "200") (lit "OK")
                (Throw (lit "Unexpected token < in JSON")) (Ok (lit "<html>"))
    | S _ => Http true (lit "200") (lit "OK") (Ok (JArray [])) (Ok (lit "[]"))
    end.

Example fetchJSON_garbled_once :
  Lookup.fetchJSON garbled_once SEC_TICKERS initial
  = (Ok (JArray []),
     mkProc None 0%Z [EvFetch SEC_TICKERS; EvSleep 200; EvFetch SEC_TICKERS])
  /\ KvRoutes.fetchJSON garbled_once SEC_TICKERS initial
  = (Ok (JArray []),
     mkProc None 0%Z [EvFetch SEC_TICKERS; EvSleep 200; EvFetch SEC_TICKERS]).
Proof. split; reflexivity. Qed.

(** C4, as stated, fails: after an unparsable body of a successful response
    the fetcher sleeps 200 ms, asks again and returns the second answer. *)
Lemma parse_failure_is_retried : ~ parse_failure_is_terminal.
Proof.
  intro H.
  destruct (H garbled_once SEC_TICKERS initial (lit "200") (lit "OK")
              (lit "Unexpected token < in JSON") (Ok (lit "<html>")) eq_refl)
    as [e E].
  destruct fetchJSON_garbled_once as [E' _].
  rewrite E' in E. discriminate.
Qed.

(** C4, amended.  A successful response whose body does not parse counts as
    a failed attempt like any other: with attempts left the fetcher sleeps
    for the current delay, doubles it and fetches again; the failure ends
    the call, with the parser's error, only when it is the last of the four
    attempts.  So a parse failure on the first attempt followed by a good
    answer yields that answer after two fetches. *)
Theorem parse_failure_consumes_one_attempt :
  forall (net : Network) (url : str) (s : Proc) status statusText msg text,
    net (fetchCount s) url = Http true status statusText (Throw msg) text ->
    let s1 := after (EvSleep 200) (after (EvFetch url) s) in
    Lookup.fetchJSON net url s = Lookup.fetchLoop net url 3 400%Z (Some msg) s1
    /\ KvRoutes.fetchJSON net url s = KvRoutes.fetchLoop net url 3 400%Z s1
    /\ (forall j, Lookup.attempt (net (S (fetchCount s)) url) = Ok j ->
          Lookup.fetchJSON net url s = (Ok j, after (EvFetch url) s1))
    /\ (forall n delay err,
          Lookup.fetchLoop net url (S n) delay err s
          = Lookup.fetchLoop net url n (delay * 2)%Z (Some msg)
              (after (EvSleep delay) (after (EvFetch url) s)))
    /\ (forall delay err,
          Lookup.fetchLoop net url 1 delay err s
          = (Throw msg, after (EvSleep delay) (after (EvFetch url) s))).
Proof.
  intros net url s status statusText msg text H s1.
  assert (A : Lookup.attempt (net (fetchCount s) url) = Throw msg)
    by (rewrite H; reflexivity).
  assert (A' : KvRoutes.attempt (net (fetchCount s) url) = Throw msg)
    by (rewrite H; reflexivity).
  assert (Step : forall n delay err,
            Lookup.fetchLoop net url (S n) delay err s
            = Lookup.fetchLoop net url n (delay * 2)%Z (Some msg)
                (after (EvSleep delay) (after (EvFetch url) s))).
  { intros n delay err. rewrite Lookup_fetchLoop_step, A. reflexivity. }
  repeat split.
  - unfold Lookup.fetchJSON. apply Step.
  - unfold KvRoutes.fetchJSON. rewrite KvRoutes_fetchLoop_step, A'. reflexivity.
  - intros j Hj. unfold Lookup.fetchJSON. rewrite Step.
    change (200 * 2)%Z with 400%Z. fold s1.
    rewrite Lookup_fetchLoop_step.
    assert (C : fetchCount s1 = S (fetchCount s)) by reflexivity.
    rewrite C, Hj. reflexivity.
  - exact Step.
  - intros delay err. rewrite Step. reflexivity.
Qed.

Lemma parse_failure_consumes_one_attempt_witness :
  Lookup.fetchJSON garbled_once SEC_TICKERS initial
  = Lookup.fetchLoop garbled_once SEC_TICKERS 3 400%Z
      (Some (lit "Unexpected token < in JSON"))
      (after (EvSleep 200) (after (EvFetch SEC_TICKERS) initial)).
Proof.
  apply (@parse_failure_consumes_one_attempt garbled_once SEC_TICKERS initial
           (lit "200") (lit "OK") (lit "Unexpected token < in JSON")
           (Ok (lit "<html>"))).
  reflexivity.
Defined.

(** ** The index cache *)

(** What a call of [loadAll] does with the outcome of one run of the
    Builder: a built list is stored with the clock reading of the call, a
    failure leaves the cache as it was. *)
Definition stored (now : Z) (b : result (list Row) * Proc)
    : result (list Row) * Proc :=
  match b with
  | (Ok rows, s1) => (Ok rows, mkProc (Some rows) now (trace s1))
  | (Throw e, s1) => (Throw e, s1)
  end.

Lemma loadAll_rebuild (net : Network) (now : Z) (s : Proc) :
  (rows' <- Lookup.build net ;; _ <- setCache rows' now ;; ret rows') s
  = stored now (Lookup.build net s).
Proof.
  unfold bind, stored. destruct (Lookup.build net s) as [[rows|e] s1]; reflexivity.
Qed.

(** The Builder starts with a fetch of the primary registry document, so a
    run of it always shows in the trace. *)
Lemma build_fetches (net : Network) (s : Proc) :
  length (trace s) < length (trace (snd (Lookup.build net s))).
Proof.
  pose proof (Lookup_fetchLoop_extends net SEC_TICKERS 4 200%Z None s) as [_ L1].
  specialize (L1 ltac:(lia)).
  unfold Lookup.build, bind at 1.
  change (Lookup.fetchJSON net SEC_TICKERS s)
    with (Lookup.fetchLoop net SEC_TICKERS 4 200%Z None s).
  destruct (Lookup.fetchLoop net SEC_TICKERS 4 200%Z None s) as [[j1|e1] s1];
    cbn [snd] in *; [|exact L1].
  pose proof (Lookup_fetchLoop_extends net SEC_TICKERS_EXCHANGE 4 200%Z None s1)
    as [E2 _].
  apply extends_length in E2.
  unfold bind, tryCatch.
  change (Lookup.fetchJSON net SEC_TICKERS_EXCHANGE s1)
    with (Lookup.fetchLoop net SEC_TICKERS_EXCHANGE 4 200%Z None s1).
  destruct (Lookup.fetchLoop net SEC_TICKERS_EXCHANGE 4 200%Z None s1)
    as [[j2|e2] s2]; cbn [snd ret] in *; lia.
Qed.

(** The in-memory cache.  For every state of the route and every clock
    reading [now]:
    - while less than [TTL_MS] (one hour) has passed since the cached list
      was built, [loadAll] returns the cached list and leaves the state as
      it is, so no fetch is made;
    - with no cached list, or once [TTL_MS] has passed, [loadAll] runs the
      Builder exactly once, and stores what it built with the clock reading
      of the call, so that later calls within the hour are served from it;
    - a call that answers without any upstream fetch returned the cached
      list, and that list is younger than [TTL_MS]. *)
Lemma loadAll_freshness :
  forall (net : Network) (now : Z) (s : Proc),
    Lookup.TTL_MS = 3600000%Z
    /\ (forall rows, CACHE s = Some rows -> (now - LAST s < Lookup.TTL_MS)%Z ->
          Lookup.loadAll net now s = (Ok rows, s))
    /\ (CACHE s = None \/ (Lookup.TTL_MS <= now - LAST s)%Z ->
          Lookup.loadAll net now s = stored now (Lookup.build net s))
    /\ (forall rows s', Lookup.loadAll net now s = (Ok rows, s') ->
          CACHE s' = Some rows
          /\ forall net' now', (now' - LAST s' < Lookup.TTL_MS)%Z ->
               Lookup.loadAll net' now' s' = (Ok rows, s'))
    /\ (forall rows s', Lookup.loadAll net now s = (Ok rows, s') ->
          trace s' = trace s ->
          CACHE s = Some rows /\ (now - LAST s < Lookup.TTL_MS)%Z /\ s' = s).
Proof.
  intros net now s.
  assert (Hit : forall rows, CACHE s = Some rows ->
                  (now - LAST s < Lookup.TTL_MS)%Z ->
                  Lookup.loadAll net now s = (Ok rows, s)).
  { intros rows C F. unfold Lookup.loadAll. rewrite C.
    apply Z.ltb_lt in F. now rewrite F. }
  assert (Miss : CACHE s = None \/ (Lookup.TTL_MS <= now - LAST s)%Z ->
                 Lookup.loadAll net now s = stored now (Lookup.build net s)).
  { intro H. unfold Lookup.loadAll. destruct (CACHE s) as [rows|] eqn:C.
    - destruct H as [H|H]; [discriminate|].
      apply Z.ltb_ge in H. rewrite H. apply loadAll_rebuild.
    - apply loadAll_rebuild. }
  assert (Cases : (exists rows, CACHE s = Some rows
                                /\ (now - LAST s < Lookup.TTL_MS)%Z)
                  \/ CACHE s = None \/ (Lookup.TTL_MS <= now - LAST s)%Z).
  { destruct (CACHE s) as [rows|]; [|right; now left].
    destruct (Z.lt_ge_cases (now - LAST s) Lookup.TTL_MS);
      [left; now exists rows | right; now right]. }
  split; [reflexivity|]. split; [exact Hit|]. split; [exact Miss|]. split.
  - intros rows s' E.
    assert (C' : CACHE s' = Some rows).
    { destruct Cases as [[rows0 [C F]]|M].
      - rewrite (Hit rows0 C F) in E. injection E as <- <-. exact C.
      - rewrite (Miss M) in E. unfold stored in E.
        destruct (Lookup.build net s) as [[rows1|e] s1]; [|discriminate].
        injection E as <- <-. reflexivity. }
    split; [exact C'|].
    intros net' now' F. unfold Lookup.loadAll. rewrite C'.
    apply Z.ltb_lt in F. now rewrite F.
  - intros rows s' E T.
    destruct Cases as [[rows0 [C F]]|M].
    + rewrite (Hit rows0 C F) in E. injection E as <- <-. now repeat split.
    + exfalso. rewrite (Miss M) in E. unfold stored in E.
      pose proof (build_fetches net s) as L.
      destruct (Lookup.build net s) as [[rows1|e] s1]; [|discriminate].
      injection E as <- <-. simpl in *. rewrite T in L. lia.
Qed.

(** The registry used in the examples: one row in each source. *)
Definition registry : Network :=
  fun _ url =>
    if str_eqb url SEC_TICKERS then
      Http true (lit "200") (lit "OK")
        (Ok (JObject [(lit "0", mkRaw (Some (lit "320193")) None
                                   (Some (lit "aapl")) (Some (lit "Apple Inc.")))]))
        (Ok [])
    else
      Http true (lit "200") (lit "OK")
        (Ok (JArray [mkRaw None (Some (lit "789019"))
                       (Some (lit "MSFT")) (Some (lit "MICROSOFT CORP"))]))
        (Ok []).

Definition registry_rows : list Row :=
  [mkRow (lit "MSFT") (lit "0000789019") (lit "MICROSOFT CORP");
   mkRow (lit "AAPL") (lit "0000320193") (lit "Apple Inc.")].

Definition warm : Proc :=
  mkProc (Some registry_rows) 1000%Z
         [EvFetch SEC_TICKERS_EXCHANGE; EvFetch SEC_TICKERS].

Example loadAll_cold : Lookup.loadAll registry 1000%Z initial = (Ok registry_rows, warm).
Proof. reflexivity. Qed.

Example loadAll_freshness_warm :
  Lookup.loadAll garbled_once 3600999%Z warm = (Ok registry_rows, warm)
  /\ Lookup.loadAll registry 3601000%Z warm
     = stored 3601000%Z (Lookup.build registry warm).
Proof.
  destruct (loadAll_freshness garbled_once 3600999%Z warm) as [_ [Hit _]].
  destruct (loadAll_freshness registry 3601000%Z warm) as [_ [_ [Miss _]]].
  split.
  - apply Hit; [reflexivity | vm_compute; reflexivity].
  - apply Miss. right. vm_compute. discriminate.
Qed.

(** The key-value revision has no freshness test of its own: [loadIndex]
    serves a non-empty list the store answers with and otherwise runs the
    Builder; without a configured store every call runs the Builder. *)
Remark loadIndex_without_store (net : Network) (s : Proc) :
  KvRoutes.loadIndex (KvRoutes.mkKvEnv [] []) net s = KvRoutes.build net s.
Proof.
  unfold KvRoutes.loadIndex, KvRoutes.kvGet, KvRoutes.kvSet. simpl.
  unfold bind at 1. simpl. unfold bind at 1.
  destruct (KvRoutes.build net s) as [[rows|e] s1]; reflexivity.
Qed.

(** ** The resolver *)

Ltac ascii_cases c :=
  destruct c as [b0 b1 b2 b3 b4 b5 b6 b7];
  destruct b0, b1, b2, b3, b4, b5, b6, b7.

Lemma toUpper_idem (c : ascii) : toUpper (toUpper c) = toUpper c.
Proof. ascii_cases c; reflexivity. Qed.

Lemma isSpace_toUpper (c : ascii) : isSpace (toUpper c) = isSpace c.
Proof. ascii_cases c; reflexivity. Qed.

Lemma isDigit_plain (c : ascii) :
  isDigit c = true ->
  toUpper c = c /\ isSpace c = false /\ isDot c = false /\ isDash c = false.
Proof. ascii_cases c; intro H; try discriminate H; repeat split. Qed.

Definition noSpace (s : str) : Prop := Forall (fun c => isSpace c = false) s.
Definition upperFixed (s : str) : Prop := Forall (fun c => toUpper c = c) s.

Lemma dropWhile_noSpace (s : str) : noSpace s -> dropWhile isSpace s = s.
Proof.
  intro H. destruct H as [|c s Hc Hs]; simpl; [reflexivity | now rewrite Hc].
Qed.

Lemma trim_noSpace (s : str) : noSpace s -> trim s = s.
Proof.
  intro H. unfold trim, trimStart, trimEnd.
  rewrite (dropWhile_noSpace H).
  rewrite dropWhile_noSpace; [apply rev_involutive|].
  unfold noSpace. apply Forall_rev. exact H.
Qed.

Lemma noSpace_upper (s : str) : noSpace s -> noSpace (toUpperCase s).
Proof.
  unfold noSpace, toUpperCase. intro H. apply Forall_map.
  eapply Forall_impl; [|exact H]. intros c Hc. now rewrite isSpace_toUpper.
Qed.

Lemma upperFixed_upper (s : str) : upperFixed (toUpperCase s).
Proof.
  unfold upperFixed, toUpperCase. apply Forall_map, Forall_forall.
  intros c _. apply toUpper_idem.
Qed.

Lemma upperFixed_eq (s : str) : upperFixed s -> toUpperCase s = s.
Proof.
  unfold upperFixed, toUpperCase. induction 1 as [|c s Hc Hs IH]; simpl;
    [reflexivity | now rewrite Hc, IH].
Qed.

Lemma Forall_filter_keep {A} (P : A -> Prop) (f : A -> bool) (l : list A) :
  Forall P l -> Forall P (filter f l).
Proof.
  intro H. apply Forall_forall. intros x Hx. apply filter_In in Hx.
  destruct Hx as [Hx _]. revert x Hx. now apply Forall_forall.
Qed.

(** The variants of a symbol without white space are free of white space
    and in upper case. *)
Lemma variant_shape (u v : str) :
  noSpace u -> upperFixed u ->
  In v [u; removeDots u; dotsToDashes u; stripDotDash u] ->
  noSpace v /\ upperFixed v.
Proof.
  intros Hs Hu. simpl. intros [<-|[<-|[<-|[<-|[]]]]].
  - now split.
  - split; now apply Forall_filter_keep.
  - split; unfold dotsToDashes; apply Forall_map.
    + eapply Forall_impl; [|exact Hs]. intros c Hc. simpl.
      now destruct (isDot c).
    + eapply Forall_impl; [|exact Hu]. intros c Hc. simpl.
      now destruct (isDot c).
  - split; now apply Forall_filter_keep.
Qed.

Lemma filter_all {A} (f : A -> bool) (l : list A) :
  forallb f l = true -> filter f l = l.
Proof.
  induction l as [|x l IH]; simpl; [reflexivity|].
  intro H. apply andb_true_iff in H. destruct H as [Hx Hl].
  now rewrite Hx, IH.
Qed.

(** A string of digits is its own and only variant. *)
Lemma digits_variants (q v : str) :
  forallb isDigit q = true -> In v (Lookup.norms q) -> v = q.
Proof.
  intros D Hv. apply Lookup_norms_spec in Hv. cbv zeta in Hv.
  assert (F : Forall (fun c => isDigit c = true) q).
  { apply Forall_forall. now apply forallb_forall. }
  assert (U : toUpperCase q = q).
  { apply upperFixed_eq. eapply Forall_impl; [|exact F].
    intros c Hc. now apply isDigit_plain. }
  assert (T : trim q = q).
  { apply trim_noSpace. eapply Forall_impl; [|exact F].
    intros c Hc. now apply isDigit_plain. }
  rewrite U, T in Hv.
  assert (R : removeDots q = q).
  { apply filter_all, forallb_forall. intros c Hc.
    rewrite forallb_forall in D. specialize (D c Hc).
    apply isDigit_plain in D. destruct D as [_ [_ [-> _]]]. reflexivity. }
  assert (P : stripDotDash q = q).
  { apply filter_all, forallb_forall. intros c Hc.
    rewrite forallb_forall in D. specialize (D c Hc).
    apply isDigit_plain in D. destruct D as [_ [_ [-> ->]]]. reflexivity. }
  assert (Dd : dotsToDashes q = q).
  { unfold dotsToDashes. rewrite <- (map_id q) at 2. apply map_ext_in.
    intros c Hc. rewrite forallb_forall in D. specialize (D c Hc).
    apply isDigit_plain in D. destruct D as [_ [_ [-> _]]]. reflexivity. }
  rewrite R, P, Dd in Hv. simpl in Hv. intuition congruence.
Qed.

Lemma find_pointwise {A} (f g : A -> bool) (l : list A) :
  (forall x, f x = g x) -> find f l = find g l.
Proof.
  intro H. induction l as [|x l IH]; simpl; [reflexivity|].
  now rewrite H, IH.
Qed.

(** The symbol tier compares plain keys. *)
Lemma tickerMatches_plain (q : str) (x : Row) :
  Lookup.tickerMatches (SetFrom (map stripDotDash (Lookup.norms q))) x
  = str_eqb (plainKey (ticker x)) (plainKey q).
Proof.
  unfold Lookup.tickerMatches. apply eq_true_iff_eq.
  rewrite existsb_exists, str_eqb_eq. split.
  - intros [v [Hv Hm]]. rewrite mem_SetFrom in Hm. apply mem_In in Hm.
    apply in_map_iff in Hv. destruct Hv as [a [<- Ha]].
    apply in_map_iff in Hm. destruct Hm as [b [E Hb]].
    rewrite (Lookup_norms_plain Ha), (Lookup_norms_plain Hb) in E.
    now symmetry.
  - intro E. exists (plainKey (ticker x)). split.
    + apply in_map_iff. exists (trim (toUpperCase (ticker x))).
      split; [reflexivity | apply Lookup_norms_upper].
    + rewrite mem_SetFrom. apply mem_In. rewrite E.
      apply in_map_iff. exists (trim (toUpperCase q)).
      split; [reflexivity | apply Lookup_norms_upper].
Qed.

(** The id tier of the resolver. *)
Definition numericHit (list : list Row) (q : str) : option Row :=
  if Lookup.isNumericQuery q
  then find (fun r => str_eqb (cik r) (pad10 q)) list
  else None.

(** The resolver on a query without surrounding white space. *)
Lemma resolve_tiers (list : list Row) (q : str) :
  trim q = q -> q <> [] ->
  Lookup.resolve list q =
  match numericHit list q with
  | Some hit => Lookup.Found hit
  | None =>
      match find (fun x => str_eqb (plainKey (ticker x)) (plainKey q)) list with
      | Some hit => Lookup.Found hit
      | None =>
          match find (fun x => startsWith (toUpperCase q) (toUpperCase (name x))) list with
          | Some hit => Lookup.Found hit
          | None =>
              match find (fun x => includes (toUpperCase q) (toUpperCase (name x))) list with
              | Some hit => Lookup.Found hit
              | None => Lookup.Failed 404 (lit "not_found")
              end
          end
      end
  end.
Proof.
  intros T N. unfold Lookup.resolve. rewrite T.
  destruct q as [|c q]; [contradiction|].
  change (length (c :: q) =? 0) with false. cbv iota.
  fold (numericHit list (c :: q)).
  destruct (numericHit list (c :: q)); [reflexivity|].
  rewrite (@find_pointwise _ _ _ list (tickerMatches_plain (c :: q))).
  reflexivity.
Qed.

(** The canonical id a reply carries. *)
Definition resolvedId (reply : Lookup.Reply) : option str :=
  match reply with
  | Lookup.Found hit => Some (cik hit)
  | Lookup.Failed _ _ => None
  end.

(** The statement that every variant of an indexed symbol resolves to the
    id the symbol resolves to. *)
Definition variant_insensitive_resolution : Prop :=
  forall (list : list Row) (S V : str),
    (exists r, In r list /\ ticker r = S) ->
    In V (Lookup.norms S) ->
    resolvedId (Lookup.resolve list V) = resolvedId (Lookup.resolve list S).

(** An index, as the Builder makes it, with a symbol of digits and a dot
    whose plain form reads as the id of another registrant. *)
Definition digits_index : list Row :=
  MapValues
    (Lookup.mergeRows
       [mkRow (lit "7.11") (lit "0000000042") (lit "Seven Eleven Holdings");
        mkRow (lit "ZZ") (lit "0000000711") (lit "Zed Zed Corp")]
       []).

Example resolve_digits_symbol :
  resolvedId (Lookup.resolve digits_index (lit "7.11")) = Some (lit "0000000042")
  /\ resolvedId (Lookup.resolve digits_index (lit "711")) = Some (lit "0000000711")
  /\ In (lit "711") (Lookup.norms (lit "7.11")).
Proof. repeat split. vm_compute. tauto. Qed.

(** C5, as stated, fails: the plain variant ["711"] of the indexed symbol
    ["7.11"] is a numeric query, and the id tier answers it with another
    registrant. *)
Lemma variant_read_as_id : ~ variant_insensitive_resolution.
Proof.
  intro H.
  specialize (H digits_index (lit "7.11") (lit "711")).
  destruct resolve_digits_symbol as [ES [EV HV]].
  rewrite ES, EV in H.
  assert (X : Some (lit "0000000711") = Some (lit "0000000042")).
  { apply H; [|exact HV].
    eexists. split; [left; reflexivity | reflexivity]. }
  discriminate X.
Qed.

Lemma present_found (list : list Row) (k : str) :
  (exists r, In r list /\ plainKey (ticker r) = k) ->
  exists hit, find (fun x => str_eqb (plainKey (ticker x)) k) list = Some hit.
Proof.
  intros [r [Hin Hk]].
  destruct (find (fun x => str_eqb (plainKey (ticker x)) k) list) as [hit|] eqn:F.
  - now exists hit.
  - apply (find_none _ _ F) in Hin. simpl in Hin.
    rewrite Hk, str_eqb_refl in Hin. discriminate.
Qed.

(** C5, amended.  Let [S] be a symbol without white space whose plain key is
    in the index, and [V] a non-empty variant of [S].  Unless [V] is a
    numeric query (one to ten digits) while [S] is not and some row has the
    id [pad10 V], resolving [V] and resolving [S] return the same row, hence
    the same canonical id. *)
Theorem variant_resolution :
  forall (list : list Row) (S V : str),
    (exists r, In r list /\ plainKey (ticker r) = plainKey S) ->
    noSpace S ->
    In V (Lookup.norms S) ->
    V <> [] ->
    (Lookup.isNumericQuery V = true -> Lookup.isNumericQuery S = false ->
     find (fun r => str_eqb (cik r) (pad10 V)) list = None) ->
    exists hit,
      Lookup.resolve list S = Lookup.Found hit
      /\ Lookup.resolve list V = Lookup.Found hit
      /\ resolvedId (Lookup.resolve list V) = resolvedId (Lookup.resolve list S).
Proof.
  intros list S V P NS HV NV Hnum.
  assert (TS : trim S = S) by now apply trim_noSpace.
  destruct (present_found P) as [hit F].
  destruct (Lookup.isNumericQuery S) eqn:QS.
  - (* a symbol of digits is its only variant *)
    assert (D : forallb isDigit S = true).
    { unfold Lookup.isNumericQuery in QS.
      apply andb_true_iff in QS. tauto. }
    assert (E : V = S) by now apply digits_variants.
    subst V. rewrite (resolve_tiers list TS NV).
    destruct (numericHit list S) as [h|].
    + exists h. now repeat split.
    + rewrite F. exists hit. now repeat split.
  - pose proof HV as HV'. apply Lookup_norms_spec in HV'. cbv zeta in HV'.
    assert (NU : noSpace (toUpperCase S)) by now apply noSpace_upper.
    rewrite (trim_noSpace NU) in HV'.
    destruct (variant_shape NU (upperFixed_upper S) HV') as [NSV UV].
    assert (TV : trim V = V) by now apply trim_noSpace.
    assert (KV : plainKey V = plainKey S).
    { unfold plainKey at 1. rewrite (upperFixed_eq UV), TV.
      rewrite (variant_plain HV'). unfold plainKey.
      now rewrite (trim_noSpace NU). }
    assert (NS' : S <> []).
    { intros ->. simpl in HV'. intuition congruence. }
    assert (HS : numericHit list S = None) by (unfold numericHit; now rewrite QS).
    assert (HVn : numericHit list V = None).
    { unfold numericHit. destruct (Lookup.isNumericQuery V) eqn:QV;
        [now apply Hnum | reflexivity]. }
    exists hit.
    rewrite (resolve_tiers list TS NS'), (resolve_tiers list TV NV).
    rewrite HS, HVn, KV, F. now repeat split.
Qed.

Definition brk_index : list Row :=
  [mkRow (lit "AAPL") (lit "0000320193") (lit "Apple Inc.");
   mkRow (lit "BRK-B") (lit "0001067983") (lit "BERKSHIRE HATHAWAY INC")].

Lemma variant_resolution_witness :
  exists hit,
    Lookup.resolve brk_index (lit "brk.b") = Lookup.Found hit
    /\ Lookup.resolve brk_index (lit "BRKB") = Lookup.Found hit
    /\ resolvedId (Lookup.resolve brk_index (lit "BRKB"))
       = resolvedId (Lookup.resolve brk_index (lit "brk.b")).
Proof.
  apply (@variant_resolution brk_index (lit "brk.b") (lit "BRKB")).
  - exists (mkRow (lit "BRK-B") (lit "0001067983") (lit "BERKSHIRE HATHAWAY INC")).
    split; [simpl; tauto | reflexivity].
  - repeat constructor.
  - vm_compute. tauto.
  - discriminate.
  - intro H. vm_compute in H. discriminate H.
Defined.

(** ** Sorting with a comparator *)

Lemma insertBy_perm {A} (cmp : A -> A -> Z) (x : A) (l : list A) :
  Permutation (x :: l) (insertBy cmp x l).
Proof.
  induction l as [|y l IH]; simpl; [reflexivity|].
  destruct (cmp x y <=? 0)%Z; [reflexivity|].
  rewrite perm_swap. now apply perm_skip.
Qed.

Lemma sortBy_perm {A} (cmp : A -> A -> Z) (l : list A) :
  Permutation l (sortBy cmp l).
Proof.
  induction l as [|x l IH]; simpl; [reflexivity|].
  rewrite <- insertBy_perm. now apply perm_skip.
Qed.

Lemma sortBy_In {A} (cmp : A -> A -> Z) (l : list A) (x : A) :
  In x (sortBy cmp l) <-> In x l.
Proof.
  split; apply Permutation_in; [symmetry|]; apply sortBy_perm.
Qed.

Lemma insertBy_map {A B} (g : A -> B) (cmp : B -> B -> Z) (x : A) (l : list A) :
  insertBy cmp (g x) (map g l)
  = map g (insertBy (fun a b => cmp (g a) (g b)) x l).
Proof.
  induction l as [|y l IH]; simpl; [reflexivity|].
  destruct (cmp (g x) (g y) <=? 0)%Z; simpl; [reflexivity | now rewrite IH].
Qed.

Lemma sortBy_map {A B} (g : A -> B) (cmp : B -> B -> Z) (l : list A) :
  sortBy cmp (map g l) = map g (sortBy (fun a b => cmp (g a) (g b)) l).
Proof.
  induction l as [|x l IH]; simpl; [reflexivity|].
  fold (sortBy cmp (map g l)). rewrite IH. apply insertBy_map.
Qed.

Lemma filter_map_comm {A B} (g : A -> B) (f : B -> bool) (l : list A) :
  filter f (map g l) = map g (filter (fun a => f (g a)) l).
Proof.
  induction l as [|x l IH]; simpl; [reflexivity|].
  destruct (f (g x)); simpl; now rewrite IH.
Qed.

Section Consistent.

(** A comparator is consistent when "need not go behind" is a total
    preorder. *)
Variable A : Type.
Variable cmp : A -> A -> Z.

Definition notBehind (a b : A) : Prop := (cmp a b <= 0)%Z.

Hypothesis cmp_total : forall a b, (0 < cmp a b)%Z -> (cmp b a <= 0)%Z.
Hypothesis cmp_trans :
  forall a b c, (cmp a b <= 0)%Z -> (cmp b c <= 0)%Z -> (cmp a c <= 0)%Z.

Lemma insertBy_sorted (x : A) (l : list A) :
  StronglySorted notBehind l -> StronglySorted notBehind (insertBy cmp x l).
Proof.
  induction 1 as [|y l Hl IH Hy]; simpl.
  - repeat constructor.
  - destruct (cmp x y <=? 0)%Z eqn:E.
    + apply Z.leb_le in E. constructor.
      * now constructor.
      * constructor; [exact E|].
        eapply Forall_impl; [|exact Hy]. intros z Hz.
        unfold notBehind in *. now apply cmp_trans with y.
    + apply Z.leb_gt in E. constructor; [exact IH|].
      apply Forall_forall. intros z Hz.
      apply (Permutation_in _ (Permutation_sym (insertBy_perm cmp x l))) in Hz.
      destruct Hz as [<-|Hz].
      * now apply cmp_total.
      * revert z Hz. now apply Forall_forall.
Qed.

Lemma sortBy_sorted (l : list A) : StronglySorted notBehind (sortBy cmp l).
Proof.
  induction l as [|x l IH]; simpl; [constructor | now apply insertBy_sorted].
Qed.

End Consistent.

Lemma StronglySorted_firstn {A} (R : A -> A -> Prop) (n : nat) (l : list A) :
  StronglySorted R l -> StronglySorted R (firstn n l).
Proof.
  intro H. revert n. induction H as [|x l Hl IH Hx]; intros [|n]; simpl;
    try constructor.
  - apply IH.
  - apply Forall_forall. intros y Hy.
    assert (Hin : In y l)
      by (rewrite <- (firstn_skipn n l); apply in_or_app; now left).
    rewrite Forall_forall in Hx. now apply Hx.
Qed.

(** In a sorted list the order of positions follows the order. *)
Lemma StronglySorted_positions {A} (R : A -> A -> Prop) (l : list A) :
  StronglySorted R l ->
  forall i j a b, nth_error l i = Some a -> nth_error l j = Some b ->
                  i < j -> R a b.
Proof.
  induction 1 as [|x l Hl IH Hx]; intros i j a b Hi Hj Lt.
  - destruct i; discriminate.
  - destruct j as [|j]; [lia|]. simpl in Hj.
    destruct i as [|i]; simpl in Hi.
    + injection Hi as <-. apply nth_error_In in Hj.
      revert b Hj. now apply Forall_forall.
    + apply (IH i j); [assumption | assumption | lia].
Qed.

(** ** The autocomplete ranker *)

(** The scoring table of the design document, read top to bottom, with the
    variants of the row's symbol compared in their plain-key form. *)
Definition scoreTable (q : str) (r : Row) : Z :=
  let Q := trim (toUpperCase q) in
  let qPlain := stripDotDash Q in
  let key := plainKey (ticker r) in
  let nameU := toUpperCase (name r) in
  if str_eqb qPlain key then 100
  else if startsWith qPlain key then 90
  else if includes qPlain key then 75
  else if startsWith Q nameU then 65
  else if includes Q nameU then 50
  else 0.

Lemma existsb_single {A} (f : A -> bool) (k : A) (l : list A) :
  (forall v, In v l -> v = k) -> In k l -> existsb f l = f k.
Proof.
  intros All Hin. destruct (f k) eqn:E.
  - apply existsb_exists. now exists k.
  - destruct (existsb f l) eqn:X; [|reflexivity].
    apply existsb_exists in X. destruct X as [v [Hv Fv]].
    rewrite (All v Hv) in Fv. congruence.
Qed.

Lemma tickerVars_single (sym : str) :
  (forall v, In v (map stripDotDash (KvRoutes.norms sym)) -> v = plainKey sym)
  /\ In (plainKey sym) (map stripDotDash (KvRoutes.norms sym)).
Proof.
  split.
  - intros v Hv. apply in_map_iff in Hv. destruct Hv as [a [<- Ha]].
    now apply KvRoutes_norms_plain.
  - apply in_map_iff. exists (trim (toUpperCase sym)).
    split; [reflexivity | apply KvRoutes_norms_upper].
Qed.

Lemma scoreRow_table (q : str) (r : Row) : Suggest.scoreRow q r = scoreTable q r.
Proof.
  unfold Suggest.scoreRow, scoreTable. cbv zeta.
  destruct (tickerVars_single (ticker r)) as [All Hin].
  unfold mem. rewrite !(existsb_single _ All Hin). reflexivity.
Qed.

Lemma scoreRow_values (q : str) (r : Row) :
  In (Suggest.scoreRow q r) [100; 90; 75; 65; 50; 0]%Z.
Proof.
  rewrite scoreRow_table. unfold scoreTable. cbv zeta.
  repeat match goal with |- context [if ?b then _ else _] => destruct b end;
    simpl; tauto.
Qed.

(** The ranked branch on rows: keep the positive scores, sort by descending
    score, cut at the limit. *)
Definition byScore (q : str) (a b : Row) : Z :=
  (Suggest.scoreRow q b - Suggest.scoreRow q a)%Z.

Definition positive (q : str) (r : Row) : bool := (0 <? Suggest.scoreRow q r)%Z.

Lemma rankedBranch_rows (list : list Row) (q : str) (limit : Suggest.JsNumber) :
  Suggest.rankedBranch list q limit
  = Suggest.sliceTo limit (sortBy (byScore q) (filter (positive q) list)).
Proof.
  unfold Suggest.rankedBranch.
  rewrite filter_map_comm, sortBy_map. simpl.
  assert (E : forall l : Datatypes.list Row,
             map Suggest.row
               (Suggest.sliceTo limit
                  (map (fun r => Suggest.mkScored r (Suggest.scoreRow q r)) l))
             = Suggest.sliceTo limit l).
  { intro l. destruct limit as [|z]; simpl; [reflexivity|].
    unfold slice0. rewrite firstn_map, map_map. simpl. apply map_id. }
  apply E.
Qed.

Lemma sliceTo_In {A} (limit : Suggest.JsNumber) (l : list A) (x : A) :
  In x (Suggest.sliceTo limit l) -> In x l.
Proof.
  destruct limit as [|z]; simpl; [intros []|]. unfold slice0. intro H.
  rewrite <- (firstn_skipn (Z.to_nat z) l). apply in_or_app. now left.
Qed.

Lemma sliceTo_sorted {A} (R : A -> A -> Prop) (limit : Suggest.JsNumber)
    (l : list A) :
  StronglySorted R l -> StronglySorted R (Suggest.sliceTo limit l).
Proof.
  destruct limit as [|z]; simpl; [constructor|]. apply StronglySorted_firstn.
Qed.

Lemma suggest_ranked (lc : str -> str -> Z) (list : list Row) (q : str)
    (limit : Suggest.JsNumber) :
  2 <= length q ->
  Suggest.suggest lc list q limit = Suggest.rankedBranch list q limit.
Proof.
  intro H. unfold Suggest.suggest. cbv zeta.
  unfold toUpperCase. rewrite length_map.
  destruct (length q =? 1) eqn:E; [|reflexivity].
  apply Nat.eqb_eq in E. lia.
Qed.

(** C2.  For a query of at least two characters, every row scores as the
    table says (100, 90, 75, 65, 50, else 0, first line that applies), and
    the answer is the list of the rows with a positive score, sorted by
    descending score and cut at the limit: each row of the answer is a row of
    the index with a positive score, the answer is a permutation of all such
    rows when the limit does not cut, it is never longer than the limit, and
    a row of score 100 (exact ticker) stands before every row of score at
    most 65 (name-only match). *)
Theorem ranking_follows_score_table :
  forall (localeCompare : str -> str -> Z) (list : list Row) (q : str)
         (limit : Suggest.JsNumber),
    2 <= length q ->
    let res := Suggest.suggest localeCompare list q limit in
    (forall r, Suggest.scoreRow q r = scoreTable q r)
    /\ res = Suggest.sliceTo limit (sortBy (byScore q) (filter (positive q) list))
    /\ (forall r, In r res -> In r list /\ (0 < Suggest.scoreRow q r)%Z)
    /\ StronglySorted
         (fun a b => (Suggest.scoreRow q b <= Suggest.scoreRow q a)%Z) res
    /\ (forall z, limit = Suggest.Int z ->
          length res <= Z.to_nat z
          /\ (length (filter (positive q) list) <= Z.to_nat z ->
              Permutation (filter (positive q) list) res))
    /\ (forall i j a b,
          nth_error res i = Some a -> nth_error res j = Some b ->
          Suggest.scoreRow q a = 100%Z -> (Suggest.scoreRow q b <= 65)%Z ->
          i < j).
Proof.
  intros lc list q limit Hq res.
  assert (E : res = Suggest.sliceTo limit
                      (sortBy (byScore q) (filter (positive q) list))).
  { unfold res. rewrite (suggest_ranked lc list limit Hq).
    apply rankedBranch_rows. }
  assert (S : StronglySorted
                (fun a b => (Suggest.scoreRow q b <= Suggest.scoreRow q a)%Z) res).
  { rewrite E. apply sliceTo_sorted.
    assert (X : StronglySorted (notBehind (byScore q))
                  (sortBy (byScore q) (filter (positive q) list))).
    { apply sortBy_sorted; unfold byScore; intros; lia. }
    clear E. induction X as [|x l Hl IH Hx]; constructor; [exact IH|].
    eapply Forall_impl; [|exact Hx]. unfold notBehind, byScore. intros; lia. }
  split; [apply scoreRow_table|]. split; [exact E|]. split; [|split; [exact S|split]].
  - intros r Hr. rewrite E in Hr. apply sliceTo_In in Hr.
    apply sortBy_In in Hr. apply filter_In in Hr. destruct Hr as [Hin Hp].
    split; [exact Hin|]. unfold positive in Hp. now apply Z.ltb_lt in Hp.
  - intros z ->. rewrite E. simpl. unfold slice0. split.
    + rewrite length_firstn. lia.
    + intro L. rewrite firstn_all2.
      * apply sortBy_perm.
      * rewrite <- (Permutation_length (sortBy_perm (byScore q) _)). exact L.
  - intros i j a b Hi Hj Ha Hb.
    destruct (Nat.lt_trichotomy i j) as [Lt|[Eq|Gt]]; [exact Lt| |].
    + subst j. rewrite Hi in Hj. injection Hj as <-. lia.
    + pose proof (StronglySorted_positions S Hj Hi Gt) as X. simpl in X. lia.
Qed.

Definition aapl_index : list Row :=
  [mkRow (lit "WRAP") (lit "0000000700") (lit "AAPL Covered Call Trust");
   mkRow (lit "AAPL") (lit "0000320193") (lit "Apple Inc.")].

Lemma ranking_follows_score_table_witness :
  Suggest.suggest Suggest.codeUnitCompare aapl_index (lit "aapl") (Suggest.Int 10)
  = [mkRow (lit "AAPL") (lit "0000320193") (lit "Apple Inc.");
     mkRow (lit "WRAP") (lit "0000000700") (lit "AAPL Covered Call Trust")].
Proof.
  destruct (@ranking_follows_score_table Suggest.codeUnitCompare aapl_index
              (lit "aapl") (Suggest.Int 10)) as [_ [E _]].
  - simpl. lia.
  - rewrite E. reflexivity.
Defined.

(** *** The single-character query *)

Lemma startsWith_single (x : ascii) (s : str) :
  startsWith [x] s = true <-> exists rest, s = x :: rest.
Proof.
  destruct s as [|y s]; simpl.
  - split; [discriminate | intros [rest H]; discriminate].
  - rewrite andb_true_r. split.
    + intro H. apply Ascii.eqb_eq in H. subst. now exists s.
    + intros [rest H]. injection H as -> _. apply Ascii.eqb_refl.
Qed.

(** The filter of the single-letter branch. *)
Definition startsWithLetter (Q : str) (r : Row) : bool :=
  startsWith Q (ticker r) || startsWith Q (toUpperCase (name r)).

(** C6.  For a query of one character [c], whatever consistent collation
    [localeCompare] is: the answer is the list of the rows whose symbol
    starts with the upper-case form of [c] or whose name starts with [c] in
    either case, sorted ascending by symbol under the collation and cut at
    the limit.  No score enters it.  Each row of the answer is such a row of
    the index, and when the limit does not cut, every such row is in it. *)
Theorem single_character_query :
  forall (localeCompare : str -> str -> Z) (list : list Row) (c : ascii)
         (limit : Suggest.JsNumber),
    (forall a b, (0 < localeCompare a b)%Z -> (localeCompare b a <= 0)%Z) ->
    (forall a b d, (localeCompare a b <= 0)%Z -> (localeCompare b d <= 0)%Z ->
                   (localeCompare a d <= 0)%Z) ->
    let res := Suggest.suggest localeCompare list [c] limit in
    let starts r :=
      (exists rest, ticker r = toUpper c :: rest)
      \/ (exists c' rest, name r = c' :: rest /\ toUpper c' = toUpper c) in
    res = Suggest.sliceTo limit
            (sortBy (fun a b => localeCompare (ticker a) (ticker b))
               (filter (startsWithLetter [toUpper c]) list))
    /\ (forall r, In r res -> In r list /\ starts r)
    /\ StronglySorted
         (fun a b => (localeCompare (ticker a) (ticker b) <= 0)%Z) res
    /\ (forall z, limit = Suggest.Int z ->
          length (filter (startsWithLetter [toUpper c]) list) <= Z.to_nat z ->
          forall r, In r list -> starts r -> In r res).
Proof.
  intros lc list c limit Tot Tr res starts.
  assert (E : res = Suggest.sliceTo limit
                      (sortBy (fun a b => lc (ticker a) (ticker b))
                         (filter (startsWithLetter [toUpper c]) list)))
    by reflexivity.
  assert (St : forall r, startsWithLetter [toUpper c] r = true <-> starts r).
  { intro r. unfold startsWithLetter, starts.
    rewrite orb_true_iff, !startsWith_single. split.
    - intros [H|[rest H]]; [now left | right].
      destruct (name r) as [|c' n]; [discriminate|].
      simpl in H. injection H as H1 H2. now exists c', n.
    - intros [H|[c' [rest [H1 H2]]]]; [now left | right].
      rewrite H1. simpl. rewrite H2. now eexists. }
  split; [exact E|]. split; [|split].
  - intros r Hr. rewrite E in Hr. apply sliceTo_In in Hr.
    apply sortBy_In in Hr. apply filter_In in Hr. destruct Hr as [Hin Hs].
    split; [exact Hin | now apply St].
  - rewrite E. apply sliceTo_sorted.
    apply (@sortBy_sorted Row (fun a b => lc (ticker a) (ticker b))).
    + intros a b. apply Tot.
    + intros a b d. apply Tr.
  - intros z -> L r Hin Hs. rewrite E. simpl. unfold slice0.
    rewrite firstn_all2.
    + apply sortBy_In. apply filter_In. split; [exact Hin | now apply St].
    + rewrite <- (Permutation_length (sortBy_perm _ _)). exact L.
Qed.

Lemma codeUnitCompare_total (a b : str) :
  (0 < Suggest.codeUnitCompare a b)%Z -> (Suggest.codeUnitCompare b a <= 0)%Z.
Proof.
  revert b. induction a as [|x a IH]; intros [|y b]; simpl; try lia.
  destruct (code x <? code y) eqn:E1; [lia|].
  destruct (code y <? code x) eqn:E2; [lia|].
  apply IH.
Qed.

Lemma codeUnitCompare_trans (a b d : str) :
  (Suggest.codeUnitCompare a b <= 0)%Z -> (Suggest.codeUnitCompare b d <= 0)%Z ->
  (Suggest.codeUnitCompare a d <= 0)%Z.
Proof.
  revert b d. induction a as [|x a IH]; intros [|y b] [|z d]; simpl; try lia.
  destruct (code x <? code y) eqn:E1, (code y <? code x) eqn:E2,
           (code y <? code z) eqn:E3, (code z <? code y) eqn:E4,
           (code x <? code z) eqn:E5, (code z <? code x) eqn:E6;
    try lia;
    rewrite ?Nat.ltb_lt, ?Nat.ltb_ge in *; try lia.
  apply IH.
Qed.

Definition letter_index : list Row :=
  [mkRow (lit "BA") (lit "0000012927") (lit "BOEING CO");
   mkRow (lit "AMZN") (lit "0001018724") (lit "AMAZON COM INC");
   mkRow (lit "GOOGL") (lit "0001652044") (lit "Alphabet Inc.");
   mkRow (lit "AAPL") (lit "0000320193") (lit "Apple Inc.")].

Lemma single_character_query_witness :
  Suggest.suggest Suggest.codeUnitCompare letter_index (lit "a") (Suggest.Int 10)
  = [mkRow (lit "AAPL") (lit "0000320193") (lit "Apple Inc.");
     mkRow (lit "AMZN") (lit "0001018724") (lit "AMAZON COM INC");
     mkRow (lit "GOOGL") (lit "0001652044") (lit "Alphabet Inc.")].
Proof.
  destruct (@single_character_query Suggest.codeUnitCompare letter_index
              "a"%char (Suggest.Int 10)
              codeUnitCompare_total codeUnitCompare_trans) as [E _].
  change (lit "a") with ["a"%char]. rewrite E. reflexivity.
Defined.

(** The row [BA] scores 75 for the query ["a"], and is left out all the
    same: the single-letter branch does not look at scores. *)
Example single_letter_ignores_scores :
  Suggest.scoreRow (lit "a") (mkRow (lit "BA") (lit "0000012927") (lit "BOEING CO"))
  = 75%Z
  /\ ~ In (mkRow (lit "BA") (lit "0000012927") (lit "BOEING CO"))
          (Suggest.suggest Suggest.codeUnitCompare letter_index (lit "a")
             (Suggest.Int 10)).
Proof.
  split; [reflexivity|].
  vm_compute. intros [H|[H|[H|[]]]]; discriminate H.
Qed.

(** ** Scanning a document *)

Lemma takeWhile_dropWhile (p : ascii -> bool) (s : str) :
  Filings.takeWhile p s ++ dropWhile p s = s.
Proof.
  induction s as [|c s IH]; simpl; [reflexivity|].
  destruct (p c); simpl; [now rewrite IH | reflexivity].
Qed.

Lemma takeWhile_all (p : ascii -> bool) (s : str) :
  Forall (fun c => p c = true) (Filings.takeWhile p s).
Proof.
  induction s as [|c s IH]; simpl; [constructor|].
  destruct (p c) eqn:E; constructor; assumption.
Qed.

Lemma litCI_split (p s rest : str) :
  Filings.litCI p s = Some rest ->
  exists m, s = m ++ rest /\ map toUpper m = map toUpper p.
Proof.
  revert s. induction p as [|x p IH]; intros s H; simpl in H.
  - injection H as <-. now exists [].
  - destruct s as [|y s]; [discriminate|].
    destruct (Ascii.eqb (toUpper x) (toUpper y)) eqn:E; [|discriminate].
    apply Ascii.eqb_eq in E. destruct (IH s H) as [m [-> Hm]].
    exists (y :: m). simpl. now rewrite Hm, E.
Qed.

Lemma In_firstn {A} (n : nat) (l : list A) (x : A) :
  In x (firstn n l) -> In x l.
Proof.
  intro H. rewrite <- (firstn_skipn n l). apply in_or_app. now left.
Qed.

Section ScanFacts.

(** A character that starts every match and occurs nowhere else in one. *)
Variable A : Type.
Variable matchAt : str -> option (A * nat).
Variable head : ascii -> bool.

Hypothesis match_shape :
  forall s a n, matchAt s = Some (a, n) ->
    1 <= n /\ Forall (fun c => head c = false) (firstn (n - 1) (tl s)).

(** An occurrence that starts with the head character and matches where
    it stands is found by the scan, whatever comes before it. *)
Lemma scan_finds (occ post : str) (a : A) (c : ascii) (occ' : str) :
  occ = c :: occ' -> head c = true ->
  matchAt (occ ++ post) = Some (a, length occ) ->
  forall pre skip, skip <= length pre ->
    In a (Filings.scan matchAt skip (pre ++ occ ++ post)).
Proof.
  intros Hocc Hc Hm pre. induction pre as [|p pre IH]; intros skip Hs.
  - assert (skip = 0) by (simpl in Hs; lia). subst skip.
    simpl. rewrite Hocc in *. simpl in *. rewrite Hm. now left.
  - simpl. destruct skip as [|k].
    + destruct (matchAt (p :: pre ++ occ ++ post)) as [[b n]|] eqn:E.
      * right. apply IH.
        destruct (match_shape E) as [N F]. simpl in F.
        destruct (Nat.le_gt_cases (n - 1) (length pre)) as [L|G]; [exact L|].
        exfalso. rewrite firstn_app in F. apply Forall_app in F.
        destruct F as [_ F].
        replace (n - 1 - length pre) with (S (n - 2 - length pre)) in F by lia.
        rewrite Hocc in F. simpl in F. inversion F as [|? ? Hh _]. congruence.
      * apply IH. lia.
    + apply IH. simpl in Hs. lia.
Qed.

End ScanFacts.

(** ** The item-code detector *)

Definition isI (c : ascii) : bool := Ascii.eqb (toUpper c) "I"%char.

Lemma notI_TEM (c : ascii) :
  toUpper c = "T"%char \/ toUpper c = "E"%char \/ toUpper c = "M"%char ->
  isI c = false.
Proof. unfold isI. intros [->|[->| ->]]; reflexivity. Qed.

Lemma notI_space (c : ascii) : isSpace c = true -> isI c = false.
Proof. ascii_cases c; intro H; try discriminate H; reflexivity. Qed.

Lemma notI_digit (c : ascii) : isDigit c = true -> isI c = false.
Proof. ascii_cases c; intro H; try discriminate H; reflexivity. Qed.

Lemma notI_dot (c : ascii) : isDot c = true -> isI c = false.
Proof. ascii_cases c; intro H; try discriminate H; reflexivity. Qed.

(** The text [\d{k}\.\d{2}] spans holds no letter [i]. *)
Lemma majorMinor_notI (k : nat) (s : str) :
  Filings.majorMinor k s = true ->
  Forall (fun c => isI c = false) (firstn (k + 3) s).
Proof.
  unfold Filings.majorMinor. intro H.
  apply andb_true_iff in H. destruct H as [H H3].
  apply andb_true_iff in H. destruct H as [H1 H2].
  apply Nat.eqb_eq in H1.
  rewrite <- (firstn_skipn k s) at 1.
  rewrite firstn_app. apply Forall_app. split.
  - apply Forall_forall. intros c Hc.
    apply In_firstn in Hc.
    rewrite forallb_forall in H2. apply notI_digit. now apply H2.
  - destruct (skipn k s) as [|dot [|m1 [|m2 rest]]]; try discriminate.
    apply andb_true_iff in H3. destruct H3 as [H3 D2].
    apply andb_true_iff in H3. destruct H3 as [D0 D1].
    apply Forall_forall. intros c Hc.
    assert (X : In c [dot; m1; m2]).
    { replace (k + 3 - length (firstn k s)) with 3 in Hc by lia.
      exact Hc. }
    simpl in X. destruct X as [<-|[<-|[<-|[]]]];
      [now apply notI_dot | now apply notI_digit | now apply notI_digit].
Qed.

(** A match of the item pattern is the text it spans, and that text holds
    no letter [i] behind its first character. *)
Lemma itemAt_shape (s m : str) (n : nat) :
  Filings.itemAt s = Some (m, n) ->
  1 <= n /\ m = firstn n s
  /\ Forall (fun c => isI c = false) (firstn (n - 1) (tl s)).
Proof.
  unfold Filings.itemAt.
  destruct (Filings.litCI (lit "Item") s) as [s1|] eqn:L; [|discriminate].
  destruct (litCI_split L) as [m0 [-> Hm0]].
  destruct m0 as [|c0 [|c1 [|c2 [|c3 [|? ?]]]]]; try discriminate Hm0.
  simpl in Hm0. injection Hm0 as _ H1 H2 H3.
  pose proof (takeWhile_dropWhile isSpace s1) as Sp.
  pose proof (takeWhile_all isSpace s1) as Ws.
  set (ws := Filings.takeWhile isSpace s1) in *.
  set (s2 := dropWhile isSpace s1) in *.
  destruct (length ws =? 0) eqn:E0; [discriminate|].
  assert (Shape : forall k, Filings.majorMinor k s2 = true ->
            Forall (fun c => isI c = false)
              (firstn (4 + length ws + k + 3 - 1) (tl ([c0; c1; c2; c3] ++ s1)))).
  { intros k Hk. simpl tl. rewrite <- Sp.
    replace (4 + length ws + k + 3 - 1) with (3 + (length ws + (k + 3))) by lia.
    change ([c1; c2; c3] ++ ws ++ s2) with ([c1; c2; c3] ++ (ws ++ s2)).
    simpl firstn. repeat constructor;
      try (apply notI_TEM; tauto).
    rewrite firstn_app. apply Forall_app. split.
    - apply Forall_forall. intros c Hc.
      apply In_firstn in Hc.
      apply notI_space. rewrite Forall_forall in Ws. now apply Ws.
    - replace (length ws + (k + 3) - length ws) with (k + 3) by lia.
      now apply majorMinor_notI. }
  destruct (Filings.majorMinor 2 s2) eqn:M2.
  - intros [= <- <-]. split; [lia|]. split; [reflexivity|]. now apply Shape.
  - destruct (Filings.majorMinor 1 s2) eqn:M1; [|discriminate].
    intros [= <- <-]. split; [lia|]. split; [reflexivity|]. now apply Shape.
Qed.

Lemma toLower_cases (c x : ascii) : toLower c = x -> c = x \/ c = toUpper x.
Proof.
  intros <-. unfold toLower. destruct (isUpper c) eqn:U; [right | now left].
  revert U. ascii_cases c; intro U; try discriminate U; reflexivity.
Qed.

Lemma toLower_fixed (c x : ascii) : toUpper x = x -> toLower c = x -> c = x.
Proof.
  intros F H. destruct (toLower_cases H) as [E|E]; congruence.
Qed.

Lemma toLowerCase_cons (occ : str) (x : ascii) (code : str) :
  toLowerCase occ = x :: code ->
  exists c occ', occ = c :: occ' /\ (c = x \/ c = toUpper x)
                 /\ toLowerCase occ' = code.
Proof.
  destruct occ as [|c occ']; [discriminate|]. simpl. intros [= H1 H2].
  exists c, occ'. split; [reflexivity|]. split; [now apply toLower_cases | exact H2].
Qed.

Lemma toLowerCase_cons_fixed (occ : str) (x : ascii) (code : str) :
  toUpper x = x ->
  toLowerCase occ = x :: code ->
  exists occ', occ = x :: occ' /\ toLowerCase occ' = code.
Proof.
  intros F H. destruct (toLowerCase_cons H) as [c [occ' [-> [D H']]]].
  exists occ'. split; [|exact H']. destruct D as [->| ->]; congruence.
Qed.

Lemma toLowerCase_nil (occ : str) : toLowerCase occ = [] -> occ = [].
Proof. destruct occ; [reflexivity | discriminate]. Qed.

(** An occurrence of an item code in any letter case, the way it stands in
    the text: the word in either case per letter, one space, the number. *)
Ltac spell_out H :=
  repeat first
    [ apply toLowerCase_cons_fixed in H;
      [destruct H as [? [-> H]] | reflexivity]
    | apply toLowerCase_cons in H;
      destruct H as [? [? [-> [[-> | ->] H]]]] ];
  apply toLowerCase_nil in H; subst.

Lemma itemAt_occurrence (code occ post : str) :
  code = lit "item 1.01" \/ code = lit "item 5.02" ->
  toLowerCase occ = code ->
  Filings.itemAt (occ ++ post) = Some (occ, length occ)
  /\ exists c occ', occ = c :: occ' /\ isI c = true.
Proof.
  intros [-> | ->] H; unfold lit in H; simpl in H; spell_out H;
    (split; [reflexivity | eexists; eexists; split; reflexivity]).
Qed.

Lemma scan_itemAt_finds (code pre occ post : str) :
  code = lit "item 1.01" \/ code = lit "item 5.02" ->
  toLowerCase occ = code ->
  In occ (Filings.scan Filings.itemAt 0 (pre ++ occ ++ post)).
Proof.
  intros Hcode H.
  destruct (itemAt_occurrence post Hcode H) as [M [c [occ' [E I]]]].
  apply (@scan_finds str Filings.itemAt isI) with (c := c) (occ' := occ');
    try assumption; [|lia].
  intros s a n Hm. destruct (itemAt_shape Hm) as [N [_ F]]. now split.
Qed.

Lemma detectItems_items (text : str) :
  fst (Filings.detectItems text) = SetFrom (Filings.scan Filings.itemAt 0 text).
Proof. reflexivity. Qed.

Lemma detectItems_badges (text : str) :
  snd (Filings.detectItems text)
  = (if mem (lit "item 1.01") (map toLowerCase (fst (Filings.detectItems text)))
     then [lit "Material Agreement (Item 1.01)"] else [])
    ++ (if mem (lit "item 5.02") (map toLowerCase (fst (Filings.detectItems text)))
        then [lit "Executive Change (Item 5.02)"] else []).
Proof.
  unfold Filings.detectItems. cbv zeta. cbn [fst snd].
  now rewrite !mem_SetFrom.
Qed.

(** The statement of C7: with both codes in the text, in any letter case,
    [items] holds both codes in normalized spelling and [badges] both
    badges, and no code is in [items] more than once. *)
Definition codeCount (code : str) (items : list str) : nat :=
  length (filter (fun it => str_eqb (toLowerCase it) (toLowerCase code)) items).

Definition item_codes_normalized_and_unique : Prop :=
  forall text pre1 occ1 post1 pre2 occ2 post2,
    text = pre1 ++ occ1 ++ post1 -> toLowerCase occ1 = lit "item 1.01" ->
    text = pre2 ++ occ2 ++ post2 -> toLowerCase occ2 = lit "item 5.02" ->
    let items := fst (Filings.detectItems text) in
    let badges := snd (Filings.detectItems text) in
    In (lit "Item 1.01") items /\ In (lit "Item 5.02") items
    /\ In (lit "Material Agreement (Item 1.01)") badges
    /\ In (lit "Executive Change (Item 5.02)") badges
    /\ codeCount (lit "Item 1.01") items <= 1
    /\ codeCount (lit "Item 5.02") items <= 1.

Definition shouting : str :=
  lit "Item 1.01 Entry into an agreement. ITEM 1.01 (continued). Item 5.02 Departure.".

Example detectItems_shouting :
  Filings.detectItems shouting
  = ([lit "Item 1.01"; lit "ITEM 1.01"; lit "Item 5.02"],
     [lit "Material Agreement (Item 1.01)"; lit "Executive Change (Item 5.02)"]).
Proof. vm_compute. reflexivity. Qed.

(** C7, as stated, fails: [items] holds the matches as they are spelled in
    the text, so a code that the text spells in two ways is there twice. *)
Lemma item_code_twice_in_items : ~ item_codes_normalized_and_unique.
Proof.
  intro H.
  specialize (H shouting
                [] (lit "Item 1.01")
                (lit " Entry into an agreement. ITEM 1.01 (continued). Item 5.02 Departure.")
                (lit "Item 1.01 Entry into an agreement. ITEM 1.01 (continued). ")
                (lit "Item 5.02") (lit " Departure.")
                eq_refl eq_refl eq_refl eq_refl).
  rewrite detectItems_shouting in H. simpl in H.
  destruct H as [_ [_ [_ [_ [H _]]]]].
  vm_compute in H. lia.
Qed.

(** C7, amended.  For a text with an occurrence of "Item 1.01" and one of
    "Item 5.02", each in any letter case and with one space: [items] holds
    both occurrences as the text spells them, [badges] is the Material
    Agreement badge followed by the Executive Change badge, each once, and
    no string is in [items] twice. *)
Theorem item_codes_detected :
  forall text pre1 occ1 post1 pre2 occ2 post2,
    text = pre1 ++ occ1 ++ post1 -> toLowerCase occ1 = lit "item 1.01" ->
    text = pre2 ++ occ2 ++ post2 -> toLowerCase occ2 = lit "item 5.02" ->
    let items := fst (Filings.detectItems text) in
    let badges := snd (Filings.detectItems text) in
    In occ1 items /\ In occ2 items
    /\ badges = [lit "Material Agreement (Item 1.01)";
                 lit "Executive Change (Item 5.02)"]
    /\ NoDup items
    /\ (forall it, In it items -> In it (Filings.scan Filings.itemAt 0 text)).
Proof.
  intros text pre1 occ1 post1 pre2 occ2 post2 T1 L1 T2 L2 items badges.
  assert (I1 : In occ1 items).
  { unfold items. rewrite detectItems_items. apply SetFrom_In.
    rewrite T1. apply scan_itemAt_finds with (code := lit "item 1.01"); tauto. }
  assert (I2 : In occ2 items).
  { unfold items. rewrite detectItems_items. apply SetFrom_In.
    rewrite T2. apply scan_itemAt_finds with (code := lit "item 5.02"); tauto. }
  split; [exact I1|]. split; [exact I2|]. split; [|split].
  - unfold badges. rewrite detectItems_badges. fold items.
    assert (M1 : mem (lit "item 1.01") (map toLowerCase items) = true).
    { apply mem_In. rewrite <- L1. now apply in_map. }
    assert (M2 : mem (lit "item 5.02") (map toLowerCase items) = true).
    { apply mem_In. rewrite <- L2. now apply in_map. }
    rewrite M1, M2. reflexivity.
  - unfold items. rewrite detectItems_items. apply SetFrom_NoDup.
  - intros it Hit. unfold items in Hit. rewrite detectItems_items in Hit.
    rewrite SetFrom_In in Hit. exact Hit.
Qed.

Lemma item_codes_detected_witness :
  In (lit "ITEM 1.01") (fst (Filings.detectItems shouting))
  /\ In (lit "Item 5.02") (fst (Filings.detectItems shouting)).
Proof.
  destruct (@item_codes_detected shouting
              (lit "Item 1.01 Entry into an agreement. ") (lit "ITEM 1.01")
              (lit " (continued). Item 5.02 Departure.")
              (lit "Item 1.01 Entry into an agreement. ITEM 1.01 (continued). ")
              (lit "Item 5.02") (lit " Departure.")
              eq_refl eq_refl eq_refl eq_refl) as [I1 [I2 _]].
  split; assumption.
Defined.

(** ** The amount extractor *)

(** The factor a scale word stands for, if it stands for one. *)
Definition scaleOf (u : option str) : option Num.Number :=
  let unit := toLowerCase (match u with Some w => w | None => [] end) in
  if str_eqb unit (lit "billion") || str_eqb unit (lit "bn")
  then Some (Num.ofInteger 1000000000)
  else if str_eqb unit (lit "million") || str_eqb unit (lit "m")
  then Some (Num.ofInteger 1000000)
  else None.

(** The value of a match in raw units: the double of its numeral without
    the commas, multiplied by the factor of its scale word. *)
Definition normalized (m : Filings.Amount) : Num.Number :=
  let num0 := Filings.parseFloat (removeCommas (Filings.number m)) in
  match scaleOf (Filings.unit_ m) with
  | Some factor => Num.mul num0 factor
  | None => num0
  end.

Lemma amountStep_normalized (max : option Num.Number) (m : Filings.Amount) :
  Filings.amountStep max m =
  if Num.isFinite (normalized m) then
    match max with
    | None => Some (normalized m)
    | Some mx => if Num.gt (normalized m) mx then Some (normalized m) else max
    end
  else max.
Proof.
  unfold normalized, Filings.amountStep, scaleOf. cbv zeta.
  set (unit := toLowerCase match Filings.unit_ m with Some w => w | None => [] end).
  set (num0 := Filings.parseFloat (removeCommas (Filings.number m))).
  destruct (str_eqb unit (lit "billion") || str_eqb unit (lit "bn")) eqn:B.
  - assert (Mil : str_eqb unit (lit "million") || str_eqb unit (lit "m") = false).
    { apply orb_true_iff in B.
      destruct B as [B|B]; apply str_eqb_eq in B; rewrite B; reflexivity. }
    rewrite Mil.
    now destruct (Num.isFinite (Num.mul num0 (Num.ofInteger 1000000000))).
  - destruct (str_eqb unit (lit "million") || str_eqb unit (lit "m")).
    + now destruct (Num.isFinite (Num.mul num0 (Num.ofInteger 1000000))).
    + now destruct (Num.isFinite num0).
Qed.

(** *** Sign and order of the values *)

(** A finite number that is not negative. *)
Definition amountLike (x : Num.Number) : bool :=
  match x with
  | S754_zero _ | S754_finite false _ _ => true
  | _ => false
  end.

(** A number without a minus sign. *)
Definition unsigned (x : Num.Number) : bool :=
  match x with
  | S754_zero s | S754_infinity s | S754_finite s _ _ => negb s
  | S754_nan => true
  end.

Lemma amountLike_intro (x : Num.Number) :
  unsigned x = true -> Num.isFinite x = true -> amountLike x = true.
Proof. destruct x as [s|s| |[] m e]; simpl; intros; congruence. Qed.

Lemma amountLike_finite (x : Num.Number) :
  amountLike x = true -> Num.isFinite x = true.
Proof. destruct x as [s|s| |[] m e]; simpl; intros; congruence. Qed.

Lemma round_unsigned (mx ex : Z) (lx : location) :
  unsigned (binary_round_aux Num.prec Num.emax false mx ex lx) = true.
Proof.
  unfold binary_round_aux.
  destruct (shr_fexp Num.prec Num.emax mx ex lx) as [mrs' e'].
  destruct (shr_fexp Num.prec Num.emax
              (round_nearest_even (shr_m mrs') (loc_of_shr_record mrs'))
              e' loc_Exact) as [mrs'' e''].
  destruct (shr_m mrs'') as [|p|p]; try reflexivity.
  now destruct (Z.leb e'' (Z.sub Num.emax Num.prec)).
Qed.

Lemma ofDecimal_unsigned (digits : Z) (scale : nat) :
  unsigned (Num.ofDecimal digits scale) = true.
Proof.
  destruct digits as [|n|n]; try reflexivity.
  unfold Num.ofDecimal, SFdiv.
  destruct (SFdiv_core_binary Num.prec Num.emax (Zpos n) 0
              (Zpos (Z.to_pos (10 ^ Z.of_nat scale))) 0) as [[mz ez] lz].
  apply round_unsigned.
Qed.

Lemma mul_unsigned (x f : Num.Number) :
  unsigned x = true -> unsigned f = true -> unsigned (Num.mul x f) = true.
Proof.
  unfold Num.mul, SFmul.
  destruct x as [[]|[]| |[] mx ex], f as [[]|[]| |[] mf ef]; simpl;
    intros; try discriminate; try reflexivity.
  apply round_unsigned.
Qed.

Lemma parseFloat_unsigned (s : str) : unsigned (Filings.parseFloat s) = true.
Proof.
  unfold Filings.parseFloat. cbv zeta.
  match goal with |- context [if ?b then _ else _] => destruct b end;
    [reflexivity | apply ofDecimal_unsigned].
Qed.

Lemma scaleOf_unsigned (u : option str) (f : Num.Number) :
  scaleOf u = Some f -> unsigned f = true.
Proof.
  unfold scaleOf. cbv zeta.
  repeat match goal with |- context [if ?b then _ else _] => destruct b end;
    intros [= <-]; reflexivity.
Qed.

Lemma normalized_unsigned (m : Filings.Amount) : unsigned (normalized m) = true.
Proof.
  unfold normalized. cbv zeta.
  destruct (scaleOf (Filings.unit_ m)) as [f|] eqn:S.
  - apply mul_unsigned; [apply parseFloat_unsigned | exact (scaleOf_unsigned S)].
  - apply parseFloat_unsigned.
Qed.

(** On finite numbers that are not negative, [>] is the strict part of a
    total order. *)
Ltac order_cases :=
  repeat match goal with
         | |- context [Z.compare ?a ?b] => destruct (Z.compare_spec a b)
         | |- context [Pos.compare ?a ?b] => destruct (Pos.compare_spec a b)
         end;
  subst; try reflexivity; try discriminate; try lia.

Lemma gt_irrefl (a : Num.Number) : amountLike a = true -> Num.gt a a = false.
Proof.
  unfold Num.gt, SFltb, SFcompare.
  destruct a as [s|s| |[] m e]; simpl; try discriminate; intros _;
    try reflexivity.
  change (Pos.compare_cont Eq m m) with (Pos.compare m m). order_cases.
Qed.

Lemma gt_asym (a b : Num.Number) :
  amountLike a = true -> amountLike b = true ->
  Num.gt a b = true -> Num.gt b a = false.
Proof.
  unfold Num.gt, SFltb, SFcompare.
  destruct a as [s|s| |[] m e], b as [t|t| |[] n f]; simpl; try discriminate;
    intros _ _; try reflexivity; try discriminate.
  change (Pos.compare_cont Eq n m) with (Pos.compare n m).
  change (Pos.compare_cont Eq m n) with (Pos.compare m n). order_cases.
Qed.

Lemma le_trans (a b c : Num.Number) :
  amountLike a = true -> amountLike b = true -> amountLike c = true ->
  Num.gt a b = false -> Num.gt b c = false -> Num.gt a c = false.
Proof.
  unfold Num.gt, SFltb, SFcompare.
  destruct a as [s|s| |[] m e], b as [t|t| |[] n f], c as [u|u| |[] o g];
    simpl; try discriminate; intros _ _ _; try reflexivity; try discriminate.
  change (Pos.compare_cont Eq n m) with (Pos.compare n m).
  change (Pos.compare_cont Eq o n) with (Pos.compare o n).
  change (Pos.compare_cont Eq o m) with (Pos.compare o m). order_cases.
Qed.

Lemma not_gt_leb (a b : Num.Number) :
  amountLike a = true -> amountLike b = true ->
  Num.gt a b = false -> SFleb a b = true.
Proof.
  unfold Num.gt, SFltb, SFleb, SFcompare.
  destruct a as [s|s| |[] m e], b as [t|t| |[] n f]; simpl; try discriminate;
    intros _ _; try reflexivity; try discriminate.
  change (Pos.compare_cont Eq n m) with (Pos.compare n m).
  change (Pos.compare_cont Eq m n) with (Pos.compare m n). order_cases.
Qed.

(** The running maximum of the loop. *)
Lemma amount_loop_max (ms : list Filings.Amount) (acc : option Num.Number) :
  (forall a, acc = Some a -> amountLike a = true) ->
  match fold_left Filings.amountStep ms acc with
  | None =>
      acc = None /\ forall m, In m ms -> Num.isFinite (normalized m) = false
  | Some v =>
      amountLike v = true
      /\ (acc = Some v \/ exists m, In m ms /\ normalized m = v)
      /\ (forall a, acc = Some a -> Num.gt a v = false)
      /\ (forall m, In m ms -> Num.isFinite (normalized m) = true ->
            Num.gt (normalized m) v = false)
  end.
Proof.
  revert acc. induction ms as [|m ms IH]; intros acc A; simpl.
  - destruct acc as [v|].
    + split; [now apply A|]. split; [now left|]. split.
      * intros a [= ->]. apply gt_irrefl. now apply A.
      * intros m [].
    + split; [reflexivity | intros m []].
  - specialize (IH (Filings.amountStep acc m)).
    rewrite amountStep_normalized in IH |- *.
    destruct (Num.isFinite (normalized m)) eqn:Fin.
    + pose proof (amountLike_intro (normalized_unsigned m) Fin) as Am.
      set (acc' := match acc with
                   | None => Some (normalized m)
                   | Some mx => if Num.gt (normalized m) mx
                                then Some (normalized m) else acc
                   end) in *.
      assert (A' : forall a, acc' = Some a -> amountLike a = true).
      { intros a. unfold acc'. destruct acc as [mx|].
        - destruct (Num.gt (normalized m) mx); intros [= <-];
            [exact Am | now apply A].
        - now intros [= <-]. }
      specialize (IH A').
      destruct (fold_left Filings.amountStep ms acc') as [v|] eqn:F.
      * destruct IH as [Av [Src [Acc All]]].
        assert (Step : Num.gt (normalized m) v = false
                       /\ forall a, acc = Some a -> Num.gt a v = false).
        { unfold acc' in Acc. destruct acc as [mx|].
          - pose proof (A mx eq_refl) as Amx.
            destruct (Num.gt (normalized m) mx) eqn:G.
            + specialize (Acc _ eq_refl). split; [exact Acc|].
              intros a [= <-].
              apply (le_trans Amx Am Av); [|exact Acc].
              now apply gt_asym.
            + specialize (Acc _ eq_refl). split.
              * now apply (le_trans Am Amx Av).
              * now intros a [= <-].
          - specialize (Acc _ eq_refl). split; [exact Acc | discriminate]. }
        destruct Step as [Num Old]. split; [exact Av|]. split; [|split].
        -- destruct Src as [Src|[m' [Hin HN]]].
           ++ unfold acc' in Src. destruct acc as [mx|].
              ** destruct (Num.gt (normalized m) mx); [|now left].
                 injection Src as <-. right. exists m. split; [now left|].
                 reflexivity.
              ** injection Src as <-. right. exists m. split; [now left|].
                 reflexivity.
           ++ right. exists m'. split; [now right | assumption].
        -- exact Old.
        -- intros m' [<-|Hin] Hx; [exact Num | now apply All].
      * exfalso. destruct IH as [Acc _]. unfold acc' in Acc.
        destruct acc as [mx|]; [|discriminate].
        destruct (Num.gt (normalized m) mx); [discriminate|].
        discriminate.
    + specialize (IH A).
      destruct (fold_left Filings.amountStep ms acc) as [v|].
      * destruct IH as [Av [Src [Acc All]]]. split; [exact Av|].
        split; [|split].
        -- destruct Src as [Src|[m' [Hin HN]]]; [now left|].
           right. exists m'. split; [now right | assumption].
        -- exact Acc.
        -- intros m' [<-|Hin] Hx; [congruence | now apply All].
      * destruct IH as [Acc All]. split; [exact Acc|].
        intros m' [<-|Hin]; [exact Fin | now apply All].
Qed.

Lemma scan_from_match {A} (matchAt : str -> option (A * nat)) (skip : nat)
    (text : str) (a : A) :
  In a (Filings.scan matchAt skip text) -> exists s n, matchAt s = Some (a, n).
Proof.
  revert skip. induction text as [|c text IH]; intros skip H; simpl in H;
    [destruct H|].
  destruct skip as [|k]; [|now apply (IH k)].
  destruct (matchAt (c :: text)) as [[b n]|] eqn:E; [|now apply (IH 0)].
  destruct H as [<-|H]; [now exists (c :: text), n | now apply (IH (n - 1))].
Qed.

Definition offering_text : str :=
  lit "We expect net proceeds of $2.5 million; the base offering is $10,000,000 and the shelf covers up to $1 billion of securities.".

(** A numeral of 310 digits, too large for a double: 1 followed by 103
    groups of three zeros, in billions. *)
Definition overflowing_text : str :=
  lit "$1" ++ concat (repeat (lit ",000") 103) ++ lit " billion".

(** The statement of C8: the amount is unset when there is no match, and
    otherwise it is the largest normalized value of a match. *)
Definition amount_is_maximum_of_matches : Prop :=
  forall text : str,
    let matches := Filings.scan Filings.amountAt 0 text in
    (matches = [] -> Filings.extractLargestAmount text = None)
    /\ (matches <> [] ->
        exists v,
          Filings.extractLargestAmount text = Some v
          /\ (exists m, In m matches /\ normalized m = v)
          /\ forall m, In m matches -> Num.gt (normalized m) v = false).

Example overflowing_text_matches :
  length (Filings.scan Filings.amountAt 0 overflowing_text) = 1
  /\ map normalized (Filings.scan Filings.amountAt 0 overflowing_text)
     = [S754_infinity false]
  /\ Filings.extractLargestAmount overflowing_text = None.
Proof. vm_compute. repeat split. Qed.

(** C8, as stated, fails: a numeral that overflows to [Infinity] is a
    match, but the loop skips every value that is not finite, so the amount
    of a document whose only numeral overflows stays unset. *)
Lemma overflowing_numeral_leaves_amount_unset : ~ amount_is_maximum_of_matches.
Proof.
  intro H. destruct (H overflowing_text) as [_ Set_].
  destruct overflowing_text_matches as [L [_ E]].
  destruct Set_ as [v [E' _]].
  - intro N. rewrite N in L. discriminate L.
  - rewrite E in E'. discriminate E'.
Qed.

(** C8, amended.  The value of a match is the double nearest to its numeral,
    multiplied in double arithmetic by 10^9 for [billion]/[bn] and by 10^6
    for [million]/[m] (in any letter case), and left as it is without a
    scale word.  The loop skips the values that are not finite.  The
    extractor returns the largest finite value over all matches of the
    document, and nothing exactly when no match has a finite value, in
    particular when there is no match.  For a text with the amounts
    "$2.5 million", "$10,000,000" and "$1 billion" the values are 2,500,000,
    10,000,000 and 1,000,000,000, and the result is 1,000,000,000. *)
Theorem largest_finite_amount_extracted :
  forall text : str,
    let matches := Filings.scan Filings.amountAt 0 text in
    (Filings.extractLargestAmount text = None <->
     forall m, In m matches -> Num.isFinite (normalized m) = false)
    /\ (matches = [] -> Filings.extractLargestAmount text = None)
    /\ (forall v, Filings.extractLargestAmount text = Some v ->
          Num.isFinite v = true
          /\ (exists m, In m matches /\ normalized m = v)
          /\ (forall m, In m matches -> Num.isFinite (normalized m) = true ->
                Num.gt (normalized m) v = false
                /\ SFleb (normalized m) v = true))
    /\ (forall max m,
          Filings.amountStep max m =
          if Num.isFinite (normalized m) then
            match max with
            | None => Some (normalized m)
            | Some mx =>
                if Num.gt (normalized m) mx then Some (normalized m) else max
            end
          else max)
    /\ (forall m,
          normalized m =
          let num0 := Filings.parseFloat (removeCommas (Filings.number m)) in
          match scaleOf (Filings.unit_ m) with
          | Some factor => Num.mul num0 factor
          | None => num0
          end)
    /\ (forall u, toLowerCase u = lit "billion" \/ toLowerCase u = lit "bn" ->
          scaleOf (Some u) = Some (Num.ofInteger 1000000000))
    /\ (forall u, toLowerCase u = lit "million" \/ toLowerCase u = lit "m" ->
          scaleOf (Some u) = Some (Num.ofInteger 1000000))
    /\ scaleOf None = None
    /\ map normalized (Filings.scan Filings.amountAt 0 offering_text)
       = [Num.ofInteger 2500000; Num.ofInteger 10000000;
          Num.ofInteger 1000000000]
    /\ Filings.extractLargestAmount offering_text
       = Some (Num.ofInteger 1000000000).
Proof.
  intros text matches.
  pose proof (@amount_loop_max matches None ltac:(discriminate)) as L.
  change (fold_left Filings.amountStep matches None)
    with (Filings.extractLargestAmount text) in L.
  split; [|split; [|split; [|split; [|split; [|split; [|split; [|split;
    [|split]]]]]]]].
  - split.
    + intro E. rewrite E in L. now destruct L as [_ L].
    + intro N. destruct (Filings.extractLargestAmount text) as [v|];
        [|reflexivity].
      exfalso. destruct L as [Av [[Src|[m [Hm E]]] _]]; [discriminate|].
      apply amountLike_finite in Av. rewrite <- E, (N m Hm) in Av.
      discriminate.
  - intro E. unfold Filings.extractLargestAmount. fold matches.
    now rewrite E.
  - intros v E. rewrite E in L. destruct L as [Av [[Src|Src] [_ All]]];
      [discriminate|].
    split; [now apply amountLike_finite|]. split; [exact Src|].
    intros m Hm Fin. split; [now apply All|].
    apply not_gt_leb; [|exact Av | now apply All].
    apply amountLike_intro; [apply normalized_unsigned | exact Fin].
  - intros max m. apply amountStep_normalized.
  - reflexivity.
  - intros u [E|E]; unfold scaleOf; cbv zeta; rewrite E; reflexivity.
  - intros u [E|E]; unfold scaleOf; cbv zeta; rewrite E; reflexivity.
  - reflexivity.
  - vm_compute. reflexivity.
  - vm_compute. reflexivity.
Qed.

Example amounts_of_offering_text :
  map (fun m => (Filings.number m, Filings.unit_ m))
      (Filings.scan Filings.amountAt 0 offering_text)
  = [(lit "2.5", Some (lit "million")); (lit "10,000,000", None);
     (lit "1", Some (lit "billion"))].
Proof. vm_compute. reflexivity. Qed.

(** ** The filing enrichment loop *)

(** A document fetch fails when the request is rejected, the status is not
    ok, or the body cannot be read. *)
Definition fetchFailed (t : Response) : bool :=
  match t with
  | Http true _ _ _ (Ok _) => false
  | _ => true
  end.

Definition unenriched : list str * list str * option Num.Number :=
  ([], [], None).

(** What the loop body has in [items], [badges] and [amount_usd] after the
    [try] statement, given the response to the document fetch. *)
Definition minedFrom (formCode : str) (t : Response)
    : list str * list str * option Num.Number :=
  match t with
  | Http true _ _ _ (Ok raw) =>
      let text := Filings.stripTags raw in
      let found :=
        if startsWith (lit "8-K") (toUpperCase formCode)
        then Filings.detectItems text else ([], []) in
      let amount :=
        if mem (toUpperCase formCode) Filings.OFFERING_FORMS
        then Filings.extractLargestAmount text else None in
      (fst found, snd found, amount)
  | _ => unenriched
  end.

Lemma minedFrom_failed (formCode : str) (t : Response) :
  fetchFailed t = true -> minedFrom formCode t = unenriched.
Proof.
  destruct t as [e|[] st stt j [raw|e]]; simpl; try reflexivity. discriminate.
Qed.

Lemma mine_caught (net : Network) (url formCode : str) (s : Proc) :
  tryCatch (t <- fetch net url ;; Filings.mine formCode t)
           (fun _ => ret ([], [], None)) s
  = (Ok (minedFrom formCode (net (fetchCount s) url)), after (EvFetch url) s).
Proof.
  unfold tryCatch, bind. rewrite fetch_run.
  destruct (net (fetchCount s) url) as [e|[] st stt j [raw|e]]; reflexivity.
Qed.

(** The document the loop fetches for filing [i], if any. *)
Definition docUrl (cikParam : str) (recent : Recent) (i : nat) : option str :=
  match Filings.primaryUrl cikParam recent i with
  | Some url => if Filings.isHtmlLike url then Some url else None
  | None => None
  end.

Definition formCodeOf (recent : Recent) (i : nat) : str :=
  jsStringOrEmpty (nth_error (form recent) i).

Lemma enrichOne_run (net : Network) (cikParam name : str) (recent : Recent)
    (i : nat) (s : Proc) :
  Filings.enrichOne net cikParam name recent i s =
  match docUrl cikParam recent i with
  | Some url =>
      (Ok (Filings.record cikParam name recent i
             (minedFrom (formCodeOf recent i) (net (fetchCount s) url))),
       after (EvFetch url) s)
  | None => (Ok (Filings.record cikParam name recent i unenriched), s)
  end.
Proof.
  unfold Filings.enrichOne, docUrl. cbv zeta. unfold bind at 1.
  destruct (Filings.primaryUrl cikParam recent i) as [url|]; [|reflexivity].
  destruct (Filings.isHtmlLike url); [|reflexivity].
  rewrite mine_caught. reflexivity.
Qed.

(** The list the loop builds, filing by filing; [count] is the number of
    fetches made before the filing at the head of [indices]. *)
Fixpoint enriched (net : Network) (cikParam name : str) (recent : Recent)
    (indices : list nat) (count : nat) : list Filings.Filing :=
  match indices with
  | [] => []
  | i :: rest =>
      match docUrl cikParam recent i with
      | Some url =>
          Filings.record cikParam name recent i
            (minedFrom (formCodeOf recent i) (net count url))
          :: enriched net cikParam name recent rest (S count)
      | None =>
          Filings.record cikParam name recent i unenriched
          :: enriched net cikParam name recent rest count
      end
  end.

(** The loop never throws. *)
Lemma enrichLoop_run (net : Network) (cikParam name : str) (recent : Recent)
    (indices : list nat) (s : Proc) :
  exists s',
    Filings.enrichLoop net cikParam name recent indices s
    = (Ok (enriched net cikParam name recent indices (fetchCount s)), s').
Proof.
  revert s. induction indices as [|i rest IH]; intro s; simpl.
  - now exists s.
  - unfold bind at 1. rewrite enrichOne_run.
    destruct (docUrl cikParam recent i) as [url|].
    + destruct (IH (after (EvFetch url) s)) as [s' E].
      unfold bind at 1. rewrite E. now exists s'.
    + destruct (IH s) as [s' E].
      unfold bind at 1. rewrite E. now exists s'.
Qed.

(** The number of document fetches the loop makes before filing [i]. *)
Definition fetchesBefore (cikParam : str) (recent : Recent) (indices : list nat)
    : nat :=
  length (filter (fun j => match docUrl cikParam recent j with
                           | Some _ => true | None => false end) indices).

Lemma enriched_nth (net : Network) (cikParam name : str) (recent : Recent)
    (indices : list nat) (count k i : nat) :
  nth_error indices k = Some i ->
  nth_error (enriched net cikParam name recent indices count) k =
  Some (Filings.record cikParam name recent i
          match docUrl cikParam recent i with
          | Some url =>
              minedFrom (formCodeOf recent i)
                (net (count + fetchesBefore cikParam recent (firstn k indices)) url)
          | None => unenriched
          end).
Proof.
  revert count k. induction indices as [|j rest IH]; intros count k H.
  - destruct k; discriminate.
  - destruct k as [|k]; simpl in H.
    + injection H as ->. simpl. unfold fetchesBefore. simpl.
      rewrite Nat.add_0_r. now destruct (docUrl cikParam recent i).
    + simpl enriched. unfold fetchesBefore. simpl firstn. simpl filter.
      destruct (docUrl cikParam recent j) as [u|]; simpl nth_error.
      * rewrite (IH (S count) k H). unfold fetchesBefore. simpl length.
        now rewrite Nat.add_succ_r.
      * now rewrite (IH count k H).
Qed.

Lemma enriched_length (net : Network) (cikParam name : str) (recent : Recent)
    (indices : list nat) (count : nat) :
  length (enriched net cikParam name recent indices count) = length indices.
Proof.
  revert count. induction indices as [|i rest IH]; intro count; simpl;
    [reflexivity|].
  destruct (docUrl cikParam recent i); simpl; now rewrite IH.
Qed.

Lemma firstn_seq_le (a i n : nat) : i < n -> firstn i (seq a n) = seq a i.
Proof.
  revert a n. induction i as [|i IH]; intros a n H; [reflexivity|].
  destruct n as [|n]; [lia|]. simpl. f_equal. apply IH. lia.
Qed.

(** Two records of the same filing: they agree on everything but [items],
    [badges] and [amount_usd]. *)
Definition sameFiling (a b : Filings.Filing) : Prop :=
  Filings.f_cik a = Filings.f_cik b
  /\ Filings.f_company a = Filings.f_company b
  /\ Filings.f_form a = Filings.f_form b
  /\ Filings.f_filed_at a = Filings.f_filed_at b
  /\ Filings.f_title a = Filings.f_title b
  /\ Filings.f_source_url a = Filings.f_source_url b
  /\ Filings.f_primary_doc_url a = Filings.f_primary_doc_url b.

Definition submissionsUrl (cikParam : str) : str :=
  lit "https://data.sec.gov/submissions/CIK" ++ zeroPadCIK cikParam ++ lit ".json".

(** With a filing index in hand, [GET] answers with what the loop built. *)
Lemma GET_runs_loop (net : Network) (cikParam : str) (s : Proc)
    (status statusText : str) (data : Json) (text : result str) :
  net (fetchCount s) (submissionsUrl cikParam)
  = Http true status statusText (Ok data) text ->
  Filings.lacksColumn data = false ->
  forall out s',
    Filings.enrichLoop net cikParam (Filings.companyName data)
      (Filings.recentOf data)
      (seq 0 (Nat.min 12 (length (accessionNumber (Filings.recentOf data)))))
      (after (EvFetch (submissionsUrl cikParam)) s) = (Ok out, s') ->
    Filings.GET net cikParam s = (Ok (Filings.Listing out), s').
Proof.
  intros R C out s' E. unfold Filings.GET, tryCatch. cbv zeta.
  unfold bind at 1. rewrite fetch_run.
  fold (submissionsUrl cikParam). rewrite R, C. cbn [andb].
  unfold bind at 1. rewrite E. reflexivity.
Qed.

(** C9.  Whatever the network answers, the enrichment loop of [GET] returns
    a list, one record per filing in the order of the filing index, of
    length [min 12] of the number of accession numbers, and [GET] answers
    with that list.  Record [i] is the record of filing [i] with what was
    mined from the response to its one document fetch; when that fetch fails
    (rejected, status not ok, or unreadable body) the record has empty
    [items] and [badges] and no [amount_usd].  Under any other network the
    list has the same length and the same filings at the same positions. *)
Theorem degraded_enrichment_is_isolated :
  forall (net : Network) (cikParam name : str) (recent : Recent) (s : Proc),
    let n := Nat.min 12 (length (accessionNumber recent)) in
    exists out s',
      Filings.enrichLoop net cikParam name recent (seq 0 n) s = (Ok out, s')
      /\ length out = n
      /\ (forall i, i < n ->
            exists r,
              nth_error out i = Some r
              /\ sameFiling r (Filings.record cikParam name recent i unenriched)
              /\ (docUrl cikParam recent i = None ->
                  r = Filings.record cikParam name recent i unenriched)
              /\ (forall url, docUrl cikParam recent i = Some url ->
                    let t := net (fetchCount s
                                  + fetchesBefore cikParam recent (seq 0 i)) url in
                    r = Filings.record cikParam name recent i
                          (minedFrom (formCodeOf recent i) t)
                    /\ (fetchFailed t = true ->
                        r = Filings.record cikParam name recent i unenriched
                        /\ Filings.f_items r = []
                        /\ Filings.f_badges r = []
                        /\ Filings.f_amount_usd r = None)))
      /\ (forall net' s0,
            exists out' s0',
              Filings.enrichLoop net' cikParam name recent (seq 0 n) s0
              = (Ok out', s0')
              /\ length out' = length out
              /\ forall i a b, nth_error out i = Some a ->
                               nth_error out' i = Some b -> sameFiling a b)
      /\ (forall s0 status statusText text,
            net (fetchCount s0) (submissionsUrl cikParam)
            = Http true status statusText
                (Ok (JSubmissions (Some name) None (Some recent))) text ->
            name <> [] ->
            s = after (EvFetch (submissionsUrl cikParam)) s0 ->
            Filings.GET net cikParam s0 = (Ok (Filings.Listing out), s')).
Proof.
  intros net cikParam name recent s n.
  destruct (enrichLoop_run net cikParam name recent (seq 0 n) s) as [s' E].
  exists (enriched net cikParam name recent (seq 0 n) (fetchCount s)), s'.
  assert (Nth : forall net0 c i, i < n ->
            nth_error (enriched net0 cikParam name recent (seq 0 n) c) i =
            Some (Filings.record cikParam name recent i
                    match docUrl cikParam recent i with
                    | Some url =>
                        minedFrom (formCodeOf recent i)
                          (net0 (c + fetchesBefore cikParam recent (seq 0 i)) url)
                    | None => unenriched
                    end)).
  { intros net0 c i Hi.
    assert (K : nth_error (seq 0 n) i = Some i).
    { rewrite nth_error_nth' with (d := 0) by (rewrite length_seq; lia).
      now rewrite seq_nth. }
    rewrite (enriched_nth net0 cikParam name recent c K).
    rewrite (firstn_seq_le 0 Hi). reflexivity. }
  split; [exact E|]. split; [|split; [|split]].
  - rewrite enriched_length. apply length_seq.
  - intros i Hi. eexists. split; [apply (Nth net _ i Hi)|]. split; [|split].
    + unfold sameFiling, Filings.record. simpl. repeat split.
    + intros ->. reflexivity.
    + intros url D. cbv zeta. rewrite D. split; [reflexivity|].
      intro F. rewrite (minedFrom_failed _ F). repeat split.
  - intros net' s0.
    destruct (enrichLoop_run net' cikParam name recent (seq 0 n) s0) as [s0' E'].
    exists (enriched net' cikParam name recent (seq 0 n) (fetchCount s0)), s0'.
    split; [exact E'|]. split; [now rewrite !enriched_length|].
    intros i a b Ha Hb.
    assert (Hi : i < n).
    { assert (X : nth_error
                    (enriched net cikParam name recent (seq 0 n) (fetchCount s)) i
                  <> None) by congruence.
      apply nth_error_Some in X.
      rewrite enriched_length, length_seq in X. exact X. }
    rewrite (Nth net _ i Hi) in Ha. rewrite (Nth net' _ i Hi) in Hb.
    injection Ha as <-. injection Hb as <-.
    unfold sameFiling, Filings.record. simpl. repeat split.
  - intros s0 status statusText text R Hname Hs.
    apply (GET_runs_loop R eq_refl).
    assert (Nm : Filings.companyName (JSubmissions (Some name) None (Some recent))
                 = name).
    { destruct name; [contradiction | reflexivity]. }
    rewrite Nm. simpl Filings.recentOf. fold n. rewrite <- Hs. exact E.
Qed.

(** A registrant with two event reports; the first document cannot be
    fetched, the second reports a departure. *)
Definition acme : Network :=
  fun n _ =>
    match n with
    | 0 => Http true (lit "200") (lit "OK")
             (Ok (JSubmissions (Some (lit "ACME CORP")) None
                    (Some (mkRecent
                             [lit "0000320193-24-000001"; lit "0000320193-24-000002"]
                             [lit "8-K"; lit "8-K"]
                             [lit "2024-05-02"; lit "2024-02-01"]
                             [lit "a8k.htm"; lit "b8k.htm"]))))
             (Ok [])
    | 1 => NetworkError (lit "socket hang up")
    | _ => Http true (lit "200") (lit "OK") (Throw (lit "not JSON"))
             (Ok (lit "<p><b>Item 5.02</b> Departure of Directors</p>"))
    end.

Example filings_GET_degraded :
  match fst (Filings.GET acme (lit "320193") initial) with
  | Ok (Filings.Listing out) =>
      map Filings.f_items out = [[]; [lit "Item 5.02"]]
      /\ map Filings.f_badges out = [[]; [lit "Executive Change (Item 5.02)"]]
      /\ map Filings.f_amount_usd out = [None; None]
      /\ map Filings.f_primary_doc_url out
         = [Some (lit "https://www.sec.gov/Archives/edgar/data/320193/000032019324000001/a8k.htm");
            Some (lit "https://www.sec.gov/Archives/edgar/data/320193/000032019324000002/b8k.htm")]
  | _ => False
  end.
Proof. vm_compute. repeat split. Qed.

(* ================================================================== *)
(** * Part III: further properties of the routes and the page *)
(* ================================================================== *)

(** ** More on strings *)

Lemma isDigit_toUpper (c : ascii) : isDigit (toUpper c) = isDigit c.
Proof. ascii_cases c; reflexivity. Qed.

Lemma toUpperCase_idem (s : str) : toUpperCase (toUpperCase s) = toUpperCase s.
Proof. apply upperFixed_eq, upperFixed_upper. Qed.

Lemma dropWhile_idem (p : ascii -> bool) (s : str) :
  dropWhile p (dropWhile p s) = dropWhile p s.
Proof.
  induction s as [|c s IH]; simpl; [reflexivity|].
  destruct (p c) eqn:E; [exact IH | simpl; now rewrite E].
Qed.

Lemma dropWhile_snoc (p : ascii -> bool) (s : str) (c : ascii) :
  p c = false -> dropWhile p (s ++ [c]) = dropWhile p s ++ [c].
Proof.
  intro H. induction s as [|d s IH]; simpl; [now rewrite H|].
  destruct (p d); [exact IH | reflexivity].
Qed.

(** What [trimStart] returns is empty or starts with a character that is
    not white space, and [trimEnd] keeps that. *)
Definition startsClean (s : str) : Prop :=
  match s with [] => True | c :: _ => isSpace c = false end.

Lemma trimStart_clean (s : str) : startsClean (trimStart s).
Proof.
  unfold trimStart. induction s as [|c s IH]; simpl; [exact I|].
  destruct (isSpace c) eqn:E; [exact IH | exact E].
Qed.

Lemma trimEnd_clean (s : str) : startsClean s -> startsClean (trimEnd s).
Proof.
  destruct s as [|c s]; [intros _; exact I|]. simpl. intro H.
  unfold trimEnd. simpl rev. rewrite (dropWhile_snoc _ H).
  rewrite rev_app_distr. simpl. exact H.
Qed.

Lemma dropWhile_clean (s : str) : startsClean s -> dropWhile isSpace s = s.
Proof. destruct s as [|c s]; simpl; [reflexivity | now intros ->]. Qed.

Lemma trim_idem (s : str) : trim (trim s) = trim s.
Proof.
  change (trim (trim s))
    with (trimEnd (dropWhile isSpace (trimEnd (trimStart s)))).
  rewrite (dropWhile_clean (trimEnd_clean (trimStart_clean s))).
  unfold trim, trimEnd. rewrite rev_involutive, dropWhile_idem. reflexivity.
Qed.

Lemma dropWhile_upper (s : str) :
  dropWhile isSpace (toUpperCase s) = toUpperCase (dropWhile isSpace s).
Proof.
  induction s as [|c s IH]; simpl; [reflexivity|].
  rewrite isSpace_toUpper. destruct (isSpace c); [exact IH | reflexivity].
Qed.

Lemma trim_upper (s : str) : trim (toUpperCase s) = toUpperCase (trim s).
Proof.
  unfold trim, trimStart, trimEnd. rewrite dropWhile_upper.
  unfold toUpperCase at 1. rewrite <- map_rev.
  fold (toUpperCase (rev (dropWhile isSpace s))).
  rewrite dropWhile_upper. unfold toUpperCase. now rewrite map_rev.
Qed.

Lemma stripNonDigits_upper (s : str) :
  stripNonDigits (toUpperCase s) = stripNonDigits s.
Proof.
  unfold stripNonDigits. induction s as [|c s IH]; simpl; [reflexivity|].
  rewrite isDigit_toUpper. destruct (isDigit c) eqn:E; [|exact IH].
  rewrite IH. f_equal. now apply isDigit_plain.
Qed.

Lemma plainKey_upper (s : str) : plainKey (toUpperCase s) = plainKey s.
Proof. unfold plainKey. now rewrite toUpperCase_idem. Qed.

Lemma plainKey_trim (s : str) : plainKey (trim s) = plainKey s.
Proof. unfold plainKey. now rewrite <- trim_upper, trim_idem. Qed.

(** ** Canonical ids, once more *)

Lemma pad10_digits (x : str) : forallb isDigit (pad10 x) = true.
Proof.
  apply forallb_forall. intros c Hc. unfold pad10, padStart0 in Hc.
  apply in_app_or in Hc. destruct Hc as [Hc|Hc].
  - apply repeat_spec in Hc. now subst.
  - unfold stripNonDigits in Hc. apply filter_In in Hc. tauto.
Qed.

Lemma pad10_fixed (x : str) :
  forallb isDigit x = true -> 10 <= length x -> pad10 x = x.
Proof.
  intros D L. unfold pad10, padStart0, stripNonDigits.
  rewrite (filter_all D).
  replace (10 - length x) with 0 by lia. reflexivity.
Qed.

(** X1.  [pad10] is idempotent; a string of ten or more digits is its own
    canonical form, and a shorter string of digits gets exactly the zeros it
    lacks in front. *)
Theorem pad10_idempotent :
  forall x : str,
    pad10 (pad10 x) = pad10 x
    /\ (forallb isDigit x = true -> 10 <= length x -> pad10 x = x)
    /\ (forallb isDigit x = true -> length x <= 10 ->
        pad10 x = repeat "0"%char (10 - length x) ++ x
        /\ length (pad10 x) = 10).
Proof.
  intro x. split; [|split].
  - apply pad10_fixed; [apply pad10_digits|].
    unfold pad10. rewrite padStart0_length. lia.
  - apply pad10_fixed.
  - intros D L. unfold pad10, stripNonDigits. rewrite (filter_all D).
    split; [reflexivity | rewrite padStart0_length; lia].
Qed.

Lemma pad10_idempotent_witness :
  pad10 (lit "0000320193") = lit "0000320193"
  /\ pad10 (lit "320193") = repeat "0"%char 4 ++ lit "320193".
Proof.
  destruct (pad10_idempotent (lit "0000320193")) as [_ [F _]].
  destruct (pad10_idempotent (lit "320193")) as [_ [_ S]].
  split.
  - apply F; [reflexivity | simpl; lia].
  - apply S; [reflexivity | simpl; lia].
Defined.

(** ** The variants of a symbol *)

Lemma SetFrom_same (u : str) (n : nat) : SetFrom (u :: repeat u n) = [u].
Proof.
  unfold SetFrom. simpl.
  induction n as [|n IH]; simpl; [reflexivity|].
  now rewrite str_eqb_refl.
Qed.

Lemma plain_symbol_variants (u : str) :
  forallb (fun c => negb (isDot c || isDash c)) u = true ->
  removeDots u = u /\ dotsToDashes u = u /\ stripDotDash u = u.
Proof.
  intro H. rewrite forallb_forall in H.
  assert (D : forall c, In c u -> isDot c = false).
  { intros c Hc. specialize (H c Hc). apply negb_true_iff in H.
    apply orb_false_iff in H. tauto. }
  split; [|split].
  - apply filter_all, forallb_forall. intros c Hc. now rewrite (D c Hc).
  - unfold dotsToDashes. rewrite <- (map_id u) at 2. apply map_ext_in.
    intros c Hc. now rewrite (D c Hc).
  - apply filter_all, forallb_forall. exact H.
Qed.

(** X2.  The variants [norms] lists for a symbol are the upper-cased and
    trimmed symbol [u], [u] without dots, [u] with dashes for dots, and [u]
    without dots and dashes, each once: both revisions list the same one to
    four strings, all with the plain key of the symbol, and a symbol without
    dots and dashes has the single variant [u]. *)
Theorem symbol_variants :
  forall sym : str,
    let u := trim (toUpperCase sym) in
    NoDup (Lookup.norms sym) /\ NoDup (KvRoutes.norms sym)
    /\ (forall v, In v (Lookup.norms sym) <->
                  v = u \/ v = removeDots u \/ v = dotsToDashes u
                  \/ v = stripDotDash u)
    /\ (forall v, In v (Lookup.norms sym) <-> In v (KvRoutes.norms sym))
    /\ (forall v, In v (Lookup.norms sym) -> stripDotDash v = plainKey sym)
    /\ 1 <= length (Lookup.norms sym) <= 4
    /\ (forallb (fun c => negb (isDot c || isDash c)) u = true ->
        Lookup.norms sym = [u] /\ KvRoutes.norms sym = [u]).
Proof.
  intros sym u.
  assert (Spec : forall v, In v (Lookup.norms sym) <->
                   v = u \/ v = removeDots u \/ v = dotsToDashes u
                   \/ v = stripDotDash u).
  { intro v. rewrite Lookup_norms_spec. cbv zeta. fold u. simpl.
    intuition congruence. }
  split; [apply SetFrom_NoDup|]. split; [apply SetFrom_NoDup|].
  split; [exact Spec|]. split; [|split; [|split]].
  - intro v. now rewrite Lookup_norms_spec, KvRoutes_norms_spec.
  - intros v. apply Lookup_norms_plain.
  - split.
    + pose proof (Lookup_norms_upper sym) as H.
      destruct (Lookup.norms sym); [destruct H | simpl; lia].
    + change 4 with (length [u; removeDots u; dotsToDashes u; stripDotDash u]).
      apply NoDup_incl_length; [apply SetFrom_NoDup|].
      intros v Hv. apply Spec in Hv. simpl. intuition congruence.
  - intro H. destruct (plain_symbol_variants H) as [R [D P]].
    unfold Lookup.norms, KvRoutes.norms. cbv zeta. fold u. rewrite R, D, P.
    split; [apply (SetFrom_same u 4) | apply (SetFrom_same u 3)].
Qed.

(** ** Leading zeros of the path parameter *)

Lemma digit_not_sign (c : ascii) :
  isDigit c = true ->
  Ascii.eqb c "-"%char = false /\ Ascii.eqb c "+"%char = false.
Proof. ascii_cases c; intro H; try discriminate H; split; reflexivity. Qed.

Definition isZero (c : ascii) : bool := Ascii.eqb c "0"%char.

Lemma parseIntText_digits (h : ascii) (t : str) :
  isDigit h = true ->
  Filings.parseIntText (h :: t) =
  match dropWhile isZero (Filings.takeWhile isDigit (h :: t)) with
  | [] => lit "0"
  | sig => sig
  end.
Proof.
  intro D. unfold Filings.parseIntText, trimStart.
  destruct (isDigit_plain D) as [_ [Sp _]].
  destruct (digit_not_sign D) as [M P].
  simpl dropWhile. rewrite Sp, M, P. simpl Filings.takeWhile. rewrite D.
  reflexivity.
Qed.

Lemma takeWhile_zeros (k : nat) (s : str) :
  Filings.takeWhile isDigit (repeat "0"%char k ++ s)
  = repeat "0"%char k ++ Filings.takeWhile isDigit s.
Proof. induction k as [|k IH]; simpl; [reflexivity | now rewrite IH]. Qed.

Lemma dropWhile_zeros (k : nat) (s : str) :
  dropWhile isZero (repeat "0"%char k ++ s) = dropWhile isZero s.
Proof. induction k as [|k IH]; simpl; [reflexivity | exact IH]. Qed.

(** X3.  The archive URLs of the filings route do not depend on leading
    zeros of the path parameter: for a parameter that starts with a digit,
    [parseInt] reads the same number with any number of zeros in front, in
    particular after [zeroPadCIK], so the base URL and the primary document
    URL of every filing stay the same. *)
Theorem archive_url_ignores_padding :
  forall (k : nat) (d : ascii) (c : str) (recent : Recent) (i : nat),
    isDigit d = true ->
    Filings.parseIntText (repeat "0"%char k ++ d :: c)
    = Filings.parseIntText (d :: c)
    /\ Filings.parseIntText (zeroPadCIK (d :: c)) = Filings.parseIntText (d :: c)
    /\ Filings.baseUrl (zeroPadCIK (d :: c)) recent i
       = Filings.baseUrl (d :: c) recent i
    /\ Filings.primaryUrl (zeroPadCIK (d :: c)) recent i
       = Filings.primaryUrl (d :: c) recent i.
Proof.
  intros k d c recent i D.
  assert (P : forall n, Filings.parseIntText (repeat "0"%char n ++ d :: c)
                        = Filings.parseIntText (d :: c)).
  { intro n. rewrite (parseIntText_digits c D). destruct n as [|n].
    - simpl app. now rewrite (parseIntText_digits c D).
    - change (repeat "0"%char (S n) ++ d :: c)
        with ("0"%char :: (repeat "0"%char n ++ d :: c)).
      rewrite parseIntText_digits by reflexivity.
      change ("0"%char :: (repeat "0"%char n ++ d :: c))
        with (repeat "0"%char (S n) ++ d :: c).
      now rewrite takeWhile_zeros, dropWhile_zeros. }
  assert (Z : Filings.parseIntText (zeroPadCIK (d :: c))
              = Filings.parseIntText (d :: c)) by apply P.
  split; [apply P|]. split; [exact Z|]. split.
  - unfold Filings.baseUrl. now rewrite Z.
  - unfold Filings.primaryUrl, Filings.baseUrl. now rewrite Z.
Qed.

Lemma archive_url_ignores_padding_witness :
  Filings.parseIntText (zeroPadCIK (lit "320193")) = lit "320193".
Proof.
  destruct (@archive_url_ignores_padding 0 "3"%char (lit "20193")
              (mkRecent [] [] [] []) 0 eq_refl) as [_ [Z _]].
  exact Z.
Defined.

(** ** The page: local resolution of ids *)

(** X4.  [resolveCIKLocalOrNumeric] answers a query of one to ten digits,
    in any surrounding white space, by itself, with the ten-digit id the
    server's [pad10] gives; a blank query has no answer; any other query is
    answered from the ticker map under its upper-cased, trimmed form, and an
    answer is never the empty string. *)
Theorem numeric_input_resolves_locally :
  forall (tickerMap : str -> option str) (value : str),
    let v := toUpperCase (trim value) in
    (Lookup.isNumericQuery v = true ->
       Page.resolveCIKLocalOrNumeric tickerMap value = Some (pad10 v)
       /\ length (pad10 v) = 10)
    /\ (v = [] -> Page.resolveCIKLocalOrNumeric tickerMap value = None)
    /\ (Lookup.isNumericQuery v = false -> v <> [] ->
          Page.resolveCIKLocalOrNumeric tickerMap value =
          match tickerMap v with
          | Some (c :: cik) => Some (c :: cik)
          | _ => None
          end)
    /\ (forall c, Page.resolveCIKLocalOrNumeric tickerMap value = Some c ->
                  c <> []).
Proof.
  intros tickerMap value v.
  assert (Num : Lookup.isNumericQuery v = true ->
                Page.resolveCIKLocalOrNumeric tickerMap value = Some (pad10 v)
                /\ length (pad10 v) = 10).
  { intro N. unfold Lookup.isNumericQuery in N.
    apply andb_true_iff in N. destruct N as [N D].
    apply andb_true_iff in N. destruct N as [N0 N10].
    apply Nat.leb_le in N10.
    unfold Page.resolveCIKLocalOrNumeric. cbv zeta. fold v.
    destruct (length v =? 0) eqn:E0; [discriminate|].
    split.
    - unfold Page.isTenDigits, Page.isShortNumeric. rewrite D, E0.
      destruct (length v =? 10) eqn:E10; simpl.
      + apply Nat.eqb_eq in E10. rewrite pad10_fixed; [reflexivity|exact D|lia].
      + apply Nat.eqb_neq in E10.
        assert (L : (length v <=? 9) = true) by (apply Nat.leb_le; lia).
        rewrite L. unfold pad10, stripNonDigits. now rewrite (filter_all D).
    - unfold pad10. rewrite padStart0_length.
      unfold stripNonDigits. rewrite (filter_all D). lia. }
  assert (Other : Lookup.isNumericQuery v = false -> v <> [] ->
                  Page.resolveCIKLocalOrNumeric tickerMap value =
                  match tickerMap v with
                  | Some (c :: cik) => Some (c :: cik)
                  | _ => None
                  end).
  { intros N NE. unfold Page.resolveCIKLocalOrNumeric. cbv zeta. fold v.
    destruct v as [|c0 v0] eqn:V; [contradiction|].
    change (length (c0 :: v0) =? 0) with false. cbv iota.
    unfold Lookup.isNumericQuery in N.
    unfold Page.isTenDigits, Page.isShortNumeric.
    destruct (forallb isDigit (c0 :: v0)) eqn:D.
    - rewrite !andb_true_r.
      destruct (length (c0 :: v0) <=? 10) eqn:L10;
        [simpl in N; discriminate N|].
      apply Nat.leb_gt in L10.
      assert (E10 : (length (c0 :: v0) =? 10) = false)
        by (apply Nat.eqb_neq; lia).
      assert (L : (length (c0 :: v0) <=? 9) = false)
        by (apply Nat.leb_gt; lia).
      rewrite E10, L. reflexivity.
    - rewrite !andb_false_r. reflexivity. }
  split; [exact Num|]. split; [|split; [exact Other|]].
  - intro E. unfold Page.resolveCIKLocalOrNumeric. cbv zeta. fold v.
    now rewrite E.
  - intros c R.
    destruct (Lookup.isNumericQuery v) eqn:N.
    + destruct (Num eq_refl) as [E L]. rewrite E in R. injection R as <-.
      intros X. rewrite X in L. discriminate.
    + destruct v as [|c0 v0] eqn:V.
      * unfold Page.resolveCIKLocalOrNumeric in R. cbv zeta in R.
        fold v in R. rewrite V in R. discriminate.
      * rewrite (Other eq_refl) in R by discriminate.
        destruct (tickerMap (c0 :: v0)) as [[|x y]|]; try discriminate.
        injection R as <-. discriminate.
Qed.

Lemma numeric_input_resolves_locally_witness :
  Page.resolveCIKLocalOrNumeric (fun _ => None) (lit " 320193 ")
  = Some (lit "0000320193").
Proof.
  destruct (@numeric_input_resolves_locally (fun _ => None) (lit " 320193 "))
    as [N _].
  destruct (N eq_refl) as [E _]. rewrite E. reflexivity.
Defined.

(** ** The retry schedule of the fetcher *)

Definition withTrace (s : Proc) (tr : list Event) : Proc :=
  mkProc (CACHE s) (LAST s) tr.

(** The trace after [k] failed attempts that started with [delay]. *)
Fixpoint retryTrace (url : str) (k : nat) (delay : Z) (tr : list Event)
    : list Event :=
  match k with
  | O => tr
  | S k' => retryTrace url k' (delay * 2) (EvSleep delay :: EvFetch url :: tr)
  end.

Fixpoint doubled (k : nat) (delay : Z) : Z :=
  match k with
  | O => delay
  | S k' => doubled k' (delay * 2)
  end.

(** The error held in [err] after [k] attempts from fetch number [c]. *)
Fixpoint errAfter (net : Network) (url : str) (c k : nat) (err : option str)
    : option str :=
  match k with
  | O => err
  | S k' =>
      errAfter net url (S c) k'
        match Lookup.attempt (net c url) with
        | Throw e => Some e
        | Ok _ => err
        end
  end.

(** The milliseconds slept in a trace. *)
Definition sleptMs (tr : list Event) : Z :=
  fold_right (fun e acc => match e with EvSleep ms => ms + acc | EvFetch _ => acc end)%Z
             0%Z tr.

Definition fails (net : Network) (url : str) (c k : nat) : Prop :=
  forall i, i < k -> exists e, Lookup.attempt (net (c + i) url) = Throw e.

Lemma fails_shift (net : Network) (url : str) (c k : nat) :
  fails net url c (S k) ->
  (exists e, Lookup.attempt (net c url) = Throw e) /\ fails net url (S c) k.
Proof.
  intro F. split.
  - destruct (F 0 ltac:(lia)) as [e E]. rewrite Nat.add_0_r in E. now exists e.
  - intros i Hi. destruct (F (S i) ltac:(lia)) as [e E].
    rewrite Nat.add_succ_r in E. now exists e.
Qed.

Lemma Lookup_fetchLoop_fails (net : Network) (url : str) (k n : nat) :
  forall (delay : Z) (err : option str) (s : Proc),
    fails net url (fetchCount s) k ->
    Lookup.fetchLoop net url (k + n) delay err s
    = Lookup.fetchLoop net url n (doubled k delay)
        (errAfter net url (fetchCount s) k err)
        (withTrace s (retryTrace url k delay (trace s))).
Proof.
  induction k as [|k IH]; intros delay err s F.
  - destruct s; reflexivity.
  - destruct (fails_shift F) as [[e E] F'].
    change (S k + n) with (S (k + n)).
    rewrite Lookup_fetchLoop_step, E.
    rewrite (IH (delay * 2)%Z (Some e)
                (after (EvSleep delay) (after (EvFetch url) s)) F').
    simpl errAfter. rewrite E. reflexivity.
Qed.

Lemma retryTrace_fetches (url : str) (k : nat) (delay : Z) (tr : list Event) :
  length (filter isFetch (retryTrace url k delay tr))
  = length (filter isFetch tr) + k.
Proof.
  revert delay tr. induction k as [|k IH]; intros delay tr; simpl; [lia|].
  rewrite IH. simpl. lia.
Qed.

Lemma retryTrace_slept (url : str) (k : nat) (delay : Z) (tr : list Event) :
  sleptMs (retryTrace url k delay tr)
  = (sleptMs tr + delay * (2 ^ Z.of_nat k - 1))%Z.
Proof.
  revert delay tr. induction k as [|k IH]; intros delay tr.
  - simpl. lia.
  - simpl retryTrace. rewrite IH. simpl sleptMs.
    rewrite Nat2Z.inj_succ, Z.pow_succ_r by lia. lia.
Qed.

Lemma KvRoutes_attempt_same (r : Response) : KvRoutes.attempt r = Lookup.attempt r.
Proof. destruct r as [e|[] st stt j t]; reflexivity. Qed.

(** The two revisions of the loop differ in the error of an exhausted
    budget only. *)
Lemma KvRoutes_fetchLoop_same (net : Network) (url : str) (n : nat) :
  forall (delay : Z) (err : option str) (s : Proc),
    KvRoutes.fetchLoop net url n delay s =
    match Lookup.fetchLoop net url n delay err s with
    | (Ok j, s') => (Ok j, s')
    | (Throw _, s') => (Throw (lit "fetch_failed"), s')
    end.
Proof.
  induction n as [|n IH]; intros delay err s; [reflexivity|].
  rewrite KvRoutes_fetchLoop_step, Lookup_fetchLoop_step, KvRoutes_attempt_same.
  destruct (Lookup.attempt (net (fetchCount s) url)) as [j|e]; [reflexivity|].
  apply IH.
Qed.

Lemma Lookup_fetchLoop_bound (net : Network) (url : str) (n : nat) :
  forall (delay : Z) (err : option str) (s : Proc),
    let s' := snd (Lookup.fetchLoop net url n delay err s) in
    fetchCount s' <= fetchCount s + n /\ (0 < n -> fetchCount s < fetchCount s').
Proof.
  induction n as [|n IH]; intros delay err s; cbv zeta.
  - simpl. lia.
  - rewrite Lookup_fetchLoop_step.
    destruct (Lookup.attempt (net (fetchCount s) url)) as [j|e].
    + simpl snd. rewrite fetchCount_after_fetch. lia.
    + destruct (IH (delay * 2)%Z (Some e)
                   (after (EvSleep delay) (after (EvFetch url) s))) as [B _].
      cbv zeta in B.
      rewrite fetchCount_after_sleep, fetchCount_after_fetch in B.
      split; [lia|]. intros _.
      pose proof (Lookup_fetchLoop_extends net url n (delay * 2)%Z (Some e)
                    (after (EvSleep delay) (after (EvFetch url) s))) as [X _].
      destruct X as [_ [_ [evs T]]]. unfold fetchCount. rewrite T.
      rewrite filter_app, length_app. simpl. lia.
Qed.

(** X5.  When the first [k] attempts fail, for whatever reason, and attempt
    [k + 1] succeeds ([k < 4]), [fetchJSON] returns the body of that attempt,
    in both revisions; it has made [k + 1] fetches and has slept
    200, 400, ... ms between them, [200 * (2^k - 1)] ms in all. *)
Theorem fetchJSON_first_success :
  forall (net : Network) (url : str) (s : Proc) (k : nat) (j : Json),
    k < 4 ->
    fails net url (fetchCount s) k ->
    Lookup.attempt (net (fetchCount s + k) url) = Ok j ->
    let s' := withTrace s (EvFetch url :: retryTrace url k 200 (trace s)) in
    Lookup.fetchJSON net url s = (Ok j, s')
    /\ KvRoutes.fetchJSON net url s = (Ok j, s')
    /\ fetchCount s' = fetchCount s + k + 1
    /\ sleptMs (trace s')
       = (sleptMs (trace s) + 200 * (2 ^ Z.of_nat k - 1))%Z.
Proof.
  intros net url s k j K F A s'.
  assert (E : Lookup.fetchJSON net url s = (Ok j, s')).
  { unfold Lookup.fetchJSON. replace 4 with (k + S (3 - k)) by lia.
    rewrite (Lookup_fetchLoop_fails (S (3 - k)) 200%Z None F).
    rewrite Lookup_fetchLoop_step.
    assert (C : fetchCount (withTrace s (retryTrace url k 200 (trace s)))
                = fetchCount s + k).
    { unfold fetchCount. simpl. apply retryTrace_fetches. }
    rewrite C, A. reflexivity. }
  split; [exact E|]. split; [|split].
  - unfold KvRoutes.fetchJSON.
    rewrite (KvRoutes_fetchLoop_same net url 4 200%Z None s).
    unfold Lookup.fetchJSON in E. now rewrite E.
  - unfold s', fetchCount. simpl. rewrite retryTrace_fetches. lia.
  - unfold s'. simpl. apply retryTrace_slept.
Qed.

Definition flaky : Network :=
  fun n _ =>
    match n with
    | 0 => NetworkError (lit "ECONNRESET")
    | 1 => Http false (lit "503") (lit "Service Unavailable") (Throw []) (Ok [])
    | _ => Http true (lit "200") (lit "OK") (Ok (JArray [])) (Ok [])
    end.

Lemma fetchJSON_first_success_witness :
  Lookup.fetchJSON flaky SEC_TICKERS initial
  = (Ok (JArray []),
     mkProc None 0%Z
       [EvFetch SEC_TICKERS; EvSleep 400; EvFetch SEC_TICKERS;
        EvSleep 200; EvFetch SEC_TICKERS]).
Proof.
  apply (@fetchJSON_first_success flaky SEC_TICKERS initial 2 (JArray [])).
  - lia.
  - intros i Hi. destruct i as [|[|i]]; [eexists; reflexivity.. | lia].
  - reflexivity.
Defined.

(** X6.  Whatever the network does, one call of [fetchJSON] makes at least
    one and at most four fetches.  When all four attempts fail it has slept
    200, 400, 800 and 1600 ms, also after the last attempt, and throws: the
    error of the fourth attempt in the in-memory revision, ["fetch_failed"]
    in the key-value revision. *)
Theorem fetchJSON_budget :
  forall (net : Network) (url : str) (s : Proc),
    (let s' := snd (Lookup.fetchJSON net url s) in
     fetchCount s < fetchCount s' <= fetchCount s + 4
     /\ snd (KvRoutes.fetchJSON net url s) = s')
    /\ (fails net url (fetchCount s) 4 ->
        let s4 := withTrace s
                    (EvSleep 1600 :: EvFetch url :: EvSleep 800 :: EvFetch url
                     :: EvSleep 400 :: EvFetch url :: EvSleep 200 :: EvFetch url
                     :: trace s) in
        exists e,
          Lookup.attempt (net (fetchCount s + 3) url) = Throw e
          /\ Lookup.fetchJSON net url s = (Throw e, s4)
          /\ KvRoutes.fetchJSON net url s = (Throw (lit "fetch_failed"), s4)).
Proof.
  intros net url s. split.
  - cbv zeta. split.
    + destruct (Lookup_fetchLoop_bound net url 4 200%Z None s) as [B1 B2].
      cbv zeta in B1, B2. unfold Lookup.fetchJSON. split; [apply B2; lia | exact B1].
    + unfold KvRoutes.fetchJSON, Lookup.fetchJSON.
      rewrite (KvRoutes_fetchLoop_same net url 4 200%Z None s).
      now destruct (Lookup.fetchLoop net url 4 200%Z None s) as [[j|e] s'].
  - intros F s4.
    pose proof (Lookup_fetchLoop_fails 0 200%Z None F) as E.
    change (4 + 0) with 4 in E.
    destruct (F 3 ltac:(lia)) as [e3 E3].
    assert (Err : errAfter net url (fetchCount s) 4 None = Some e3).
    { destruct (F 0 ltac:(lia)) as [e0 E0]. destruct (F 1 ltac:(lia)) as [e1 E1].
      destruct (F 2 ltac:(lia)) as [e2 E2].
      rewrite Nat.add_0_r in E0.
      replace (fetchCount s + 1) with (S (fetchCount s)) in E1 by lia.
      replace (fetchCount s + 2) with (S (S (fetchCount s))) in E2 by lia.
      replace (fetchCount s + 3) with (S (S (S (fetchCount s)))) in E3 by lia.
      simpl. now rewrite E0, E1, E2, E3. }
    rewrite Err in E. exists e3. split; [exact E3|].
    assert (L : Lookup.fetchJSON net url s = (Throw e3, s4)) by exact E.
    split; [exact L|].
    unfold KvRoutes.fetchJSON.
    rewrite (KvRoutes_fetchLoop_same net url 4 200%Z None s).
    unfold Lookup.fetchJSON in L. now rewrite L.
Qed.

Definition down : Network := fun _ _ => NetworkError (lit "ENOTFOUND").

Lemma fetchJSON_budget_witness :
  exists e,
    Lookup.fetchJSON down SEC_TICKERS initial
    = (Throw e,
       mkProc None 0%Z
         [EvSleep 1600; EvFetch SEC_TICKERS; EvSleep 800; EvFetch SEC_TICKERS;
          EvSleep 400; EvFetch SEC_TICKERS; EvSleep 200; EvFetch SEC_TICKERS]).
Proof.
  destruct (fetchJSON_budget down SEC_TICKERS initial) as [_ X].
  destruct X as [e [_ [E _]]].
  - intros i _. eexists. reflexivity.
  - exists e. exact E.
Defined.

(** ** The Builder *)

Lemma build_run (net : Network) (s : Proc) :
  Lookup.build net s =
  match Lookup.fetchJSON net SEC_TICKERS s with
  | (Throw e, s1) => (Throw e, s1)
  | (Ok j1, s1) =>
      match Lookup.fetchJSON net SEC_TICKERS_EXCHANGE s1 with
      | (Ok j2, s2) =>
          (Ok (MapValues (Lookup.mergeRows (Lookup.primaryRows j1)
                            (Lookup.secondaryRows j2))), s2)
      | (Throw _, s2) =>
          (Ok (MapValues (Lookup.mergeRows (Lookup.primaryRows j1) [])), s2)
      end
  end.
Proof.
  unfold Lookup.build, bind at 1.
  destruct (Lookup.fetchJSON net SEC_TICKERS s) as [[j1|e1] s1]; [|reflexivity].
  unfold bind, tryCatch.
  destruct (Lookup.fetchJSON net SEC_TICKERS_EXCHANGE s1) as [[j2|e2] s2];
    reflexivity.
Qed.

Lemma build_extends (net : Network) (s : Proc) :
  extends s (snd (Lookup.build net s)).
Proof.
  rewrite build_run.
  pose proof (Lookup_fetchLoop_extends net SEC_TICKERS 4 200%Z None s) as [E1 _].
  change (Lookup.fetchLoop net SEC_TICKERS 4 200%Z None s)
    with (Lookup.fetchJSON net SEC_TICKERS s) in E1.
  destruct (Lookup.fetchJSON net SEC_TICKERS s) as [[j1|e1] s1];
    [|exact E1].
  pose proof (Lookup_fetchLoop_extends net SEC_TICKERS_EXCHANGE 4 200%Z None s1)
    as [E2 _].
  change (Lookup.fetchLoop net SEC_TICKERS_EXCHANGE 4 200%Z None s1)
    with (Lookup.fetchJSON net SEC_TICKERS_EXCHANGE s1) in E2.
  destruct (Lookup.fetchJSON net SEC_TICKERS_EXCHANGE s1) as [[j2|e2] s2];
    simpl in *; now apply extends_trans with s1.
Qed.




(** ** The merged index *)

Section MergedIndex.

Variable norms : str -> list str.
Hypothesis norms_plain :
  forall sym v, In v (norms sym) -> stripDotDash v = plainKey sym.
Hypothesis norms_upper :
  forall sym, In (trim (toUpperCase sym)) (norms sym).

Lemma merged_rows (arr1 arr2 : list Row) :
  let rows := MapValues (mergeWith norms arr1 arr2) in
  NoDup (map (fun r => plainKey (ticker r)) rows)
  /\ (forall r, In r rows -> In r arr2 \/ In r arr1)
  /\ (forall r, In r arr2 \/ In r arr1 ->
        exists r', In r' rows /\ plainKey (ticker r') = plainKey (ticker r))
  /\ length rows <= length arr2 + length arr1.
Proof.
  intro rows.
  destruct (wellKeyed_merge norms_plain norms_upper arr1 arr2) as [ND K].
  pose proof (MapGet_merge norms_plain norms_upper arr1 arr2) as G.
  set (m := mergeWith norms arr1 arr2) in *.
  assert (Keys : map (fun r => plainKey (ticker r)) rows = map fst m).
  { unfold rows, MapValues. rewrite map_map. apply map_ext_in.
    intros [k r] Hin. simpl. symmetry. now apply K. }
  assert (From : forall r, In r rows -> In r arr2 \/ In r arr1).
  { intros r Hr. unfold rows, MapValues in Hr. apply in_map_iff in Hr.
    destruct Hr as [[k r0] [E Hin]]. simpl in E. subst r0.
    pose proof (In_MapGet ND Hin) as Gk. rewrite G in Gk.
    destruct (find (claims k) arr2) as [x|] eqn:F2.
    - injection Gk as ->. left. now apply (find_some _ _ F2).
    - right. now apply (find_some _ _ Gk). }
  split; [now rewrite Keys|]. split; [exact From|]. split.
  - intros r Hr.
    assert (X : exists r', MapGet m (plainKey (ticker r)) = Some r').
    { rewrite G.
      destruct (find (claims (plainKey (ticker r))) arr2) as [x|] eqn:F2;
        [now exists x|].
      destruct (find (claims (plainKey (ticker r))) arr1) as [x|] eqn:F1;
        [now exists x|].
      exfalso. destruct Hr as [Hr|Hr].
      - apply (find_none _ _ F2) in Hr. unfold claims in Hr.
        now rewrite str_eqb_refl in Hr.
      - apply (find_none _ _ F1) in Hr. unfold claims in Hr.
        now rewrite str_eqb_refl in Hr. }
    destruct X as [r' Gr]. exists r'. apply MapGet_In in Gr. split.
    + unfold rows, MapValues. apply in_map_iff. now exists (plainKey (ticker r), r').
    + symmetry. now apply K.
  - replace (length rows) with (length (map fst m))
      by (rewrite <- Keys; now rewrite length_map).
    replace (length arr2 + length arr1)
      with (length (map (fun r => plainKey (ticker r)) (arr2 ++ arr1)))
      by (rewrite length_map, length_app; reflexivity).
    apply NoDup_incl_length; [exact ND|].
    intros k Hk. rewrite <- Keys in Hk. apply in_map_iff in Hk.
    destruct Hk as [r [<- Hr]].
    apply (in_map (fun x => plainKey (ticker x))). apply in_or_app.
    now apply From.
Qed.

End MergedIndex.

(** X8.  The list the Builder makes from the two sources holds no two rows
    with the same plain key; each of its rows is a row of one of the sources;
    each source row has a row with its plain key in the list; so the list is
    never longer than the two sources together.  This holds for both
    revisions of the merge. *)
Theorem merged_index_is_keyed :
  forall arr1 arr2 : list Row,
    let rows := MapValues (Lookup.mergeRows arr1 arr2) in
    NoDup (map (fun r => plainKey (ticker r)) rows)
    /\ (forall r, In r rows -> In r arr2 \/ In r arr1)
    /\ (forall r, In r arr2 \/ In r arr1 ->
          exists r', In r' rows /\ plainKey (ticker r') = plainKey (ticker r))
    /\ length rows <= length arr2 + length arr1
    /\ MapValues (KvRoutes.mergeRows arr1 arr2) = rows.
Proof.
  intros arr1 arr2 rows.
  destruct (merged_rows Lookup_norms_plain Lookup_norms_upper arr1 arr2)
    as [A [B [C D]]].
  repeat split; try assumption.
  unfold rows. f_equal.
  rewrite Lookup_mergeRows_eq, KvRoutes_mergeRows_eq. unfold mergeWith.
  assert (P : forall rs m, fold_left (pushWith KvRoutes.norms) rs m
                           = fold_left (pushWith Lookup.norms) rs m).
  { induction rs as [|r rs IH]; intro m; simpl; [reflexivity|].
    rewrite (pushWith_claim KvRoutes_norms_plain KvRoutes_norms_upper).
    rewrite (pushWith_claim Lookup_norms_plain Lookup_norms_upper).
    apply IH. }
  now rewrite !P.
Qed.

(** X9.  Every row the Builder makes from a registry entry, whatever the
    entry holds, has a canonical id of digits only, at least ten of them,
    and a symbol in upper case; one row is made per entry. *)
Theorem built_rows_are_canonical :
  forall (j : Json) (r : Row),
    In r (Lookup.primaryRows j) \/ In r (Lookup.secondaryRows j) ->
    forallb isDigit (cik r) = true
    /\ 10 <= length (cik r)
    /\ toUpperCase (ticker r) = ticker r
    /\ pad10 (cik r) = cik r.
Proof.
  intros j r H.
  assert (X : exists t c n, r = mkRow (toUpperCase t) (pad10 c) n).
  { destruct H as [H|H].
    - unfold Lookup.primaryRows in H. cbv zeta in H.
      apply in_map_iff in H. destruct H as [e [<- _]]. now eexists _, _, _.
    - unfold Lookup.secondaryRows in H. destruct j; try destruct H.
      apply in_map_iff in H. destruct H as [e [<- _]]. now eexists _, _, _. }
  destruct X as [t [c [n ->]]]. simpl.
  assert (L : 10 <= length (pad10 c)).
  { unfold pad10. rewrite padStart0_length. lia. }
  split; [apply pad10_digits|]. split; [exact L|].
  split; [apply toUpperCase_idem|].
  apply pad10_fixed; [apply pad10_digits | exact L].
Qed.

Lemma built_rows_are_canonical_witness :
  forallb isDigit (lit "0000789019") = true /\ 10 <= length (lit "0000789019").
Proof.
  destruct (@built_rows_are_canonical
              (JArray [mkRaw None (Some (lit "789019"))
                         (Some (lit "MSFT")) (Some (lit "MICROSOFT CORP"))])
              (mkRow (lit "MSFT") (lit "0000789019") (lit "MICROSOFT CORP")))
    as [D [L _]].
  - right. simpl. left. reflexivity.
  - split; [exact D | exact L].
Defined.

(** ** The cache when the registry is down *)

(** X10.  A call of [loadAll] that throws has run the Builder, because there
    was no list or the list was an hour old, and has left [CACHE] and [LAST]
    as they were: the old list is neither served nor dropped, and the next
    call tries again. *)
Theorem failed_rebuild_keeps_cache :
  forall (net : Network) (now : Z) (s s' : Proc) (e : str),
    Lookup.loadAll net now s = (Throw e, s') ->
    Lookup.build net s = (Throw e, s')
    /\ CACHE s' = CACHE s /\ LAST s' = LAST s
    /\ (CACHE s = None \/ (Lookup.TTL_MS <= now - LAST s)%Z)
    /\ length (trace s) < length (trace s')
    /\ forall net' now',
         Lookup.loadAll net' now' s'
         = Lookup.loadAll net' now' (withTrace s (trace s')).
Proof.
  intros net now s s' e H.
  assert (Miss : CACHE s = None \/ (Lookup.TTL_MS <= now - LAST s)%Z).
  { unfold Lookup.loadAll in H. destruct (CACHE s) as [rows|]; [|now left].
    destruct (now - LAST s <? Lookup.TTL_MS)%Z eqn:F; [discriminate|].
    right. now apply Z.ltb_ge. }
  assert (B : Lookup.build net s = (Throw e, s')).
  { unfold Lookup.loadAll in H.
    assert (R : stored now (Lookup.build net s) = (Throw e, s')).
    { rewrite <- loadAll_rebuild. destruct (CACHE s) as [rows|]; [|exact H].
      destruct (now - LAST s <? Lookup.TTL_MS)%Z; [discriminate | exact H]. }
    unfold stored in R.
    destruct (Lookup.build net s) as [[rows|e0] s1]; [discriminate | exact R]. }
  pose proof (build_extends net s) as X. pose proof (build_fetches net s) as L.
  rewrite B in X, L. simpl in X, L. destruct X as [C [T _]].
  split; [exact B|]. split; [exact C|]. split; [exact T|].
  split; [exact Miss|]. split; [exact L|].
  intros net' now'. unfold withTrace. rewrite <- C, <- T. now destruct s'.
Qed.

Definition stale : Proc :=
  mkProc (Some registry_rows) 0%Z [EvFetch SEC_TICKERS_EXCHANGE; EvFetch SEC_TICKERS].

Lemma failed_rebuild_keeps_cache_witness :
  CACHE (snd (Lookup.loadAll down 3600000%Z stale)) = Some registry_rows
  /\ LAST (snd (Lookup.loadAll down 3600000%Z stale)) = 0%Z.
Proof.
  destruct (Lookup.loadAll down 3600000%Z stale) as [r s'] eqn:E.
  assert (X : exists e, r = Throw e).
  { vm_compute in E. injection E as <- _. eexists. reflexivity. }
  destruct X as [e ->].
  destruct (failed_rebuild_keeps_cache E) as [_ [C [L _]]].
  simpl. now rewrite C, L.
Defined.

(** ** The key-value store in front of the Builder *)

Lemma kvGet_unconfigured (env : KvRoutes.KvEnv) (net : Network) (s : Proc) :
  KvRoutes.configured env = false -> KvRoutes.kvGet env net s = (Ok None, s).
Proof. intro C. unfold KvRoutes.kvGet. now rewrite C. Qed.

Lemma kvGet_configured (env : KvRoutes.KvEnv) (net : Network) (s : Proc) :
  KvRoutes.configured env = true ->
  KvRoutes.kvGet env net s =
  let s1 := after (EvFetch (KvRoutes.kvGetUrl env)) s in
  match net (fetchCount s) (KvRoutes.kvGetUrl env) with
  | NetworkError e => (Throw e, s1)
  | Http false _ _ _ _ => (Ok None, s1)
  | Http true _ _ (Throw e) _ => (Throw e, s1)
  | Http true _ _ (Ok (JKv (KvParsed rows))) _ => (Ok (Some rows), s1)
  | Http true _ _ (Ok _) _ => (Ok None, s1)
  end.
Proof.
  intro C. unfold KvRoutes.kvGet. rewrite C. cbn [negb].
  unfold bind, fetch. cbv zeta. fold (after (EvFetch (KvRoutes.kvGetUrl env)) s).
  destruct (net (fetchCount s) (KvRoutes.kvGetUrl env))
    as [e|[] st stt [[es|items|[| |rows]|n t r|n t r]|e] txt]; reflexivity.
Qed.

(** What [loadIndex] does after a miss of the store: one run of the
    Builder, and the list is posted to the store when one is configured. *)
Definition rebuilt (env : KvRoutes.KvEnv) (b : result (list Row) * Proc)
    : result (list Row) * Proc :=
  match b with
  | (Ok rows, s2) =>
      (Ok rows,
       if KvRoutes.configured env
       then after (EvFetch (KvRoutes.kvSetUrl env)) s2 else s2)
  | (Throw e, s2) => (Throw e, s2)
  end.

Lemma loadIndex_miss (env : KvRoutes.KvEnv) (net : Network) (s1 : Proc) :
  (rows <- KvRoutes.build net ;; _ <- KvRoutes.kvSet env net rows ;; ret rows) s1
  = rebuilt env (KvRoutes.build net s1).
Proof.
  unfold bind at 1, rebuilt.
  destruct (KvRoutes.build net s1) as [[rows|e] s2]; [|reflexivity].
  unfold KvRoutes.kvSet.
  destruct (KvRoutes.configured env); reflexivity.
Qed.

(** X11.  With a configured store, [loadIndex] asks the store first.  A
    non-empty list from the store is returned after that one request, with
    no request to the registry.  A rejected request to the store, or a reply
    that is not JSON, makes [loadIndex] throw before the registry is asked.
    A reply that is not ok, or holds no list or an empty one, leads to one
    run of the Builder, after which the list is posted to the store. *)
Theorem loadIndex_asks_store_first :
  forall (env : KvRoutes.KvEnv) (net : Network) (s : Proc),
    KvRoutes.configured env = true ->
    let reply := net (fetchCount s) (KvRoutes.kvGetUrl env) in
    let s1 := after (EvFetch (KvRoutes.kvGetUrl env)) s in
    (forall st stt r rows txt,
        reply = Http true st stt (Ok (JKv (KvParsed (r :: rows)))) txt ->
        KvRoutes.loadIndex env net s = (Ok (r :: rows), s1))
    /\ (forall e, reply = NetworkError e ->
          KvRoutes.loadIndex env net s = (Throw e, s1))
    /\ (forall st stt e txt, reply = Http true st stt (Throw e) txt ->
          KvRoutes.loadIndex env net s = (Throw e, s1))
    /\ (forall st stt j txt, reply = Http false st stt j txt ->
          KvRoutes.loadIndex env net s = rebuilt env (KvRoutes.build net s1))
    /\ (forall st stt txt,
          reply = Http true st stt (Ok (JKv (KvParsed []))) txt ->
          KvRoutes.loadIndex env net s = rebuilt env (KvRoutes.build net s1)).
Proof.
  intros env net s C reply s1.
  assert (G := kvGet_configured net s C). cbv zeta in G. fold reply s1 in G.
  repeat split; intros; unfold KvRoutes.loadIndex; unfold bind at 1;
    rewrite G, H; try reflexivity; apply loadIndex_miss.
Qed.

Definition upstash : KvRoutes.KvEnv :=
  KvRoutes.mkKvEnv (lit "https://kv.example") (lit "token").

Definition store_hit : Network :=
  fun _ _ => Http true (lit "200") (lit "OK")
               (Ok (JKv (KvParsed registry_rows))) (Ok []).

Lemma loadIndex_asks_store_first_witness :
  KvRoutes.loadIndex upstash store_hit initial
  = (Ok registry_rows, after (EvFetch (KvRoutes.kvGetUrl upstash)) initial).
Proof.
  destruct (@loadIndex_asks_store_first upstash store_hit initial eq_refl)
    as [Hit _].
  exact (Hit (lit "200") (lit "OK") _ _ (Ok []) eq_refl).
Defined.

(** ** Freshness in the two revisions *)

(** The requests for the primary registry document made so far: each run of
    the Builder makes at least one. *)
Definition registryFetches (s : Proc) : nat :=
  length (filter (fun e => match e with
                           | EvFetch url => str_eqb url SEC_TICKERS
                           | EvSleep _ => false
                           end) (trace s)).

(** A loader serves from its cache: after a call that ran the Builder and
    returned a list, a call issued less than an hour later returns that list
    without a request to the registry. *)
Definition served_from_cache (load : Network -> Z -> M (list Row)) : Prop :=
  forall (net : Network) (now now' : Z) (s s1 : Proc) (rows : list Row),
    load net now s = (Ok rows, s1) ->
    registryFetches s < registryFetches s1 ->
    (now <= now' < now + 3600000)%Z ->
    exists s2,
      load net now' s1 = (Ok rows, s2)
      /\ registryFetches s2 = registryFetches s1.

(** The statement of C3, for the two loaders it names. *)
Definition cache_freshness_as_stated : Prop :=
  served_from_cache Lookup.loadAll
  /\ forall env : KvRoutes.KvEnv,
       served_from_cache (fun net _ => KvRoutes.loadIndex env net).

Definition no_store : KvRoutes.KvEnv := KvRoutes.mkKvEnv [] [].

Example loadIndex_twice :
  exists s1 s2,
    KvRoutes.loadIndex no_store registry initial = (Ok registry_rows, s1)
    /\ KvRoutes.loadIndex no_store registry s1 = (Ok registry_rows, s2)
    /\ registryFetches initial = 0
    /\ registryFetches s1 = 1
    /\ registryFetches s2 = 2
    /\ fetchCount s1 = 2 /\ fetchCount s2 = 4.
Proof. eexists. eexists. repeat split. Qed.

(** C3, as stated, fails for [loadIndex]: the key-value revision keeps no
    list in the process, so without a configured store the second of two
    calls in a row runs the Builder again. *)
Lemma loadIndex_rebuilds_within_the_hour : ~ cache_freshness_as_stated.
Proof.
  intros [_ H].
  destruct loadIndex_twice as [s1 [s2 [E1 [E2 [R0 [R1 [R2 _]]]]]]].
  destruct (H no_store registry 0%Z 1%Z initial s1 registry_rows E1)
    as [s2' [E2' R]]; [rewrite R0, R1; lia | lia |].
  cbv beta in E2'. rewrite E2 in E2'. injection E2' as <-.
  rewrite R1, R2 in R. discriminate R.
Qed.

Lemma registryFetches_extends (s s' : Proc) :
  extends s s' -> registryFetches s <= registryFetches s'.
Proof.
  intros [_ [_ [evs T]]]. unfold registryFetches. rewrite T, filter_app,
    length_app. lia.
Qed.

Lemma registryFetches_after_registry (s : Proc) :
  registryFetches (after (EvFetch SEC_TICKERS) s) = S (registryFetches s).
Proof.
  unfold registryFetches, after. cbn [trace filter].
  now rewrite str_eqb_refl.
Qed.

Lemma KvRoutes_build_extends (net : Network) (s : Proc) :
  extends (after (EvFetch SEC_TICKERS) s) (snd (KvRoutes.build net s)).
Proof.
  assert (Rest : forall (j1 : Json) (s1 : Proc),
            extends s1
              (snd ((arr2 <- tryCatch
                              (j2 <- KvRoutes.fetchJSON net SEC_TICKERS_EXCHANGE ;;
                               ret (Lookup.secondaryRows j2))
                              (fun _ => ret []) ;;
                     ret (MapValues (KvRoutes.mergeRows
                                       (Lookup.primaryRows j1) arr2))) s1))).
  { intros j1 s1. unfold bind, tryCatch, KvRoutes.fetchJSON.
    pose proof (KvRoutes_fetchLoop_extends net SEC_TICKERS_EXCHANGE 4 200%Z s1)
      as X.
    destruct (KvRoutes.fetchLoop net SEC_TICKERS_EXCHANGE 4 200%Z s1)
      as [[j2|e2] s2]; exact X. }
  unfold KvRoutes.build. unfold bind at 1.
  change (KvRoutes.fetchJSON net SEC_TICKERS s)
    with (KvRoutes.fetchLoop net SEC_TICKERS 4 200%Z s).
  rewrite KvRoutes_fetchLoop_step.
  destruct (KvRoutes.attempt (net (fetchCount s) SEC_TICKERS)) as [j1|e1].
  - apply Rest.
  - pose proof (KvRoutes_fetchLoop_extends net SEC_TICKERS 3 (200 * 2)%Z
                  (after (EvSleep 200) (after (EvFetch SEC_TICKERS) s))) as X.
    destruct (KvRoutes.fetchLoop net SEC_TICKERS 3 (200 * 2)%Z
                (after (EvSleep 200) (after (EvFetch SEC_TICKERS) s)))
      as [[j1|e] s1]; cbn [snd] in X.
    + eapply extends_trans; [|apply Rest].
      eapply extends_trans; [apply extends_after | exact X].
    + eapply extends_trans; [apply extends_after | exact X].
Qed.

Lemma rebuilt_extends (env : KvRoutes.KvEnv) (b : result (list Row) * Proc) :
  extends (snd b) (snd (rebuilt env b)).
Proof.
  destruct b as [[rows|e] s2]; simpl; [|apply extends_refl].
  destruct (KvRoutes.configured env);
    [apply extends_after | apply extends_refl].
Qed.

Lemma loadIndex_unconfigured (env : KvRoutes.KvEnv) (net : Network) (s : Proc) :
  KvRoutes.configured env = false ->
  KvRoutes.loadIndex env net s = KvRoutes.build net s.
Proof.
  intro C. unfold KvRoutes.loadIndex. unfold bind at 1.
  rewrite (kvGet_unconfigured net s C), loadIndex_miss.
  unfold rebuilt. rewrite C.
  now destruct (KvRoutes.build net s) as [[rows|e] s2].
Qed.

Lemma loadIndex_configured (env : KvRoutes.KvEnv) (net : Network) (s : Proc) :
  KvRoutes.configured env = true ->
  extends (after (EvFetch (KvRoutes.kvGetUrl env)) s)
          (snd (KvRoutes.loadIndex env net s)).
Proof.
  intro C. unfold KvRoutes.loadIndex. unfold bind at 1.
  rewrite (kvGet_configured net s C). cbv zeta.
  set (s1 := after (EvFetch (KvRoutes.kvGetUrl env)) s).
  assert (Miss : extends s1
            (snd ((rows <- KvRoutes.build net ;;
                   _ <- KvRoutes.kvSet env net rows ;; ret rows) s1))).
  { rewrite loadIndex_miss.
    eapply extends_trans; [|apply rebuilt_extends].
    eapply extends_trans; [apply extends_after|].
    apply KvRoutes_build_extends. }
  destruct (net (fetchCount s) (KvRoutes.kvGetUrl env))
    as [e|[] st stt [[es|items|[| |[|r rows]]|n t r|n t r]|e] txt];
    try exact Miss; apply extends_refl.
Qed.

(** C3, amended.  The in-memory revision [loadAll] keeps the freshness
    window: while less than an hour has passed since the cached list was
    built it returns that list and leaves the state as it is, with no cached
    list or after the hour it runs the Builder exactly once and stores the
    result with the clock reading of the call, and a call that answers
    without a request returned a list younger than an hour.

    The key-value revision [loadIndex] has no freshness test: it never reads
    a clock and never assigns [CACHE] or [LAST].  With a configured store
    every call asks the store first, and a non-empty list the store answers
    with is returned whatever its age; expiry is left to the store.  Without
    a configured store every call is one run of the Builder, which starts
    with a request for the primary registry document. *)
Theorem cache_freshness :
  forall (net : Network) (now : Z) (s : Proc),
    Lookup.TTL_MS = 3600000%Z
    /\ (forall rows, CACHE s = Some rows -> (now - LAST s < Lookup.TTL_MS)%Z ->
          Lookup.loadAll net now s = (Ok rows, s))
    /\ (CACHE s = None \/ (Lookup.TTL_MS <= now - LAST s)%Z ->
          Lookup.loadAll net now s = stored now (Lookup.build net s))
    /\ (forall rows s', Lookup.loadAll net now s = (Ok rows, s') ->
          CACHE s' = Some rows
          /\ forall net' now', (now' - LAST s' < Lookup.TTL_MS)%Z ->
               Lookup.loadAll net' now' s' = (Ok rows, s'))
    /\ (forall rows s', Lookup.loadAll net now s = (Ok rows, s') ->
          trace s' = trace s ->
          CACHE s = Some rows /\ (now - LAST s < Lookup.TTL_MS)%Z /\ s' = s)
    /\ served_from_cache Lookup.loadAll
    /\ (forall env,
          let s' := snd (KvRoutes.loadIndex env net s) in
          CACHE s' = CACHE s /\ LAST s' = LAST s)
    /\ (forall env, KvRoutes.configured env = true ->
          (exists evs,
             trace (snd (KvRoutes.loadIndex env net s))
             = evs ++ EvFetch (KvRoutes.kvGetUrl env) :: trace s)
          /\ forall st stt r rows txt,
               net (fetchCount s) (KvRoutes.kvGetUrl env)
               = Http true st stt (Ok (JKv (KvParsed (r :: rows)))) txt ->
               KvRoutes.loadIndex env net s
               = (Ok (r :: rows), after (EvFetch (KvRoutes.kvGetUrl env)) s))
    /\ (forall env, KvRoutes.configured env = false ->
          KvRoutes.loadIndex env net s = KvRoutes.build net s
          /\ (exists evs,
                trace (snd (KvRoutes.loadIndex env net s))
                = evs ++ EvFetch SEC_TICKERS :: trace s)
          /\ registryFetches s
             < registryFetches (snd (KvRoutes.loadIndex env net s))).
Proof.
  intros net now s.
  destruct (loadAll_freshness net now s) as [T [Hit [Miss [Next Quiet]]]].
  split; [exact T|]. split; [exact Hit|]. split; [exact Miss|].
  split; [exact Next|]. split; [exact Quiet|].
  split; [|split; [|split]].
  - intros net0 now0 now' s0 s1 rows E Ran W.
    destruct (loadAll_freshness net0 now0 s0) as [_ [Hit0 [Miss0 [Next0 _]]]].
    destruct (Next0 rows s1 E) as [C1 Again].
    assert (L1 : LAST s1 = now0).
    { destruct (CACHE s0) as [rows0|] eqn:C0.
      - destruct (Z.lt_ge_cases (now0 - LAST s0) Lookup.TTL_MS) as [F|F].
        + rewrite (Hit0 rows0 eq_refl F) in E. injection E as _ <-. lia.
        + rewrite (Miss0 (or_intror F)) in E. unfold stored in E.
          destruct (Lookup.build net0 s0) as [[rows1|e] s']; [|discriminate].
          now injection E as _ <-.
      - rewrite (Miss0 (or_introl eq_refl)) in E. unfold stored in E.
        destruct (Lookup.build net0 s0) as [[rows1|e] s']; [|discriminate].
        now injection E as _ <-. }
    exists s1. split; [|reflexivity].
    apply Again. rewrite L1, T. lia.
  - intros env s'. unfold s'.
    destruct (KvRoutes.configured env) eqn:C.
    + destruct (loadIndex_configured net s C) as [C' [L' _]].
      now split.
    + rewrite (loadIndex_unconfigured net s C).
      destruct (KvRoutes_build_extends net s) as [C' [L' _]]. now split.
  - intros env C. split.
    + destruct (loadIndex_configured net s C) as [_ [_ [evs E]]].
      now exists evs.
    + intros st stt r rows txt R.
      unfold KvRoutes.loadIndex. unfold bind at 1.
      rewrite (kvGet_configured net s C). cbv zeta. rewrite R. reflexivity.
  - intros env C. rewrite (loadIndex_unconfigured net s C).
    pose proof (KvRoutes_build_extends net s) as X.
    split; [reflexivity|]. split.
    + destruct X as [_ [_ [evs E]]]. now exists evs.
    + apply registryFetches_extends in X.
      rewrite registryFetches_after_registry in X. lia.
Qed.

Lemma cache_freshness_witness :
  Lookup.loadAll garbled_once 3600999%Z warm = (Ok registry_rows, warm)
  /\ KvRoutes.loadIndex no_store registry warm = KvRoutes.build registry warm.
Proof.
  destruct (cache_freshness garbled_once 3600999%Z warm) as [_ [Hit _]].
  destruct (cache_freshness registry 0%Z warm)
    as [_ [_ [_ [_ [_ [_ [_ [_ Kv]]]]]]]].
  split.
  - apply Hit; [reflexivity | vm_compute; reflexivity].
  - now apply Kv.
Defined.

(** ** The resolver, tier by tier *)

Lemma find_None_iff {A} (f : A -> bool) (l : list A) :
  find f l = None <-> forall x, In x l -> f x = false.
Proof.
  split; [intros H x; now apply find_none|].
  intro H. destruct (find f l) as [x|] eqn:F; [|reflexivity].
  destruct (find_some _ _ F) as [Hin Hx]. rewrite (H x Hin) in Hx. discriminate.
Qed.

Lemma includes_of_startsWith (p s : str) :
  startsWith p s = true -> includes p s = true.
Proof. intro H. destruct s; simpl in *; now rewrite H. Qed.

Lemma startsWith_refl (p : str) : startsWith p p = true.
Proof.
  induction p as [|c p IH]; simpl; [reflexivity|].
  now rewrite Ascii.eqb_refl, IH.
Qed.

Lemma resolve_trim (list : list Row) (q : str) :
  Lookup.resolve list (trim q) = Lookup.resolve list q.
Proof. unfold Lookup.resolve. now rewrite trim_idem. Qed.

Lemma numeric_nonempty (q : str) : Lookup.isNumericQuery q = true -> q <> [].
Proof. intros H ->. discriminate H. Qed.

Lemma KvLookup_tickerMatches_plain (Q : str) (x : Row) :
  KvLookup.tickerMatches (SetFrom (map stripDotDash (KvRoutes.norms Q))) x
  = str_eqb (plainKey (ticker x)) (plainKey Q).
Proof.
  unfold KvLookup.tickerMatches. apply eq_true_iff_eq.
  rewrite existsb_exists, str_eqb_eq. split.
  - intros [v [Hv Hm]]. rewrite mem_SetFrom in Hm. apply mem_In in Hm.
    apply in_map_iff in Hv. destruct Hv as [a [<- Ha]].
    apply in_map_iff in Hm. destruct Hm as [b [E Hb]].
    rewrite (KvRoutes_norms_plain Ha), (KvRoutes_norms_plain Hb) in E.
    now symmetry.
  - intro E. exists (plainKey (ticker x)). split.
    + apply in_map_iff. exists (trim (toUpperCase (ticker x))).
      split; [reflexivity | apply KvRoutes_norms_upper].
    + rewrite mem_SetFrom. apply mem_In. rewrite E.
      apply in_map_iff. exists (trim (toUpperCase Q)).
      split; [reflexivity | apply KvRoutes_norms_upper].
Qed.

Lemma KvLookup_resolve_same (list : list Row) (symbol : str) :
  KvLookup.resolve list symbol = Lookup.resolve list symbol.
Proof.
  unfold KvLookup.resolve, Lookup.resolve. cbv zeta.
  destruct (length (trim symbol) =? 0); [reflexivity|].
  destruct (if Lookup.isNumericQuery (trim symbol)
            then find (fun r => str_eqb (cik r) (pad10 (trim symbol))) list
            else None); [reflexivity|].
  rewrite (@find_pointwise _ _ _ list
             (KvLookup_tickerMatches_plain (toUpperCase (trim symbol)))).
  rewrite (@find_pointwise _ _ _ list (tickerMatches_plain (trim symbol))).
  now rewrite plainKey_upper.
Qed.

Lemma resolve_upper (list : list Row) (q : str) :
  Lookup.resolve list (toUpperCase q) = Lookup.resolve list q.
Proof.
  unfold Lookup.resolve. cbv zeta. rewrite trim_upper.
  set (q' := trim q).
  assert (L : length (toUpperCase q') = length q')
    by (unfold toUpperCase; apply length_map).
  assert (N : Lookup.isNumericQuery (toUpperCase q') = Lookup.isNumericQuery q').
  { unfold Lookup.isNumericQuery. rewrite L. f_equal.
    unfold toUpperCase. clear. induction q' as [|c t IH]; simpl;
      [reflexivity | now rewrite isDigit_toUpper, IH]. }
  assert (P : pad10 (toUpperCase q') = pad10 q').
  { unfold pad10. now rewrite stripNonDigits_upper. }
  assert (V : Lookup.norms (toUpperCase q') = Lookup.norms q').
  { unfold Lookup.norms. now rewrite toUpperCase_idem. }
  now rewrite L, N, P, V, toUpperCase_idem.
Qed.

(** X12.  A query of one to ten digits, in any surrounding white space,
    whose padded form is the canonical id of some row resolves to the first
    row with that id, before any symbol or name is looked at; both revisions
    of the resolver agree. *)
Theorem numeric_query_resolves_by_id :
  forall (list : list Row) (q : str) (r : Row),
    Lookup.isNumericQuery (trim q) = true ->
    In r list -> cik r = pad10 (trim q) ->
    exists hit,
      Lookup.resolve list q = Lookup.Found hit
      /\ KvLookup.resolve list q = Lookup.Found hit
      /\ In hit list
      /\ cik hit = pad10 (trim q)
      /\ length (cik hit) = 10
      /\ find (fun x => str_eqb (cik x) (pad10 (trim q))) list = Some hit.
Proof.
  intros list q r N Hin Hc.
  destruct (find (fun x => str_eqb (cik x) (pad10 (trim q))) list)
    as [hit|] eqn:F.
  - destruct (find_some _ _ F) as [Hh Eh]. apply str_eqb_eq in Eh.
    assert (R : Lookup.resolve list q = Lookup.Found hit).
    { rewrite <- resolve_trim.
      rewrite (resolve_tiers list (trim_idem q) (numeric_nonempty N)).
      unfold numericHit. now rewrite N, F. }
    exists hit. repeat split; try assumption.
    + now rewrite KvLookup_resolve_same.
    + rewrite Eh. unfold pad10. rewrite padStart0_length.
      unfold Lookup.isNumericQuery in N.
      apply andb_true_iff in N. destruct N as [N D].
      apply andb_true_iff in N. destruct N as [_ N10].
      apply Nat.leb_le in N10.
      unfold stripNonDigits. rewrite (filter_all D). lia.
  - exfalso. apply (find_none _ _ F) in Hin. simpl in Hin.
    now rewrite Hc, str_eqb_refl in Hin.
Qed.

Lemma numeric_query_resolves_by_id_witness :
  exists hit,
    Lookup.resolve brk_index (lit " 320193 ") = Lookup.Found hit
    /\ cik hit = lit "0000320193".
Proof.
  destruct (@numeric_query_resolves_by_id brk_index (lit " 320193 ")
              (mkRow (lit "AAPL") (lit "0000320193") (lit "Apple Inc.")))
    as [hit [R [_ [_ [C _]]]]].
  - reflexivity.
  - simpl. tauto.
  - reflexivity.
  - exists hit. split; [exact R | exact C].
Defined.

(** X13.  For a query that is not blank, the resolver answers [not_found]
    exactly when no row has the query as its id (for a numeric query), no row
    has the plain key of the query, and no row has the upper-cased query
    within its upper-cased name; every other answer is a row of the index.
    The prefix tier decides which row is returned, never whether one is. *)
Theorem resolver_not_found :
  forall (list : list Row) (q : str),
    trim q <> [] ->
    (Lookup.resolve list q = Lookup.Failed 404 (lit "not_found") <->
     forall r, In r list ->
       (Lookup.isNumericQuery (trim q) = true -> cik r <> pad10 (trim q))
       /\ plainKey (ticker r) <> plainKey q
       /\ includes (toUpperCase (trim q)) (toUpperCase (name r)) = false)
    /\ (forall hit, Lookup.resolve list q = Lookup.Found hit -> In hit list)
    /\ (forall status e, Lookup.resolve list q = Lookup.Failed status e ->
          status = 404).
Proof.
  intros list q NE.
  pose proof (resolve_tiers list (trim_idem q) NE) as T.
  rewrite resolve_trim, plainKey_trim in T.
  set (q' := trim q) in *.
  destruct (numericHit list q') as [h0|] eqn:H0.
  { (* the id tier answers *)
    unfold numericHit in H0.
    destruct (Lookup.isNumericQuery q') eqn:N; [|discriminate].
    destruct (find_some _ _ H0) as [Hin Hc]. apply str_eqb_eq in Hc.
    rewrite T. split; [|split].
    - split; [discriminate|]. intro A. exfalso.
      destruct (A h0 Hin) as [X _]. now apply X.
    - intros hit [= <-]. exact Hin.
    - discriminate. }
  assert (NoId : forall r, In r list ->
            Lookup.isNumericQuery q' = true -> cik r <> pad10 q').
  { intros r Hin N E. unfold numericHit in H0. rewrite N in H0.
    apply (find_none _ _ H0) in Hin. simpl in Hin.
    now rewrite E, str_eqb_refl in Hin. }
  destruct (find (fun x => str_eqb (plainKey (ticker x)) (plainKey q)) list)
    as [h1|] eqn:H1.
  { destruct (find_some _ _ H1) as [Hin Hk]. apply str_eqb_eq in Hk.
    rewrite T. split; [|split].
    - split; [discriminate|]. intro A. exfalso.
      destruct (A h1 Hin) as [_ [X _]]. now apply X.
    - intros hit [= <-]. exact Hin.
    - discriminate. }
  assert (NoKey : forall r, In r list -> plainKey (ticker r) <> plainKey q).
  { intros r Hin E. apply (find_none _ _ H1) in Hin. simpl in Hin.
    now rewrite E, str_eqb_refl in Hin. }
  destruct (find (fun x => startsWith (toUpperCase q') (toUpperCase (name x))) list)
    as [h2|] eqn:H2.
  { destruct (find_some _ _ H2) as [Hin Hs].
    rewrite T. split; [|split].
    - split; [discriminate|]. intro A. exfalso.
      destruct (A h2 Hin) as [_ [_ X]].
      rewrite (includes_of_startsWith Hs) in X. discriminate.
    - intros hit [= <-]. exact Hin.
    - discriminate. }
  destruct (find (fun x => includes (toUpperCase q') (toUpperCase (name x))) list)
    as [h3|] eqn:H3.
  { destruct (find_some _ _ H3) as [Hin Hs].
    rewrite T. split; [|split].
    - split; [discriminate|]. intro A. exfalso.
      destruct (A h3 Hin) as [_ [_ X]]. rewrite Hs in X. discriminate.
    - intros hit [= <-]. exact Hin.
    - discriminate. }
  rewrite T. split; [|split].
  - split; [|reflexivity]. intros _ r Hin. split; [now apply NoId|].
    split; [now apply NoKey|]. now apply (find_none _ _ H3).
  - discriminate.
  - now intros status e [= <- _].
Qed.

Lemma resolver_not_found_witness :
  Lookup.resolve brk_index (lit "tsla") = Lookup.Failed 404 (lit "not_found").
Proof.
  destruct (@resolver_not_found brk_index (lit "tsla")) as [[_ X] _].
  - discriminate.
  - apply X. intros r [<-|[<-|[]]]; repeat split; try discriminate.
Defined.

(** X14.  The resolver looks at a query in upper case and without the white
    space around it: a query, its upper-cased form and its trimmed form get
    the same answer, and the key-value revision of the resolver gives the
    answer of the in-memory revision on every index and query. *)
Theorem resolver_ignores_case_and_margin :
  forall (list : list Row) (q : str),
    Lookup.resolve list (toUpperCase q) = Lookup.resolve list q
    /\ Lookup.resolve list (trim q) = Lookup.resolve list q
    /\ Lookup.resolve list (toLowerCase (toUpperCase q)) = Lookup.resolve list q
    /\ KvLookup.resolve list q = Lookup.resolve list q.
Proof.
  intros list q. split; [apply resolve_upper|]. split; [apply resolve_trim|].
  split; [|apply KvLookup_resolve_same].
  rewrite <- (resolve_upper list (toLowerCase (toUpperCase q))).
  rewrite <- (resolve_upper list q). f_equal.
  unfold toUpperCase, toLowerCase. rewrite !map_map. apply map_ext.
  intro c. ascii_cases c; reflexivity.
Qed.

(** X15.  The lookup handler always answers: [GET] never throws.  When
    [loadAll] delivers the index the answer is the resolver's; when it throws
    the answer is status 500 with the error's message, or ["lookup_failed"]
    for an empty message.  The index is loaded before the query is looked
    at, so a blank query is answered 400 only when the index could be
    loaded, and 500 otherwise. *)
Theorem lookup_always_answers :
  forall (net : Network) (now : Z) (symbol : str) (s : Proc),
    exists reply s',
      Lookup.GET net now symbol s = (Ok reply, s')
      /\ s' = snd (Lookup.loadAll net now s)
      /\ (forall list, fst (Lookup.loadAll net now s) = Ok list ->
            reply = Lookup.resolve list symbol)
      /\ (forall e, fst (Lookup.loadAll net now s) = Throw e ->
            reply = Lookup.Failed 500 (orDefault e (lit "lookup_failed")))
      /\ (trim symbol = [] ->
            match fst (Lookup.loadAll net now s) with
            | Ok _ => reply = Lookup.Failed 400 (lit "empty_query")
            | Throw _ => exists e, reply = Lookup.Failed 500 e
            end).
Proof.
  intros net now symbol s. unfold Lookup.GET, tryCatch, bind.
  destruct (Lookup.loadAll net now s) as [[list|e] s1]; simpl.
  - exists (Lookup.resolve list symbol), s1. repeat split.
    + now intros l [= <-].
    + discriminate.
    + intro B. unfold Lookup.resolve. now rewrite B.
  - exists (Lookup.Failed 500 (orDefault e (lit "lookup_failed"))), s1.
    repeat split.
    + discriminate.
    + now intros e0 [= <-].
    + intros _. now eexists.
Qed.

(** ** Scores *)

Lemma startsWith_of_eqb (a b : str) :
  str_eqb a b = true -> startsWith a b = true.
Proof. intro H. apply str_eqb_eq in H. subst. apply startsWith_refl. Qed.

(** X16.  A row scores 0, and is left out of the suggestions, exactly when
    the plain key of its symbol does not contain the plain form of the query
    and its upper-cased name does not contain the upper-cased query.  Scores
    lie between 0 and 100; and a query whose plain form is empty (only dots,
    dashes and white space around) gives every row at least 90. *)
Theorem score_zero_iff_no_match :
  forall (q : str) (r : Row),
    let Q := trim (toUpperCase q) in
    let qPlain := stripDotDash Q in
    (Suggest.scoreRow q r = 0%Z <->
     includes qPlain (plainKey (ticker r)) = false
     /\ includes Q (toUpperCase (name r)) = false)
    /\ (0 <= Suggest.scoreRow q r <= 100)%Z
    /\ (qPlain = [] -> (90 <= Suggest.scoreRow q r)%Z).
Proof.
  intros q r Q qPlain. rewrite scoreRow_table. unfold scoreTable. cbv zeta.
  fold Q. fold qPlain.
  destruct (str_eqb qPlain (plainKey (ticker r))) eqn:E.
  { pose proof (includes_of_startsWith (startsWith_of_eqb E)) as I.
    split; [|split]; [|lia|lia].
    split; [discriminate | intros [X _]; congruence]. }
  destruct (startsWith qPlain (plainKey (ticker r))) eqn:S1.
  { pose proof (includes_of_startsWith S1) as I.
    split; [|split]; [|lia|lia].
    split; [discriminate | intros [X _]; congruence]. }
  assert (NotEmpty : qPlain <> []).
  { intros X. rewrite X in S1. discriminate. }
  destruct (includes qPlain (plainKey (ticker r))) eqn:I1.
  { split; [|split]; [|lia|contradiction].
    split; [discriminate | intros [X _]; congruence]. }
  destruct (startsWith Q (toUpperCase (name r))) eqn:S2.
  { pose proof (includes_of_startsWith S2) as I.
    split; [|split]; [|lia|contradiction].
    split; [discriminate | intros [_ X]; congruence]. }
  destruct (includes Q (toUpperCase (name r))) eqn:I2.
  { split; [|split]; [|lia|contradiction].
    split; [discriminate | intros [_ X]; congruence]. }
  split; [|split]; [|lia|contradiction]. split; [now split | reflexivity].
Qed.

(** X17.  The score of a row does not change when the query is upper-cased
    or trimmed, and two rows whose symbols have the same plain key and whose
    names agree in upper case get the same score: [BRK.B], [BRK-B] and
    [brkb] are the same symbol to the ranker. *)
Theorem score_ignores_spelling :
  forall (q : str) (r r' : Row),
    Suggest.scoreRow (toUpperCase q) r = Suggest.scoreRow q r
    /\ Suggest.scoreRow (trim q) r = Suggest.scoreRow q r
    /\ (plainKey (ticker r') = plainKey (ticker r) ->
        toUpperCase (name r') = toUpperCase (name r) ->
        Suggest.scoreRow q r' = Suggest.scoreRow q r).
Proof.
  intros q r r'. rewrite !scoreRow_table. unfold scoreTable. cbv zeta.
  split; [|split].
  - now rewrite toUpperCase_idem.
  - now rewrite <- trim_upper, trim_idem.
  - now intros -> ->.
Qed.

Lemma score_ignores_spelling_witness :
  Suggest.scoreRow (lit "brk")
    (mkRow (lit "brk.b") (lit "0001067983") (lit "Berkshire"))
  = Suggest.scoreRow (lit "brk")
      (mkRow (lit "BRK-B") (lit "0001067983") (lit "BERKSHIRE")).
Proof.
  destruct (score_ignores_spelling (lit "brk")
              (mkRow (lit "BRK-B") (lit "0001067983") (lit "BERKSHIRE"))
              (mkRow (lit "brk.b") (lit "0001067983") (lit "Berkshire")))
    as [_ [_ X]].
  apply X; reflexivity.
Defined.

(** ** Ties in the ranking *)

Section Stable.

Variable A : Type.
Variable key : A -> Z.

Let cmp (a b : A) : Z := (key b - key a)%Z.

Lemma insertBy_same_key (k : Z) (x : A) (l : list A) :
  filter (fun a => (key a =? k)%Z) (insertBy cmp x l)
  = filter (fun a => (key a =? k)%Z) (x :: l).
Proof.
  induction l as [|y l IH]; [reflexivity|].
  simpl insertBy. destruct (cmp x y <=? 0)%Z eqn:E; [reflexivity|].
  apply Z.leb_gt in E. unfold cmp in E.
  simpl filter. simpl filter in IH. rewrite IH.
  destruct (key x =? k)%Z eqn:Kx; [|reflexivity].
  apply Z.eqb_eq in Kx.
  assert (Ky : (key y =? k)%Z = false) by (apply Z.eqb_neq; lia).
  now rewrite Ky.
Qed.

(** Sorting by descending key keeps the input order among equal keys. *)
Lemma sortBy_same_key (k : Z) (l : list A) :
  filter (fun a => (key a =? k)%Z) (sortBy cmp l)
  = filter (fun a => (key a =? k)%Z) l.
Proof.
  induction l as [|x l IH]; [reflexivity|].
  simpl sortBy. fold (sortBy cmp l). rewrite insertBy_same_key.
  simpl. now rewrite IH.
Qed.

End Stable.

(** X18.  Rows with the same positive score are suggested in the order of
    the index: when the limit does not cut, the rows of any one positive
    score appear in the answer exactly as they appear in the index. *)
Theorem equal_scores_keep_index_order :
  forall (list : list Row) (q : str) (k z : Z),
    (0 < k)%Z ->
    length (filter (positive q) list) <= Z.to_nat z ->
    filter (fun r => (Suggest.scoreRow q r =? k)%Z)
           (Suggest.rankedBranch list q (Suggest.Int z))
    = filter (fun r => (Suggest.scoreRow q r =? k)%Z) list.
Proof.
  intros list q k z K L. rewrite rankedBranch_rows. simpl. unfold slice0.
  rewrite firstn_all2
    by (rewrite <- (Permutation_length (sortBy_perm (byScore q) _)); exact L).
  unfold byScore.
  rewrite (sortBy_same_key (Suggest.scoreRow q) k).
  clear L. induction list as [|r list IH]; [reflexivity|]. simpl.
  unfold positive at 1.
  destruct (0 <? Suggest.scoreRow q r)%Z eqn:P; simpl; rewrite IH;
    [reflexivity|].
  apply Z.ltb_ge in P.
  assert (X : (Suggest.scoreRow q r =? k)%Z = false) by (apply Z.eqb_neq; lia).
  now rewrite X.
Qed.

Definition tied_index : list Row :=
  [mkRow (lit "ABX") (lit "0000000001") (lit "First");
   mkRow (lit "ABC") (lit "0000000002") (lit "Second");
   mkRow (lit "AB") (lit "0000000003") (lit "Third");
   mkRow (lit "ABA") (lit "0000000004") (lit "Fourth")].

Lemma equal_scores_keep_index_order_witness :
  filter (fun r => (Suggest.scoreRow (lit "ab") r =? 90)%Z)
         (Suggest.rankedBranch tied_index (lit "ab") (Suggest.Int 10))
  = [mkRow (lit "ABX") (lit "0000000001") (lit "First");
     mkRow (lit "ABC") (lit "0000000002") (lit "Second");
     mkRow (lit "ABA") (lit "0000000004") (lit "Fourth")].
Proof.
  rewrite (@equal_scores_keep_index_order tied_index (lit "ab") 90 10).
  - reflexivity.
  - lia.
  - vm_compute. lia.
Defined.

(** ** The suggest handler *)

Lemma sliceTo_clamped_length {A} (limitParam : Suggest.JsNumber) (l : list A) :
  length (Suggest.sliceTo (Suggest.clampLimit limitParam) l) <= 300.
Proof.
  destruct limitParam as [|z]; simpl; [lia|]. unfold slice0.
  rewrite length_firstn. lia.
Qed.

Lemma suggest_clamped_length (lc : str -> str -> Z) (list : list Row) (q : str)
    (limitParam : Suggest.JsNumber) :
  length (Suggest.suggest lc list q (Suggest.clampLimit limitParam)) <= 300.
Proof.
  unfold Suggest.suggest. cbv zeta.
  destruct (length (toUpperCase q) =? 1).
  - apply sliceTo_clamped_length.
  - unfold Suggest.rankedBranch. rewrite length_map.
    apply sliceTo_clamped_length.
Qed.

Lemma suggest_In (lc : str -> str -> Z) (list : list Row) (q : str)
    (limit : Suggest.JsNumber) (r : Row) :
  In r (Suggest.suggest lc list q limit) -> In r list.
Proof.
  unfold Suggest.suggest. cbv zeta.
  destruct (length (toUpperCase q) =? 1).
  - unfold Suggest.startsBranch. intro H. apply sliceTo_In in H.
    apply sortBy_In in H. apply filter_In in H. tauto.
  - rewrite rankedBranch_rows. intro H. apply sliceTo_In in H.
    apply sortBy_In in H. apply filter_In in H. tauto.
Qed.

(** X19.  The suggest handler always answers, with at most 300 rows,
    whatever the [limit] parameter is.  A blank query gets the empty list and
    causes no request at all.  When the index cannot be loaded the answer is
    the empty list with the error's message; otherwise every suggested row
    is a row of the index. *)
Theorem suggest_always_answers :
  forall (localeCompare : str -> str -> Z) (env : KvRoutes.KvEnv)
         (net : Network) (qParam : option str)
         (limitParam : option Suggest.JsNumber) (s : Proc),
    let q := trim (jsStringOrEmpty qParam) in
    exists reply s',
      Suggest.GET localeCompare env net qParam limitParam s = (Ok reply, s')
      /\ length (Suggest.results reply) <= 300
      /\ (q = [] -> reply = Suggest.mkReply [] None /\ s' = s)
      /\ (q <> [] ->
          s' = snd (KvRoutes.loadIndex env net s)
          /\ (forall e, fst (KvRoutes.loadIndex env net s) = Throw e ->
                reply = Suggest.mkReply []
                          (Some (orDefault e (lit "suggest_failed"))))
          /\ (forall list, fst (KvRoutes.loadIndex env net s) = Ok list ->
                Suggest.error reply = None
                /\ forall r, In r (Suggest.results reply) -> In r list)).
Proof.
  intros lc env net qParam limitParam s q.
  unfold Suggest.GET, tryCatch. cbv zeta. fold q.
  destruct q as [|c q0] eqn:Q.
  - exists (Suggest.mkReply [] None), s.
    split; [reflexivity|]. split; [simpl; lia|]. split; [now split|].
    intro X. contradiction.
  - change (length (c :: q0) =? 0) with false. cbv iota. unfold bind.
    destruct (KvRoutes.loadIndex env net s) as [[list|e] s1]; simpl.
    + eexists. exists s1. split; [reflexivity|]. simpl. split.
      * apply suggest_clamped_length.
      * split; [discriminate|]. intros _. split; [reflexivity|].
        split; [discriminate|]. intros l [= <-]. split; [reflexivity|].
        intros r. apply suggest_In.
    + eexists. exists s1. split; [reflexivity|]. simpl. split; [lia|].
      split; [discriminate|]. intros _. split; [reflexivity|].
      split; [now intros e0 [= <-] | discriminate].
Qed.

(** ** Where matches come from *)

Lemma scan_origin {A} (matchAt : str -> option (A * nat)) (text : str) :
  forall (skip : nat) (a : A),
    In a (Filings.scan matchAt skip text) ->
    exists pre s n, text = pre ++ s /\ matchAt s = Some (a, n).
Proof.
  induction text as [|c text IH]; intros skip a H; simpl in H; [destruct H|].
  assert (Tail : forall k, In a (Filings.scan matchAt k text) ->
            exists pre s n, c :: text = pre ++ s /\ matchAt s = Some (a, n)).
  { intros k Hk. destruct (IH k a Hk) as [pre [s [n [E M]]]].
    exists (c :: pre), s, n. split; [simpl; now rewrite E | exact M]. }
  destruct skip as [|k]; [|now apply (Tail k)].
  destruct (matchAt (c :: text)) as [[b n]|] eqn:E; [|now apply (Tail 0)].
  destruct H as [<-|H]; [|now apply (Tail (n - 1))].
  now exists [], (c :: text), n.
Qed.

Lemma scan_nil_no_match {A} (matchAt : str -> option (A * nat)) (pre : str) :
  forall (text : str) (c : ascii) (s : str),
    Filings.scan matchAt 0 text = [] ->
    text = pre ++ c :: s -> matchAt (c :: s) = None.
Proof.
  induction pre as [|p pre IH]; intros text c s H E; subst text; simpl in H.
  - destruct (matchAt (c :: s)) as [[a n]|]; [discriminate | reflexivity].
  - destruct (matchAt (p :: pre ++ c :: s)) as [[a n]|]; [discriminate|].
    now apply (IH (pre ++ c :: s)).
Qed.

(** ** Amounts and digits *)

Lemma no_digit_tail (c : ascii) (s : str) :
  existsb isDigit (c :: s) = false ->
  isDigit c = false /\ existsb isDigit s = false.
Proof. simpl. intro H. now apply orb_false_iff in H. Qed.

Lemma takeWhile_no_digit (s : str) :
  existsb isDigit s = false -> Filings.takeWhile isDigit s = [].
Proof.
  destruct s as [|c s]; [reflexivity|]. intro H.
  destruct (no_digit_tail H) as [D _]. simpl. now rewrite D.
Qed.

Lemma no_digit_drop (p : ascii -> bool) (s : str) :
  existsb isDigit s = false ->
  existsb isDigit
    match s with
    | c :: s' => if p c then s' else s
    | [] => s
    end = false.
Proof.
  intro H. destruct s as [|c s']; [exact H|].
  destruct (p c); [now apply (no_digit_tail H) | exact H].
Qed.

Lemma amountAt_needs_digit (s : str) :
  existsb isDigit s = false -> Filings.amountAt s = None.
Proof.
  intro H. unfold Filings.amountAt. cbv zeta.
  rewrite takeWhile_no_digit; [reflexivity|].
  apply (no_digit_drop isSpace).
  apply (no_digit_drop (fun c => Ascii.eqb c "$"%char)). exact H.
Qed.

Lemma scan_no_digit (text : str) :
  existsb isDigit text = false ->
  forall skip, Filings.scan Filings.amountAt skip text = [].
Proof.
  induction text as [|c text IH]; intros H skip; [reflexivity|].
  destruct (no_digit_tail H) as [_ Ht]. simpl.
  destruct skip as [|k]; [|now apply IH].
  rewrite (amountAt_needs_digit H). now apply IH.
Qed.

Lemma digit_plain_char (d : ascii) :
  isDigit d = true -> Ascii.eqb d "$"%char = false /\ isSpace d = false.
Proof. ascii_cases d; intro H; try discriminate H; split; reflexivity. Qed.

Lemma amountAt_at_digit (d : ascii) (s : str) :
  isDigit d = true -> Filings.amountAt (d :: s) <> None.
Proof.
  intro D. unfold Filings.amountAt. cbv zeta.
  destruct (digit_plain_char D) as [N S]. rewrite N, S.
  simpl Filings.takeWhile. rewrite D.
  change (firstn 3 (d :: Filings.takeWhile isDigit s))
    with (d :: firstn 2 (Filings.takeWhile isDigit s)).
  simpl length. simpl Nat.eqb. discriminate.
Qed.

Lemma not_negative (v : Num.Number) :
  amountLike v = true -> Num.gt (Num.ofInteger 0) v = false.
Proof. now destruct v as [s|s| |[] m e]. Qed.

(** X20.  A text has a match of the amount pattern exactly when it holds a
    digit: any numeral counts as an amount, with or without a dollar sign.
    So the amount of a text without a digit is unset, and an amount that is
    set comes from a text with a digit; it is a finite number and not
    negative. *)
Theorem amount_needs_a_digit :
  forall text : str,
    (Filings.scan Filings.amountAt 0 text = [] <->
     existsb isDigit text = false)
    /\ (existsb isDigit text = false ->
        Filings.extractLargestAmount text = None)
    /\ (forall v, Filings.extractLargestAmount text = Some v ->
          existsb isDigit text = true
          /\ Num.isFinite v = true
          /\ Num.gt (Num.ofInteger 0) v = false).
Proof.
  intro text.
  assert (NoDigit : existsb isDigit text = false ->
                    Filings.extractLargestAmount text = None).
  { intro E. unfold Filings.extractLargestAmount.
    now rewrite (scan_no_digit E). }
  split; [|split].
  - split.
    + intro S. destruct (existsb isDigit text) eqn:E; [|reflexivity].
      exfalso. apply existsb_exists in E. destruct E as [d [Hd D]].
      apply in_split in Hd. destruct Hd as [pre [s E]].
      apply (@amountAt_at_digit d s D).
      now apply (scan_nil_no_match (text := text) (pre := pre)).
    + intro E. now apply scan_no_digit.
  - exact NoDigit.
  - intros v E.
    pose proof (@amount_loop_max (Filings.scan Filings.amountAt 0 text) None
                  ltac:(discriminate)) as L.
    change (fold_left Filings.amountStep
              (Filings.scan Filings.amountAt 0 text) None)
      with (Filings.extractLargestAmount text) in L.
    rewrite E in L. destruct L as [Av _]. split; [|split].
    + destruct (existsb isDigit text) eqn:D; [reflexivity|].
      rewrite (NoDigit eq_refl) in E. discriminate.
    + now apply amountLike_finite.
    + now apply not_negative.
Qed.

(** ** Items and the text *)

Lemma toLower_of_toUpper (c : ascii) : toLower (toUpper c) = toLower c.
Proof. ascii_cases c; reflexivity. Qed.

Lemma toLowerCase_of_upper (a b : str) :
  map toUpper a = map toUpper b -> toLowerCase a = toLowerCase b.
Proof.
  intro H. unfold toLowerCase.
  assert (X : forall s, map toLower s = map toLower (map toUpper s)).
  { intro s. rewrite map_map. apply map_ext. intro c.
    symmetry. apply toLower_of_toUpper. }
  now rewrite (X a), (X b), H.
Qed.

Lemma itemAt_word (s m : str) (n : nat) :
  Filings.itemAt s = Some (m, n) ->
  toLowerCase (firstn 4 m) = lit "item" /\ m = firstn n s /\ 9 <= n.
Proof.
  unfold Filings.itemAt.
  destruct (Filings.litCI (lit "Item") s) as [s1|] eqn:L; [|discriminate].
  destruct (litCI_split L) as [m0 [-> Hm0]].
  assert (L4 : length m0 = 4).
  { apply (f_equal (@length ascii)) in Hm0. now rewrite !length_map in Hm0. }
  assert (W : toLowerCase m0 = lit "item")
    by exact (toLowerCase_of_upper Hm0).
  destruct (length (Filings.takeWhile isSpace s1) =? 0) eqn:E0; [discriminate|].
  apply Nat.eqb_neq in E0.
  assert (Word : forall k, 4 <= k ->
            toLowerCase (firstn 4 (firstn k (m0 ++ s1))) = lit "item").
  { intros k Hk. rewrite firstn_firstn.
    replace (Nat.min 4 k) with 4 by lia.
    rewrite firstn_app. replace (4 - length m0) with 0 by lia.
    rewrite firstn_all2 by lia. simpl. now rewrite app_nil_r. }
  assert (G : forall k, 9 <= k ->
            Some (firstn k (m0 ++ s1), k) = Some (m, n) ->
            toLowerCase (firstn 4 m) = lit "item"
            /\ m = firstn n (m0 ++ s1) /\ 9 <= n).
  { intros k Hk [= <- <-]. split; [apply Word; lia|].
    split; [reflexivity | exact Hk]. }
  destruct (Filings.majorMinor 2 (dropWhile isSpace s1)).
  - apply G. lia.
  - destruct (Filings.majorMinor 1 (dropWhile isSpace s1)); [|discriminate].
    apply G. lia.
Qed.

Definition MATERIAL : str := lit "Material Agreement (Item 1.01)".
Definition EXECUTIVE : str := lit "Executive Change (Item 5.02)".

(** X21.  Whatever the text, [items] holds no string twice and each item is
    a piece of the text that starts with the word "item" in some letter
    case.  A badge is given exactly when some item reads "item 1.01" (or
    "item 5.02") after lower-casing, so an item code with any other white
    space than one blank gets no badge; there are no other badges, none
    twice, and none without items. *)
Theorem items_come_from_text :
  forall text : str,
    let items := fst (Filings.detectItems text) in
    let badges := snd (Filings.detectItems text) in
    NoDup items
    /\ (forall it, In it items ->
          exists pre post, text = pre ++ it ++ post
                           /\ toLowerCase (firstn 4 it) = lit "item")
    /\ (In MATERIAL badges <->
        exists it, In it items /\ toLowerCase it = lit "item 1.01")
    /\ (In EXECUTIVE badges <->
        exists it, In it items /\ toLowerCase it = lit "item 5.02")
    /\ (forall b, In b badges -> b = MATERIAL \/ b = EXECUTIVE)
    /\ NoDup badges
    /\ (items = [] -> badges = []).
Proof.
  intros text items badges.
  assert (B := detectItems_badges text). fold items badges in B.
  assert (M : forall code, mem code (map toLowerCase items) = true <->
                exists it, In it items /\ toLowerCase it = code).
  { intro code. rewrite mem_In, in_map_iff. split.
    - intros [it [E H]]. now exists it.
    - intros [it [H E]]. now exists it. }
  split; [|split; [|split; [|split; [|split; [|split]]]]].
  - unfold items. rewrite detectItems_items. apply SetFrom_NoDup.
  - intros it Hit. unfold items in Hit. rewrite detectItems_items in Hit.
    rewrite SetFrom_In in Hit.
    destruct (scan_origin Hit) as [pre [s [n [E Hm]]]].
    destruct (itemAt_word Hm) as [W [F _]].
    exists pre, (skipn n s). split; [|exact W].
    rewrite E, F. now rewrite firstn_skipn.
  - rewrite <- M, B.
    destruct (mem (lit "item 1.01") (map toLowerCase items));
      destruct (mem (lit "item 5.02") (map toLowerCase items)); simpl;
      split; intro H; try reflexivity; try tauto; try discriminate;
      destruct H as [H|H]; try discriminate H; try destruct H.
  - rewrite <- M, B.
    destruct (mem (lit "item 1.01") (map toLowerCase items));
      destruct (mem (lit "item 5.02") (map toLowerCase items)); simpl;
      split; intro H; try reflexivity; try tauto; try discriminate;
      destruct H as [H|H]; try discriminate H; try destruct H.
  - intros b. rewrite B.
    destruct (mem (lit "item 1.01") (map toLowerCase items));
      destruct (mem (lit "item 5.02") (map toLowerCase items)); simpl;
      unfold MATERIAL, EXECUTIVE; intuition.
  - rewrite B.
    destruct (mem (lit "item 1.01") (map toLowerCase items));
      destruct (mem (lit "item 5.02") (map toLowerCase items)); simpl;
      repeat constructor; simpl; intuition discriminate.
  - intro E. rewrite B, E. reflexivity.
Qed.

(** ** Stripping tags *)

Definition isLt (c : ascii) : bool := Ascii.eqb c "<"%char.
Definition notGt (c : ascii) : bool := negb (Ascii.eqb c ">"%char).

Lemma tagAt_not_lt (c : ascii) (s : str) :
  isLt c = false -> Filings.tagAt (c :: s) = None.
Proof. unfold isLt, Filings.tagAt. now intros ->. Qed.

Lemma replaceAll_cons (matchAt : str -> option nat) (by_ : str) (c : ascii)
    (t : str) :
  Filings.replaceAll matchAt by_ 0 (c :: t)
  = match matchAt (c :: t) with
    | Some n => by_ ++ Filings.replaceAll matchAt by_ (n - 1) t
    | None => c :: Filings.replaceAll matchAt by_ 0 t
    end.
Proof. reflexivity. Qed.

Lemma replaceAll_plain (by_ : str) (a t : str) :
  forallb (fun c => negb (isLt c)) a = true ->
  Filings.replaceAll Filings.tagAt by_ 0 (a ++ t)
  = a ++ Filings.replaceAll Filings.tagAt by_ 0 t.
Proof.
  induction a as [|c a IH]; intro H; [reflexivity|].
  simpl in H. apply andb_true_iff in H. destruct H as [Hc Ha].
  apply negb_true_iff in Hc. simpl app. rewrite replaceAll_cons.
  rewrite (tagAt_not_lt _ Hc). now rewrite (IH Ha).
Qed.

Lemma replaceAll_skip (matchAt : str -> option nat) (by_ x y : str) :
  Filings.replaceAll matchAt by_ (length x) (x ++ y)
  = Filings.replaceAll matchAt by_ 0 y.
Proof. induction x as [|c x IH]; [reflexivity | exact IH]. Qed.

Lemma replaceAll_length (matchAt : str -> option nat) (c : ascii) (text : str) :
  forall skip,
    length (Filings.replaceAll matchAt [c] skip text) <= length text.
Proof.
  induction text as [|d text IH]; intro skip; simpl; [lia|].
  destruct skip as [|k].
  - destruct (matchAt (d :: text)) as [n|]; simpl.
    + specialize (IH (n - 1)). lia.
    + specialize (IH 0). lia.
  - specialize (IH k). lia.
Qed.

Lemma takeWhile_stop (p : ascii -> bool) (body : str) (x : ascii) (b : str) :
  forallb p body = true -> p x = false ->
  Filings.takeWhile p (body ++ x :: b) = body.
Proof.
  intros H Hx. induction body as [|c body IH]; simpl; [now rewrite Hx|].
  simpl in H. apply andb_true_iff in H. destruct H as [Hc Hb].
  now rewrite Hc, (IH Hb).
Qed.

Lemma tagAt_tag (c : ascii) (body b : str) :
  forallb notGt (c :: body) = true ->
  Filings.tagAt ("<"%char :: (c :: body) ++ ">"%char :: b)
  = Some (length (c :: body) + 2).
Proof.
  intro H. unfold Filings.tagAt.
  change (Ascii.eqb "<"%char "<"%char) with true. cbv iota.
  change (fun d => negb (Ascii.eqb d ">"%char)) with notGt.
  rewrite (@takeWhile_stop notGt (c :: body) ">"%char b H eq_refl).
  rewrite skipn_app, skipn_all, Nat.sub_diag. reflexivity.
Qed.

(** X22.  Tag stripping leaves a text without ["<"] as it is and never
    makes a text longer; a tag, that is ["<"], one or more characters other
    than [">"], and [">"], that follows text without ["<"] becomes one
    blank, and stripping goes on behind it. *)
Theorem tags_become_blanks :
  forall (a : str) (c : ascii) (body b : str),
    forallb (fun x => negb (isLt x)) a = true ->
    forallb notGt (c :: body) = true ->
    Filings.stripTags (a ++ "<"%char :: (c :: body) ++ ">"%char :: b)
    = a ++ " "%char :: Filings.stripTags b
    /\ Filings.stripTags a = a
    /\ forall raw, length (Filings.stripTags raw) <= length raw.
Proof.
  intros a c body b Ha Hb. unfold Filings.stripTags. split; [|split].
  - rewrite (replaceAll_plain _ _ Ha). f_equal.
    rewrite replaceAll_cons, (tagAt_tag b Hb).
    replace (length (c :: body) + 2 - 1) with (length ((c :: body) ++ [">"%char]))
      by (rewrite length_app; simpl; lia).
    replace ((c :: body) ++ ">"%char :: b)
      with (((c :: body) ++ [">"%char]) ++ b)
      by (now rewrite <- app_assoc).
    now rewrite replaceAll_skip.
  - rewrite <- (app_nil_r a) at 1. rewrite (replaceAll_plain _ _ Ha).
    simpl. apply app_nil_r.
  - intro raw. apply replaceAll_length.
Qed.

Lemma tags_become_blanks_witness :
  Filings.stripTags (lit "Item <b>5.02</b>") = lit "Item  5.02 ".
Proof.
  destruct (@tags_become_blanks (lit "Item ") "b"%char [] (lit "5.02</b>")
              eq_refl eq_refl) as [E _].
  change (lit "Item <b>5.02</b>")
    with (lit "Item " ++ "<"%char :: ("b"%char :: []) ++ ">"%char :: lit "5.02</b>").
  rewrite E.
  destruct (@tags_become_blanks (lit "5.02") "/"%char (lit "b") []
              eq_refl eq_refl) as [E' _].
  change (lit "5.02</b>")
    with (lit "5.02" ++ "<"%char :: ("/"%char :: lit "b") ++ ">"%char :: []).
  rewrite E'. reflexivity.
Defined.

(** ** The cost of one filings request *)

(** The documents the loop fetches, in order. *)
Definition docUrls (cikParam : str) (recent : Recent) (indices : list nat)
    : list str :=
  flat_map (fun i => match docUrl cikParam recent i with
                     | Some u => [u]
                     | None => []
                     end) indices.

Lemma enrichLoop_trace (net : Network) (cikParam name : str) (recent : Recent)
    (indices : list nat) :
  forall s,
    exists out,
      Filings.enrichLoop net cikParam name recent indices s
      = (Ok out,
         withTrace s (rev (map EvFetch (docUrls cikParam recent indices))
                      ++ trace s)).
Proof.
  induction indices as [|i rest IH]; intro s.
  - exists []. destruct s; reflexivity.
  - simpl Filings.enrichLoop. unfold bind at 1. rewrite enrichOne_run.
    unfold docUrls. simpl flat_map. fold (docUrls cikParam recent rest).
    destruct (docUrl cikParam recent i) as [url|].
    + destruct (IH (after (EvFetch url) s)) as [out E].
      unfold bind at 1. rewrite E. eexists. unfold ret. f_equal.
      unfold withTrace, after. simpl. f_equal.
      now rewrite <- app_assoc.
    + destruct (IH s) as [out E].
      unfold bind at 1. rewrite E. eexists. reflexivity.
Qed.

Lemma docUrls_spec (cikParam : str) (recent : Recent) (indices : list nat) :
  length (docUrls cikParam recent indices) <= length indices
  /\ forall u, In u (docUrls cikParam recent indices) ->
       Filings.isHtmlLike u = true
       /\ exists i, In i indices /\ Filings.primaryUrl cikParam recent i = Some u.
Proof.
  induction indices as [|i rest [L IH]]; [split; [simpl; lia | intros u []]|].
  unfold docUrls. simpl flat_map. fold (docUrls cikParam recent rest).
  destruct (docUrl cikParam recent i) as [url|] eqn:D.
  - split; [simpl; lia|]. intros u [<-|Hu].
    + unfold docUrl in D.
      destruct (Filings.primaryUrl cikParam recent i) as [p|] eqn:P;
        [|discriminate].
      destruct (Filings.isHtmlLike p) eqn:H; [|discriminate].
      injection D as <-. split; [exact H|]. exists i. split; [now left | exact P].
    + destruct (IH u Hu) as [H [j [Hj P]]]. split; [exact H|].
      exists j. split; [now right | exact P].
  - split; [simpl; lia|]. intros u Hu.
    destruct (IH u Hu) as [H [j [Hj P]]]. split; [exact H|].
    exists j. split; [now right | exact P].
Qed.

Lemma fetches_only (urls : list str) (tr : list Event) :
  length (filter isFetch (rev (map EvFetch urls) ++ tr))
  = length (filter isFetch tr) + length urls
  /\ sleptMs (rev (map EvFetch urls) ++ tr) = sleptMs tr.
Proof.
  induction urls as [|u urls [IH1 IH2]]; [simpl; split; [lia | reflexivity]|].
  simpl. rewrite <- !app_assoc. simpl.
  assert (X : forall l, length (filter isFetch (l ++ EvFetch u :: tr))
                        = S (length (filter isFetch (l ++ tr)))
                        /\ sleptMs (l ++ EvFetch u :: tr) = sleptMs (l ++ tr)).
  { induction l as [|e l [I1 I2]]; [split; reflexivity|].
    simpl. destruct e; simpl; rewrite ?I1, ?I2; split; reflexivity. }
  destruct (X (rev (map EvFetch urls))) as [X1 X2].
  rewrite X1, X2, IH1, IH2. split; [lia | reflexivity].
Qed.

Lemma docUrls_unfold (cikParam : str) (recent : Recent) (indices : list nat) :
  docUrls cikParam recent indices
  = flat_map (fun i => match Filings.primaryUrl cikParam recent i with
                       | Some u => if Filings.isHtmlLike u then [u] else []
                       | None => []
                       end) indices.
Proof.
  unfold docUrls. induction indices as [|i rest IH]; [reflexivity|].
  simpl. rewrite IH. f_equal. unfold docUrl.
  destruct (Filings.primaryUrl cikParam recent i) as [u|]; [|reflexivity].
  now destruct (Filings.isHtmlLike u).
Qed.

(** X23.  The effects of the enrichment loop are exactly these: for each of
    the first [min 12] filings of the index, in order, one request for its
    primary document if the URL of that document ends in [.htm], [.html] or
    [.txt] in any letter case, and nothing otherwise.  So each such document
    is requested once, no other request is made, at most twelve in all, and
    the loop never sleeps or retries, whatever the forms are and whatever the
    network answers. *)
Theorem enrichment_fetch_budget :
  forall (net : Network) (cikParam name : str) (recent : Recent) (s : Proc),
    let n := Nat.min 12 (length (accessionNumber recent)) in
    let urls :=
      flat_map (fun i => match Filings.primaryUrl cikParam recent i with
                         | Some u => if Filings.isHtmlLike u then [u] else []
                         | None => []
                         end) (seq 0 n) in
    exists out,
      Filings.enrichLoop net cikParam name recent (seq 0 n) s
      = (Ok out, withTrace s (rev (map EvFetch urls) ++ trace s))
      /\ length urls <= n /\ n <= 12
      /\ fetchCount (withTrace s (rev (map EvFetch urls) ++ trace s))
         = fetchCount s + length urls
      /\ sleptMs (rev (map EvFetch urls) ++ trace s) = sleptMs (trace s).
Proof.
  intros net cikParam name recent s n urls.
  destruct (enrichLoop_trace net cikParam name recent (seq 0 n) s) as [out E].
  destruct (docUrls_spec cikParam recent (seq 0 n)) as [L _].
  rewrite length_seq in L.
  destruct (fetches_only (docUrls cikParam recent (seq 0 n)) (trace s))
    as [F Sl].
  rewrite docUrls_unfold in E, L, F, Sl. fold urls in E, L, F, Sl.
  exists out.
  split; [exact E|]. split; [exact L|]. split; [unfold n; lia|].
  split; [exact F | exact Sl].
Qed.

(** ** What a record can hold *)

Lemma eightK_not_offering (f : str) :
  startsWith (lit "8-K") f = true -> mem f Filings.OFFERING_FORMS = false.
Proof.
  intro H. destruct (mem f Filings.OFFERING_FORMS) eqn:M; [|reflexivity].
  apply mem_In in M. simpl in M.
  destruct M as [<-|[<-|[<-|[<-|[<-|[]]]]]]; discriminate H.
Qed.

Lemma badges_need_items (text : str) :
  fst (Filings.detectItems text) = [] -> snd (Filings.detectItems text) = [].
Proof. intro E. rewrite detectItems_badges, E. reflexivity. Qed.

Lemma minedFrom_gated (formCode : str) (t : Response) :
  let m := minedFrom formCode t in
  (fst (fst m) <> [] ->
   startsWith (lit "8-K") (toUpperCase formCode) = true
   /\ fetchFailed t = false)
  /\ (snd m <> None ->
      mem (toUpperCase formCode) Filings.OFFERING_FORMS = true
      /\ fetchFailed t = false)
  /\ (snd (fst m) <> [] -> fst (fst m) <> [])
  /\ (snd m = None \/ fst (fst m) = []).
Proof.
  assert (Off : forall m : list str * list str * option Num.Number,
            m = unenriched ->
            (fst (fst m) <> [] ->
             startsWith (lit "8-K") (toUpperCase formCode) = true
             /\ fetchFailed t = false)
            /\ (snd m <> None ->
                mem (toUpperCase formCode) Filings.OFFERING_FORMS = true
                /\ fetchFailed t = false)
            /\ (snd (fst m) <> [] -> fst (fst m) <> [])
            /\ (snd m = None \/ fst (fst m) = [])).
  { intros m ->. simpl. split; [|split; [|split]].
    - intro H. now elim H.
    - intro H. now elim H.
    - intro H. exact H.
    - now left. }
  destruct t as [e|[] st stt j [raw|e]]; try (apply Off; reflexivity).
  clear Off. unfold minedFrom, fetchFailed. cbv zeta.
  destruct (startsWith (lit "8-K") (toUpperCase formCode)) eqn:K.
  - rewrite (eightK_not_offering K). cbn [fst snd].
    split; [|split; [|split]].
    + intros _. now split.
    + intro H. now elim H.
    + intros H E. apply H. now apply badges_need_items.
    + now left.
  - cbn [fst snd]. split; [|split; [|split]].
    + intro H. now elim H.
    + intro H. split; [|reflexivity].
      destruct (mem (toUpperCase formCode) Filings.OFFERING_FORMS);
        [reflexivity | now elim H].
    + intro H. exact H.
    + now right.
Qed.

Lemma enriched_In (net : Network) (cikParam name : str) (recent : Recent)
    (indices : list nat) (r : Filings.Filing) :
  forall count,
    In r (enriched net cikParam name recent indices count) ->
    exists i, In i indices
      /\ (r = Filings.record cikParam name recent i unenriched
          \/ exists url t, docUrl cikParam recent i = Some url
               /\ r = Filings.record cikParam name recent i
                        (minedFrom (formCodeOf recent i) t)).
Proof.
  induction indices as [|i rest IH]; intros count H; [destruct H|].
  simpl in H. destruct (docUrl cikParam recent i) as [url|] eqn:D;
    destruct H as [<-|H].
  - exists i. split; [now left|]. right. now exists url, (net count url).
  - destruct (IH _ H) as [j [Hj X]]. exists j. split; [now right | exact X].
  - exists i. split; [now left | now left].
  - destruct (IH _ H) as [j [Hj X]]. exists j. split; [now right | exact X].
Qed.

Lemma docUrl_Some (cikParam : str) (recent : Recent) (i : nat) (url : str) :
  docUrl cikParam recent i = Some url ->
  Filings.primaryUrl cikParam recent i = Some url
  /\ Filings.isHtmlLike url = true.
Proof.
  unfold docUrl. destruct (Filings.primaryUrl cikParam recent i) as [p|];
    [|discriminate].
  destruct (Filings.isHtmlLike p) eqn:H; [|discriminate].
  now intros [= <-].
Qed.

(** X24.  The loop never throws, and what a record holds is gated by its
    form: [items] are set only when the form starts with [8-K] in any letter
    case, [amount_usd] only when the form is one of the five offering forms
    in any letter case, and both only when the primary document has an
    html-like name.  [badges] are set only together with [items], and no
    record has both [items] and an [amount_usd]. *)
Theorem record_gated_by_form :
  forall (net : Network) (cikParam name : str) (recent : Recent)
         (indices : list nat) (s : Proc),
    exists out s',
      Filings.enrichLoop net cikParam name recent indices s = (Ok out, s')
      /\ forall r, In r out ->
           let html :=
             exists u, Filings.f_primary_doc_url r = Some u
                       /\ Filings.isHtmlLike u = true in
           (Filings.f_items r <> [] ->
            startsWith (lit "8-K") (toUpperCase (Filings.f_form r)) = true
            /\ html)
           /\ (Filings.f_amount_usd r <> None ->
               mem (toUpperCase (Filings.f_form r)) Filings.OFFERING_FORMS = true
               /\ html)
           /\ (Filings.f_badges r <> [] -> Filings.f_items r <> [])
           /\ (Filings.f_amount_usd r = None \/ Filings.f_items r = []).
Proof.
  intros net cikParam name recent indices s.
  destruct (enrichLoop_run net cikParam name recent indices s) as [s' E].
  exists (enriched net cikParam name recent indices (fetchCount s)), s'.
  split; [exact E|]. intros r Hr html.
  destruct (enriched_In Hr) as [i [_ [->|[url [t [D ->]]]]]].
  - simpl. split; [|split; [|split]].
    + intro H. now elim H.
    + intro H. now elim H.
    + intro H. exact H.
    + now left.
  - destruct (docUrl_Some D) as [P H].
    destruct (minedFrom_gated (formCodeOf recent i) t) as [G1 [G2 [G3 G4]]].
    assert (Hh : html) by (exists url; split; [exact P | exact H]).
    cbn [Filings.f_items Filings.f_badges Filings.f_amount_usd Filings.f_form
         Filings.record].
    fold (formCodeOf recent i).
    split; [|split; [|split]].
    + intro X. split; [now apply G1 | exact Hh].
    + intro X. split; [now apply G2 | exact Hh].
    + exact G3.
    + exact G4.
Qed.

(** ** The answers of the filings route *)

(** X25.  The filings route never throws and never sleeps or touches the
    index cache.  It asks for the filing index once.  A rejected request or
    an index that cannot be parsed is answered with status 500 and the
    message of the error, or [Unexpected error] when that is empty; an
    answer that is not ok with status 502 and the upstream status in the
    message.  A parsed index that has filings but lacks one of the columns
    [form], [filingDate] and [primaryDocument] is answered with status 500
    and the message of the [TypeError].  In all these cases no document is
    fetched.  For every other parsed index whose cells are strings the
    answer is a listing of [min 12] of the number of accession numbers,
    after at most twelve document fetches. *)
Theorem filings_route_always_answers :
  forall (net : Network) (cikParam : str) (s : Proc),
    exists reply urls,
      Filings.GET net cikParam s
      = (Ok reply,
         withTrace s (rev (map EvFetch urls)
                      ++ EvFetch (submissionsUrl cikParam) :: trace s))
      /\ length urls <= 12
      /\ match net (fetchCount s) (submissionsUrl cikParam) with
         | NetworkError e =>
             reply = Filings.Failed 500 (orDefault e (lit "Unexpected error"))
             /\ urls = []
         | Http false status _ _ _ =>
             reply = Filings.Failed 502
                       (lit "SEC fetch failed (" ++ status ++ lit ")")
             /\ urls = []
         | Http true _ _ (Throw e) _ =>
             reply = Filings.Failed 500 (orDefault e (lit "Unexpected error"))
             /\ urls = []
         | Http true _ _ (Ok data) _ =>
             let n :=
               Nat.min 12 (length (accessionNumber (Filings.recentOf data))) in
             if Filings.lacksColumn data && (0 <? n)
             then reply = Filings.Failed 500 Filings.TYPE_ERROR /\ urls = []
             else exists out, reply = Filings.Listing out /\ length out = n
         end.
Proof.
  intros net cikParam s.
  destruct (net (fetchCount s) (submissionsUrl cikParam))
    as [e|[] st stt [data|e] tx] eqn:R.
  - exists (Filings.Failed 500 (orDefault e (lit "Unexpected error"))), [].
    split; [|split; [simpl; lia | now split]].
    unfold Filings.GET, tryCatch. cbv zeta. unfold bind at 1.
    rewrite fetch_run. fold (submissionsUrl cikParam). rewrite R. reflexivity.
  - set (recent := Filings.recentOf data).
    set (n := Nat.min 12 (length (accessionNumber recent))).
    cbv zeta. fold recent. fold n.
    destruct (Filings.lacksColumn data && (0 <? n)) eqn:C.
    + exists (Filings.Failed 500 Filings.TYPE_ERROR), [].
      split; [|split; [simpl; lia | now split]].
      unfold Filings.GET, tryCatch. cbv zeta. unfold bind at 1.
      rewrite fetch_run. fold (submissionsUrl cikParam). rewrite R.
      fold recent. fold n. rewrite C. reflexivity.
    + set (s1 := after (EvFetch (submissionsUrl cikParam)) s).
      destruct (enrichLoop_trace net cikParam (Filings.companyName data) recent
                  (seq 0 n) s1) as [out E].
      destruct (enrichLoop_run net cikParam (Filings.companyName data) recent
                  (seq 0 n) s1) as [s' E'].
      destruct (docUrls_spec cikParam recent (seq 0 n)) as [L _].
      rewrite length_seq in L.
      exists (Filings.Listing out), (docUrls cikParam recent (seq 0 n)).
      assert (N : n <= 12) by (unfold n; lia).
      split; [|split; [lia|]].
      * unfold Filings.GET, tryCatch. cbv zeta. unfold bind at 1.
        rewrite fetch_run. fold (submissionsUrl cikParam). rewrite R.
        fold recent. fold n. rewrite C. fold s1.
        unfold bind at 1. rewrite E. reflexivity.
      * exists out. split; [reflexivity|].
        rewrite E in E'. injection E' as -> _.
        now rewrite enriched_length, length_seq.
  - exists (Filings.Failed 500 (orDefault e (lit "Unexpected error"))), [].
    split; [|split; [simpl; lia | now split]].
    unfold Filings.GET, tryCatch. cbv zeta. unfold bind at 1.
    rewrite fetch_run. fold (submissionsUrl cikParam). rewrite R. reflexivity.
  - exists (Filings.Failed 502 (lit "SEC fetch failed (" ++ st ++ lit ")")), [].
    split; [|split; [simpl; lia | now split]].
    unfold Filings.GET, tryCatch. cbv zeta. unfold bind at 1.
    rewrite fetch_run. fold (submissionsUrl cikParam). rewrite R. reflexivity.
  - exists (Filings.Failed 502 (lit "SEC fetch failed (" ++ st ++ lit ")")), [].
    split; [|split; [simpl; lia | now split]].
    unfold Filings.GET, tryCatch. cbv zeta. unfold bind at 1.
    rewrite fetch_run. fold (submissionsUrl cikParam). rewrite R. reflexivity.
Qed.

(** A filing index with one filing and no [form] column. *)
Definition formless : Network :=
  fun _ _ =>
    Http true (lit "200") (lit "OK")
      (Ok (JSparse (Some (lit "ACME CORP")) None
             (mkSparse [lit "0000000000-24-000001"] None
                (Some [lit "2024-01-02"]) (Some [lit "a.htm"]))))
      (Ok []).

Example filings_route_formless :
  Filings.GET formless (lit "320193") initial
  = (Ok (Filings.Failed 500 Filings.TYPE_ERROR),
     mkProc None 0%Z [EvFetch (submissionsUrl (lit "320193"))]).
Proof. reflexivity. Qed.

(** ** Arrow keys in the suggestion list *)

Lemma arrowDown_mod (n : nat) (x : Z) :
  (0 <= x < Z.of_nat n)%Z ->
  Page.arrowDown n x = ((x + 1) mod Z.of_nat n)%Z.
Proof.
  intro R. unfold Page.arrowDown. cbv zeta.
  destruct (Z.of_nat n - 1 <? 0)%Z eqn:A; [apply Z.ltb_lt in A; lia|].
  destruct (x <? Z.of_nat n - 1)%Z eqn:B.
  - apply Z.ltb_lt in B. rewrite Z.mod_small; lia.
  - apply Z.ltb_ge in B. replace (x + 1)%Z with (Z.of_nat n) by lia.
    now rewrite Z.mod_same by lia.
Qed.

Lemma arrowDown_iter (n : nat) (x : Z) (k : nat) :
  (0 <= x < Z.of_nat n)%Z ->
  Nat.iter k (Page.arrowDown n) x = ((x + Z.of_nat k) mod Z.of_nat n)%Z.
Proof.
  intro R. induction k as [|k IH].
  - simpl. rewrite Z.add_0_r, Z.mod_small; lia.
  - change (Nat.iter (S k) (Page.arrowDown n) x)
      with (Page.arrowDown n (Nat.iter k (Page.arrowDown n) x)).
    rewrite IH, arrowDown_mod by (apply Z.mod_pos_bound; lia).
    rewrite Z.add_mod_idemp_l by lia. f_equal. lia.
Qed.

(** X26.  With [n > 0] suggestions and the active index at [-1] (none) or at
    a position of the list, either arrow key moves it to a position of the
    list: down from none or from the last goes to the first, up from none or
    from the first goes to the last.  On positions of the list the two keys
    undo each other, and [n] presses of the down key come back to where they
    started. *)
Theorem arrow_keys_cycle :
  forall (n : nat) (prev : Z),
    0 < n -> (-1 <= prev < Z.of_nat n)%Z ->
    (0 <= Page.arrowDown n prev < Z.of_nat n)%Z
    /\ (0 <= Page.arrowUp n prev < Z.of_nat n)%Z
    /\ Page.arrowDown n (-1) = 0%Z
    /\ Page.arrowDown n (Z.of_nat n - 1) = 0%Z
    /\ Page.arrowUp n (-1) = (Z.of_nat n - 1)%Z
    /\ Page.arrowUp n 0 = (Z.of_nat n - 1)%Z
    /\ ((0 <= prev)%Z ->
        Page.arrowUp n (Page.arrowDown n prev) = prev
        /\ Page.arrowDown n (Page.arrowUp n prev) = prev
        /\ Nat.iter n (Page.arrowDown n) prev = prev).
Proof.
  intros n prev N R.
  assert (D : forall x, Page.arrowDown n x
                        = if (x <? Z.of_nat n - 1)%Z then (x + 1)%Z else 0%Z).
  { intro x. unfold Page.arrowDown. cbv zeta.
    destruct (Z.of_nat n - 1 <? 0)%Z eqn:A; [apply Z.ltb_lt in A; lia|].
    reflexivity. }
  assert (U : forall x, Page.arrowUp n x
                        = if (x <=? 0)%Z then (Z.of_nat n - 1)%Z else (x - 1)%Z).
  { intro x. unfold Page.arrowUp. cbv zeta.
    destruct (Z.of_nat n - 1 <? 0)%Z eqn:A; [apply Z.ltb_lt in A; lia|].
    reflexivity. }
  assert (Lt : forall a b : Z, (a <? b)%Z = true \/ (a <? b)%Z = false)
    by (intros a b; destruct (a <? b)%Z; auto).
  split; [|split; [|split; [|split; [|split; [|split]]]]].
  - rewrite D. destruct (prev <? Z.of_nat n - 1)%Z eqn:A; [|lia].
    apply Z.ltb_lt in A. lia.
  - rewrite U. destruct (prev <=? 0)%Z eqn:A; [lia|].
    apply Z.leb_gt in A. lia.
  - rewrite D. destruct (-1 <? Z.of_nat n - 1)%Z eqn:A; [reflexivity|].
    apply Z.ltb_ge in A. lia.
  - rewrite D. now rewrite Z.ltb_irrefl.
  - rewrite U. reflexivity.
  - rewrite U. reflexivity.
  - intro P. split; [|split].
    + rewrite D. destruct (prev <? Z.of_nat n - 1)%Z eqn:A.
      * apply Z.ltb_lt in A. rewrite U.
        destruct (prev + 1 <=? 0)%Z eqn:B; [apply Z.leb_le in B; lia | lia].
      * apply Z.ltb_ge in A. rewrite U. simpl. lia.
    + rewrite U. destruct (prev <=? 0)%Z eqn:A.
      * apply Z.leb_le in A. rewrite D, Z.ltb_irrefl. lia.
      * apply Z.leb_gt in A. rewrite D.
        destruct (prev - 1 <? Z.of_nat n - 1)%Z eqn:B;
          [lia | apply Z.ltb_ge in B; lia].
    + rewrite arrowDown_iter by lia.
      rewrite <- (Z.mul_1_l (Z.of_nat n)) at 1.
      rewrite Z.mod_add by lia. apply Z.mod_small. lia.
Qed.

Lemma arrow_keys_cycle_witness :
  Page.arrowDown 3 2 = 0%Z /\ Page.arrowUp 3 0 = 2%Z
  /\ Nat.iter 3 (Page.arrowDown 3) 1%Z = 1%Z.
Proof.
  destruct (@arrow_keys_cycle 3 1%Z ltac:(lia) ltac:(lia))
    as [_ [_ [_ [D [_ [U R]]]]]].
  split; [exact D|]. split; [exact U|].
  destruct (R ltac:(lia)) as [_ [_ I]]. exact I.
Defined.

(** ** The single-registry lookup route *)

Lemma includes_nil (s : str) : includes [] s = true.
Proof. destruct s; reflexivity. Qed.

Lemma find_first {A} (f : A -> bool) (l : list A) (x : A) :
  find f l = Some x ->
  exists l1 l2, l = l1 ++ x :: l2 /\ f x = true
                /\ forall y, In y l1 -> f y = false.
Proof.
  induction l as [|a l IH]; [discriminate|]. simpl.
  destruct (f a) eqn:Fa.
  - intros [= ->]. exists [], l. repeat split; [exact Fa | intros y []].
  - intro H. destruct (IH H) as [l1 [l2 [-> [Fx N]]]].
    exists (a :: l1), l2. repeat split; [exact Fx|].
    intros y [<-|Hy]; [exact Fa | now apply N].
Qed.

(** X27.  The body of the single-registry route: a symbol is looked up in
    upper case and without its margins.  The answer is the first row whose
    symbol is the query, even when the name of an earlier row contains the
    query; failing that the first row whose upper-cased name contains the
    query; failing that the answer is 404 [not_found].  A blank symbol
    therefore never gives 404 on a non-empty list. *)
Theorem single_registry_lookup :
  forall (list : list Row) (symbol : str),
    let q := toUpperCase (trim symbol) in
    let bySymbol := fun x => str_eqb (ticker x) q in
    let byName := fun x => includes q (toUpperCase (name x)) in
    TickerList.lookup list (toUpperCase symbol) = TickerList.lookup list symbol
    /\ TickerList.lookup list (trim symbol) = TickerList.lookup list symbol
    /\ (forall hit, TickerList.lookup list symbol = Lookup.Found hit ->
          exists before rest,
            list = before ++ hit :: rest
            /\ ((ticker hit = q
                 /\ forall y, In y before -> ticker y <> q)
                \/ (byName hit = true
                    /\ (forall y, In y list -> ticker y <> q)
                    /\ forall y, In y before -> byName y = false)))
    /\ (forall status error,
          TickerList.lookup list symbol = Lookup.Failed status error ->
          status = 404 /\ error = lit "not_found"
          /\ forall y, In y list -> ticker y <> q /\ byName y = false)
    /\ (forall y, In y list -> ticker y = q \/ byName y = true ->
          exists hit, TickerList.lookup list symbol = Lookup.Found hit)
    /\ (q = [] -> list <> [] ->
          exists hit, TickerList.lookup list symbol = Lookup.Found hit).
Proof.
  intros list symbol q bySymbol byName.
  assert (Neq : forall y, bySymbol y = false -> ticker y <> q).
  { intros y H E. unfold bySymbol in H. rewrite E, str_eqb_refl in H.
    discriminate. }
  assert (Hit : forall y, In y list -> ticker y = q \/ byName y = true ->
            exists hit, TickerList.lookup list symbol = Lookup.Found hit).
  { intros y Hy C. unfold TickerList.lookup. cbv zeta.
    fold q. fold bySymbol. fold byName.
    destruct (find bySymbol list) as [h|] eqn:F1; [now exists h|].
    destruct (find byName list) as [h|] eqn:F2; [now exists h|].
    exfalso. destruct C as [E|E].
    - apply (Neq y); [|exact E]. now apply (find_none _ _ F1).
    - rewrite (find_none _ _ F2 y Hy) in E. discriminate. }
  split; [|split; [|split; [|split; [|split]]]].
  - unfold TickerList.lookup. cbv zeta.
    now rewrite trim_upper, toUpperCase_idem.
  - unfold TickerList.lookup. cbv zeta. now rewrite trim_idem.
  - intros hit H. unfold TickerList.lookup in H. cbv zeta in H.
    fold q in H. fold bySymbol in H. fold byName in H.
    destruct (find bySymbol list) as [h|] eqn:F1.
    + injection H as ->.
      destruct (find_first F1) as [l1 [l2 [E [Fx N]]]].
      exists l1, l2. split; [exact E|]. left. split.
      * now apply str_eqb_eq.
      * intros y Hy. apply Neq. now apply N.
    + destruct (find byName list) as [h|] eqn:F2; [|discriminate].
      injection H as ->.
      destruct (find_first F2) as [l1 [l2 [E [Fx N]]]].
      exists l1, l2. split; [exact E|]. right. split; [exact Fx|]. split.
      * intros y Hy. apply Neq. now apply (find_none _ _ F1).
      * exact N.
  - intros status error H. unfold TickerList.lookup in H. cbv zeta in H.
    fold q in H. fold bySymbol in H. fold byName in H.
    destruct (find bySymbol list) as [h|] eqn:F1; [discriminate|].
    destruct (find byName list) as [h|] eqn:F2; [discriminate|].
    injection H as <- <-. split; [reflexivity|]. split; [reflexivity|].
    intros y Hy. split.
    + apply Neq. now apply (find_none _ _ F1).
    + now apply (find_none _ _ F2).
  - exact Hit.
  - intros E Ne. destruct list as [|y l]; [now elim Ne|].
    apply (Hit y); [now left|]. right. unfold byName. rewrite E.
    apply includes_nil.
Qed.

(** ** Loading the single registry *)

